(** * telegram_openai_assistant: session orchestration and text reformatting

    A shallow embedding of [assistant_handler.py] and
    [conversation_manager.py], and the properties of the thread/session
    layer stated over it.

    Layout:
    - [PyStr]: Python [str] values as sequences of code points, the
      character classes of [re], [str.replace], [str.split], [str.strip];
    - [Re]: the fragment of [re] the two reformatters use (sequences of
      single characters, greedy [+]/[*] over a character class, capture
      groups) with Python's leftmost, greedy, backtracking semantics, and
      [re.sub];
    - [Reformat]: [process_markdown] and [prepare_text_for_html];
    - [Eff]: the effect monad (handler state, event trace, exceptions,
      [try]/[except]/[finally]);
    - [Handler]: [AssistantHandler];
    - [Manager]: [ConversationManager], sequentially and as interleaved
      coroutines. *)

From Stdlib Require Import ZArith NArith Floats List Ascii String Lia Bool.
From stdpp Require Import gmap strings list fin_maps.

Local Open Scope N_scope.

(* ===================================================================== *)
(** ** Python strings *)
(* ===================================================================== *)

Module PyStr.

(** A [str] is a sequence of Unicode code points, a [list N]. *)

Fixpoint bytes_of (s : string) : list N :=
  match s with
  | EmptyString => []
  | String a s' => N_of_ascii a :: bytes_of s'
  end.

(** UTF-8 decoding of a source literal; [pending] continuation bytes are
    still expected and [acc] holds the bits read so far. *)
Fixpoint utf8_go (bs : list N) (pending : nat) (acc : N) : list N :=
  match bs with
  | [] => []
  | b :: bs' =>
      match pending with
      | O =>
          if b <? 128 then b :: utf8_go bs' O 0
          else if b <? 224 then utf8_go bs' 1%nat (b - 192)
          else if b <? 240 then utf8_go bs' 2%nat (b - 224)
          else utf8_go bs' 3%nat (b - 240)
      | S k =>
          let acc' := acc * 64 + (b - 128) in
          match k with
          | O => acc' :: utf8_go bs' O 0
          | S _ => utf8_go bs' k acc'
          end
      end
  end.

Definition py (s : string) : list N := utf8_go (bytes_of s) O 0.
#[global] Arguments py : simpl never.

(** [str.isspace] and the class [\s] of [re] on [str] patterns. *)
Definition is_space (c : N) : bool :=
  ((9 <=? c) && (c <=? 13)) || ((28 <=? c) && (c <=? 32))
  || (c =? 133) || (c =? 160) || (c =? 5760)
  || ((8192 <=? c) && (c <=? 8202))
  || (c =? 8232) || (c =? 8233) || (c =? 8239) || (c =? 8287) || (c =? 12288).

(** First code points of the ten-digit blocks of category Nd. *)
Definition digit_blocks : list N :=
  [48; 1632; 1776; 1984; 2406; 2534; 2662; 2790; 2918; 3046; 3174; 3302;
   3430; 3558; 3664; 3792; 3872; 4160; 4240; 6112; 6160; 6470; 6608; 6784;
   6800; 6992; 7088; 7232; 7248; 42528; 43216; 43264; 43472; 43504; 43600;
   44016; 65296; 66720; 68912; 69734; 69872; 69942; 70096; 70384; 70736;
   70864; 71248; 71360; 71472; 71904; 72016; 72784; 73040; 73120; 92768;
   92864; 93008; 123200; 123632; 125264; 130032].

(** The class [\d] of [re] on [str] patterns: Unicode decimal digits. *)
Definition is_digit (c : N) : bool :=
  existsb (fun lo => (lo <=? c) && (c <? lo + 10)) digit_blocks
  || ((120782 <=? c) && (c <=? 120831)).

Definition eq_str (a b : list N) : bool := bool_decide (a = b).

Fixpoint starts_with (pre s : list N) : bool :=
  match pre, s with
  | [], _ => true
  | p :: pre', c :: s' => (p =? c) && starts_with pre' s'
  | _ :: _, [] => false
  end.

(** [s.replace(old, new)] for a non-empty [old]: occurrences are replaced
    from the left and do not overlap. [skip] characters of the current
    occurrence are still to be dropped. *)
Fixpoint replace_go (old new s : list N) (skip : nat) : list N :=
  match skip with
  | S k => match s with [] => [] | _ :: s' => replace_go old new s' k end
  | O =>
      match s with
      | [] => []
      | c :: s' =>
          if starts_with old s
          then new ++ replace_go old new s' (Nat.pred (length old))
          else c :: replace_go old new s' O
      end
  end.

Definition replace (old new s : list N) : list N := replace_go old new s O.

(** [sep in s]. *)
Fixpoint contains (sep s : list N) : bool :=
  starts_with sep s ||
  match s with
  | [] => false
  | _ :: s' => contains sep s'
  end.

(** [s.split(sep, 1)] when [sep in s]: the text before and after the
    first occurrence. Without an occurrence the second part is empty. *)
Fixpoint split_once (sep s : list N) : list N * list N :=
  if starts_with sep s then ([], drop (length sep) s)
  else match s with
       | [] => ([], [])
       | c :: s' => let '(a, b) := split_once sep s' in (c :: a, b)
       end.

Fixpoint lstrip (s : list N) : list N :=
  match s with
  | c :: s' => if is_space c then lstrip s' else s
  | [] => []
  end.

(** [s.strip()]. *)
Definition strip (s : list N) : list N := rev (lstrip (rev (lstrip s))).

(** Truth value of a [str]. *)
Definition truthy (s : list N) : bool :=
  match s with [] => false | _ => true end.

End PyStr.
Import PyStr.

(* ===================================================================== *)
(** ** The fragment of [re] in use *)
(* ===================================================================== *)

Module Re.

(** Character classes. *)
Inductive cset :=
| Chr (c : N)            (* a literal character *)
| Space                  (* \s *)
| Digit                  (* \d *)
| NoneOf (cs : list N).  (* [^...] *)

Definition in_cset (cs : cset) (c : N) : bool :=
  match cs with
  | Chr d => d =? c
  | Space => is_space c
  | Digit => is_digit c
  | NoneOf l => negb (existsb (N.eqb c) l)
  end.

(** A pattern is a sequence of atoms; [Open]/[Close] delimit the capture
    groups, numbered in order. *)
Inductive atom :=
| One (cs : cset)
| Star (cs : cset)
| Plus (cs : cset)
| Open
| Close.

(** Length of the longest prefix of [s] inside [cs]. *)
Fixpoint span (cs : cset) (s : list N) : nat :=
  match s with
  | c :: s' => if in_cset cs c then S (span cs s') else O
  | [] => O
  end.

(** Greedy choice with backtracking: the continuation is tried with [n],
    [n-1], ..., [lo] repetitions. *)
Fixpoint greedy {A} (try : nat -> option A) (lo n : nat) : option A :=
  if (n <? lo)%nat then None
  else match try n with
       | Some r => Some r
       | None => match n with
                 | O => None
                 | S n' => greedy try lo n'
                 end
       end.

(** Match [p] at the head of [s]; [pos] characters of the match were
    consumed already and the current group opened at [opened]. The result
    is the length of the match and the spans of its groups, as offsets
    from the start of the match. *)
Fixpoint match_here (p : list atom) (s : list N) (pos opened : nat)
    (caps : list (nat * nat)) : option (nat * list (nat * nat)) :=
  match p with
  | [] => Some (pos, caps)
  | One cs :: p' =>
      match s with
      | c :: s' =>
          if in_cset cs c then match_here p' s' (S pos) opened caps else None
      | [] => None
      end
  | Star cs :: p' =>
      greedy (fun n => match_here p' (drop n s) (pos + n) opened caps)
             0 (span cs s)
  | Plus cs :: p' =>
      greedy (fun n => match_here p' (drop n s) (pos + n) opened caps)
             1 (span cs s)
  | Open :: p' => match_here p' s pos pos caps
  | Close :: p' => match_here p' s pos opened (caps ++ [(opened, pos)])
  end.

Definition match_at (p : list atom) (s : list N) :=
  match_here p s O O [].

(** Replacement templates: literal text and group references. *)
Inductive piece :=
| Lit (t : list N)
| Grp (n : nat).

Definition group (s : list N) (caps : list (nat * nat)) (n : nat) : list N :=
  match caps !! Nat.pred n with
  | Some (b, e) => take (e - b) (drop b s)
  | None => []
  end.

Fixpoint expand (repl : list piece) (s : list N) (caps : list (nat * nat))
    : list N :=
  match repl with
  | [] => []
  | Lit t :: r => t ++ expand r s caps
  | Grp n :: r => group s caps n ++ expand r s caps
  end.

(** [re.sub(p, repl, s)]: scan from the left; at a match emit the expanded
    template and resume after the match, otherwise copy one character.
    [skip] characters of the current match are still to be dropped. *)
Fixpoint sub_go (p : list atom) (repl : list piece) (s : list N)
    (skip : nat) : list N :=
  match skip with
  | S k => match s with [] => [] | _ :: s' => sub_go p repl s' k end
  | O =>
      match match_at p s with
      | Some (len, caps) =>
          expand repl s caps ++
          match s with
          | [] => []
          | c :: s' =>
              match len with
              | O => c :: sub_go p repl s' O
              | S k => sub_go p repl s' k
              end
          end
      | None =>
          match s with
          | [] => []
          | c :: s' => c :: sub_go p repl s' O
          end
      end
  end.

Definition sub (p : list atom) (repl : list piece) (s : list N) : list N :=
  sub_go p repl s O.

(** A literal word as a pattern. *)
Definition word (w : string) : list atom := map (fun c => One (Chr c)) (py w).

End Re.
Import Re.

(* ===================================================================== *)
(** ** The two reformatters *)
(* ===================================================================== *)

Module Reformat.

Definition c_nl : N := 10.
Definition c_sp : N := 32.
Definition c_hash : N := 35.
Definition c_star : N := 42.
Definition c_dash : N := 45.
Definition c_dot : N := 46.
Definition c_colon : N := 58.
Definition c_lt : N := 60.
Definition c_bullet : N := 8226.

(** [r' +'] *)
Definition re_spaces : list atom := [Plus (Chr c_sp)].
(** [r'\s+:'] *)
Definition re_ws_colon : list atom := [Plus Space; One (Chr c_colon)].
(** [r'(\d+)\.\s+\*\*\s+([^*]+)\s+\*\*\s*:'] *)
Definition re_numbered_bold : list atom :=
  [Open; Plus Digit; Close; One (Chr c_dot); Plus Space;
   One (Chr c_star); One (Chr c_star); Plus Space;
   Open; Plus (NoneOf [c_star]); Close; Plus Space;
   One (Chr c_star); One (Chr c_star); Star Space; One (Chr c_colon)].
(** [r'###\s+([^#\n]+)'] *)
Definition re_heading : list atom :=
  [One (Chr c_hash); One (Chr c_hash); One (Chr c_hash); Plus Space;
   Open; Plus (NoneOf [c_hash; c_nl]); Close].
(** [r'(\d+)\.\s+([^:]+):'] *)
Definition re_numbered : list atom :=
  [Open; Plus Digit; Close; One (Chr c_dot); Plus Space;
   Open; Plus (NoneOf [c_colon]); Close; One (Chr c_colon)].
(** [r'\*\*([^*]+)\*\*'] *)
Definition re_bold : list atom :=
  [One (Chr c_star); One (Chr c_star);
   Open; Plus (NoneOf [c_star]); Close;
   One (Chr c_star); One (Chr c_star)].

Definition process_markdown (text : list N) : list N :=
  let text := sub re_spaces [Lit (py " ")] text in
  let text := sub re_ws_colon [Lit (py ":")] text in
  let text := sub re_numbered_bold
                  [Grp 1; Lit (py ". *"); Grp 2; Lit (py "*:")] text in
  let text := sub re_heading [Lit (py "*"); Grp 1; Lit (py "*")] text in
  let text := sub re_numbered
                  [Grp 1; Lit (py ". *"); Grp 2; Lit (py "*:")] text in
  let text := sub re_bold [Lit (py "*"); Grp 1; Lit (py "*")] text in
  replace (py "* *") (py "*") (replace (py "**") (py "*") text).

(** [r'###\s+'] *)
Definition re_heading_mark : list atom :=
  [One (Chr c_hash); One (Chr c_hash); One (Chr c_hash); Plus Space].
(** [r'\*\*\s+([^*]+)\s+\*\*'] *)
Definition re_bold_spaced : list atom :=
  [One (Chr c_star); One (Chr c_star); Plus Space;
   Open; Plus (NoneOf [c_star]); Close; Plus Space;
   One (Chr c_star); One (Chr c_star)].
(** [r'•\s+'] *)
Definition re_bullet : list atom := [One (Chr c_bullet); Plus Space].
(** [r'\n\s*-\s+'] *)
Definition re_dash_item : list atom :=
  [One (Chr c_nl); Star Space; One (Chr c_dash); Plus Space].
(** [r'(\d+)\.\s+<b>([^<]+)</b>:'] *)
Definition re_numbered_tag : list atom :=
  [Open; Plus Digit; Close; One (Chr c_dot); Plus Space] ++ word "<b>" ++
  [Open; Plus (NoneOf [c_lt]); Close] ++ word "</b>:".

Definition prepare_text_for_html (text : list N) : list N :=
  (* Paso 1 *)
  let text := sub re_heading_mark [] text in
  (* Paso 2 *)
  let text := sub re_bold_spaced [Lit (py "<b>"); Grp 1; Lit (py "</b>")] text in
  let text := sub re_bold [Lit (py "<b>"); Grp 1; Lit (py "</b>")] text in
  (* Paso 3 *)
  let text := sub re_ws_colon [Lit (py ":")] text in
  (* Paso 4 *)
  let text := sub re_bullet [Lit (py "• ")] text in
  let text := sub re_dash_item [Lit (c_nl :: py "• ")] text in
  (* Paso 5 *)
  let text := sub re_numbered_tag
                  [Grp 1; Lit (py ". <b>"); Grp 2; Lit (py "</b>:")] text in
  (* Paso 6 *)
  let text := sub re_bullet [Lit (py "• ")] text in
  (* Paso 7 *)
  let text := replace (py "&lt;/b&gt;") (py "</b>")
                (replace (py "&lt;b&gt;") (py "<b>") text) in
  replace (py "&lt;/i&gt;") (py "</i>")
    (replace (py "&lt;i&gt;") (py "<i>") text).

End Reformat.
Import Reformat.

(* ===================================================================== *)
(** ** Effects: state, exceptions, early return *)
(* ===================================================================== *)

Module Eff.

(** Exceptions carry [str(e)]. [except Exception] catches the first
    kind only; cancellation and interrupts are of the second kind. *)
Inductive exn :=
| Exception (msg : list N)
| BaseException (msg : list N).

Definition str_of (e : exn) : list N :=
  match e with Exception m | BaseException m => m end.

(** What a call to a collaborator gives back. *)
Inductive result (A : Type) :=
| Ok (a : A)
| Err (e : exn).
Arguments Ok {A} a.
Arguments Err {A} e.

(** How a block of statements ends: it falls through with a value, it
    executes [return], it raises, or (for the poll loop only) it is still
    running when the fuel is spent. *)
Inductive outcome (A : Type) :=
| Val (a : A)
| Return
| Raise (e : exn)
| Diverge.
Arguments Val {A} a.
Arguments Return {A}.
Arguments Raise {A} e.
Arguments Diverge {A}.

Definition M (S A : Type) : Type := S -> outcome A * S.

#[global] Instance M_ret {S} : MRet (M S) := fun A a s => (Val a, s).

#[global] Instance M_bind {S} : MBind (M S) := fun A B k m s =>
  match m s with
  | (Val a, s') => k a s'
  | (Return, s') => (Return, s')
  | (Raise e, s') => (Raise e, s')
  | (Diverge, s') => (Diverge, s')
  end.

Definition early_return {S A} : M S A := fun s => (Return, s).
Definition raise {S A} (e : exn) : M S A := fun s => (Raise e, s).
Definition diverge {S A} : M S A := fun s => (Diverge, s).

(** [try: m except Exception as e: h e] *)
Definition try_except {S A} (m : M S A) (h : exn -> M S A) : M S A := fun s =>
  match m s with
  | (Raise (Exception msg), s') => h (Exception msg) s'
  | r => r
  end.

(** [try: m finally: fin]. The [finally] block runs however [m] ends. *)
Definition try_finally {S A} (m : M S A) (fin : M S unit) : M S A := fun s =>
  match m s with
  | (Diverge, s') => (Diverge, s')
  | (o, s') =>
      match fin s' with
      | (Val _, s'') => (o, s'')
      | (Return, s'') => (Return, s'')
      | (Raise e, s'') => (Raise e, s'')
      | (Diverge, s'') => (Diverge, s'')
      end
  end.

(** A function body: [return] ends the call normally. *)
Definition function_body {S} (m : M S unit) : M S unit := fun s =>
  match m s with
  | (Return, s') => (Val tt, s')
  | r => r
  end.

End Eff.
Import Eff.

(* ===================================================================== *)
(** ** AssistantHandler *)
(* ===================================================================== *)

Module Handler.

(** Dict objects live in a store, so that several owners can hold the
    same [threads] dict. *)
Definition loc := positive.

Definition deref (h : gmap loc (gmap Z (list N))) (l : loc) : gmap Z (list N) :=
  default ∅ (h !! l).

Record handler := {
  assistant_id : list N;
  message_history : list (list N * list N);   (* role, content *)
  threads : loc;                               (* {group_id: thread_id} *)
  in_progress_runs : gmap (list N) bool;       (* by thread_id *)
}.

(** [AssistantHandler.__init__]; [fresh] is the new, empty [threads] dict. *)
Definition init (assistant : list N) (fresh : loc) : handler :=
  {| assistant_id := assistant; message_history := [];
     threads := fresh; in_progress_runs := ∅ |}.

Definition set_history (hist : list (list N * list N)) (h : handler) : handler :=
  {| assistant_id := assistant_id h; message_history := hist;
     threads := threads h; in_progress_runs := in_progress_runs h |}.

Definition set_runs (r : gmap (list N) bool) (h : handler) : handler :=
  {| assistant_id := assistant_id h; message_history := message_history h;
     threads := threads h; in_progress_runs := r |}.

(** The content of a thread message. *)
Inductive content :=
| Text (t : list N)
| ImageFile (file_id : list N)
| ImageUrl (url : list N).

(** Calls to the assistant provider. *)
Inductive call :=
| MessagesCreate (thread_id : list N) (c : content)
| AssistantsRetrieve (assistant : list N)
| FilesCreate (path : list N)
| RunsCreate (thread_id assistant : list N)
| RunsRetrieve (thread_id run_id : list N)
| MessagesList (thread_id : list N)
| CreateAndStream (thread_id assistant : list N).

(** Clock readings and delays are binary64 floats, as in Python. There
    a float and an int are compared exactly, whatever the size of the
    int, and every comparison with [nan] is false. *)
Definition float_compare_int (x : float) (n : Z) : option comparison :=
  match Prim2SF x with
  | S754_nan => None
  | S754_infinity negative => Some (if negative then Lt else Gt)
  | S754_zero _ => Some (0 ?= n)%Z
  | S754_finite negative m e =>
      let v := if negative then Z.neg m else Z.pos m in
      Some (if (0 <=? e)%Z then (v * 2 ^ e ?= n)%Z
            else (v ?= n * 2 ^ (- e))%Z)
  end.

(** [x > n] *)
Definition float_gt_int (x : float) (n : Z) : bool :=
  match float_compare_int x n with Some Gt => true | _ => false end.

(** [x < n] *)
Definition float_lt_int (x : float) (n : Z) : bool :=
  match float_compare_int x n with Some Lt => true | _ => false end.

(** What the handler does to the outside, in order. *)
Inductive event :=
| Provider (c : call)
| Deliver (chunk : list N)     (* await send_to_telegram(chunk) *)
| ReadFile (path : list N)     (* open(path, "rb").read() *)
| Clock                        (* time.time() *)
| Sleep (d : float).           (* await asyncio.sleep(d) *)

(** A message of [messages.list]: role, run id, content items as
    (type, text value). *)
Record message := {
  role : list N;
  run_id : list N;
  items : list (list N * list N);
}.

(** The collaborators. Each answer may depend on everything that
    happened before, so an [env] is an arbitrary environment. *)
Record env := {
  messages_create : list event -> list N -> content -> result unit;
  assistants_retrieve : list event -> list N -> result (option (list N));
  files_create : list event -> list N -> result (list N);
  read_base64 : list event -> list N -> result (list N);
  runs_create : list event -> list N -> list N -> result (list N * list N);
  runs_retrieve : list event -> list N -> list N -> result (list N);
  messages_list : list event -> list N -> result (list message);
  create_and_stream :
    list event -> list N -> list N -> result (list (list N) * option exn);
  send_to_telegram : list event -> list N -> result unit;
  time : list event -> float;
}.

Record state := {
  dicts : gmap loc (gmap Z (list N));
  self : handler;
  trace : list event;
}.

Definition with_self (f : handler -> handler) (s : state) : state :=
  {| dicts := dicts s; self := f (self s); trace := trace s |}.

Definition log (ev : event) (s : state) : state :=
  {| dicts := dicts s; self := self s; trace := trace s ++ [ev] |}.

Definition lift {A} (r : result A) (s : state) : outcome A * state :=
  match r with
  | Ok a => (Val a, s)
  | Err e => (Raise e, s)
  end.

Section Turns.

Variable E : env.

Definition provider {A} (c : call) (answer : list event -> result A)
    : M state A :=
  fun s => lift (answer (trace s)) (log (Provider c) s).

Definition deliver (chunk : list N) : M state unit :=
  fun s => lift (send_to_telegram E (trace s) chunk) (log (Deliver chunk) s).

Definition read_file (path : list N) : M state (list N) :=
  fun s => lift (read_base64 E (trace s) path) (log (ReadFile path) s).

Definition now : M state float :=
  fun s => (Val (time E (trace s)), log Clock s).

Definition sleep (d : float) : M state unit :=
  fun s => (Val tt, log (Sleep d) s).

(** [self.threads.get(group_id)] *)
Definition threads_get (group_id : Z) : M state (option (list N)) :=
  fun s => (Val (deref (dicts s) (threads (self s)) !! group_id), s).

(** [self.assistant_id] *)
Definition self_assistant_id : M state (list N) :=
  fun s => (Val (assistant_id (self s)), s).

(** [self._in_progress_runs.get(thread_id, False)] *)
Definition in_progress_get (thread_id : list N) : M state bool :=
  fun s => (Val (default false (in_progress_runs (self s) !! thread_id)), s).

(** [self._in_progress_runs[thread_id] = b] *)
Definition in_progress_set (thread_id : list N) (b : bool) : M state unit :=
  fun s =>
    (Val tt,
     with_self (fun h => set_runs (<[thread_id := b]> (in_progress_runs h)) h) s).

(** [self.message_history.append({"role": r, "content": c})] *)
Definition history_append (r c : list N) : M state unit :=
  fun s =>
    (Val tt,
     with_self (fun h => set_history (message_history h ++ [(r, c)]) h) s).

Definition busy_notice : list N :=
  py "⏳ Estoy procesando una solicitud anterior. Por favor, espera un momento.".

(** ["\n\n"] *)
Definition paragraph_break : list N := [10; 10].

(** The body of [for partial_text in event_handler.text_deltas]. *)
Fixpoint stream_deltas (deltas : list (list N)) (failure : option exn)
    (buffer accumulated_text : list N) : M state (list N) :=
  match deltas with
  | [] =>
      match failure with
      | Some e => raise e
      | None => mret buffer
      end
  | partial_text :: rest =>
      let buffer := buffer ++ partial_text in
      if contains paragraph_break buffer then
        let parts := split_once paragraph_break buffer in
        let accumulated_text := accumulated_text ++ fst parts in
        let processed_text := strip accumulated_text in
        (if truthy processed_text
         then deliver processed_text;;
              history_append (py "assistant") processed_text
         else mret tt);;
        stream_deltas rest failure (snd parts) []
      else stream_deltas rest failure buffer accumulated_text
  end.

Definition stream_response (group_id : Z) (message_str : list N)
    : M state unit :=
  function_body (
    thread_id ← threads_get group_id;
    match thread_id with
    | None | Some [] => early_return
    | Some thread_id =>
        busy ← in_progress_get thread_id;
        if busy : bool then deliver busy_notice;; early_return
        else
          try_finally (
            in_progress_set thread_id true;;
            try_except (
              provider (MessagesCreate thread_id (Text message_str))
                (fun tr => messages_create E tr thread_id (Text message_str));;
              history_append (py "user") message_str)
            (fun e => in_progress_set thread_id false;; early_return);;
            try_except (
              assistant ← self_assistant_id;
              stream ← provider (CreateAndStream thread_id assistant)
                (fun tr => create_and_stream E tr thread_id assistant);
              buffer ← stream_deltas (fst stream) (snd stream) [] [];
              if truthy (strip buffer) then
                let processed_text := strip buffer in
                deliver processed_text;;
                history_append (py "assistant") processed_text
              else mret tt)
            (fun e => mret tt))
          (in_progress_set thread_id false)
    end).

(** *** The image turn *)

Definition analysing_notice : list N :=
  py "🔍 Estoy analizando la imagen. Esto puede tardar unos momentos...".
Definition cannot_process_notice : list N :=
  py "❌ No pude procesar la imagen. Por favor, intenta con otra imagen o consulta sin imagen.".
Definition upload_failed_notice (e : exn) : list N :=
  py "⚠️ No se pudo subir la imagen. Error: " ++ str_of e.
Definition queued_notice : list N :=
  py "🔄 Tu solicitud está en cola. Esto puede tardar un momento debido a alta demanda...".
Definition still_queued_notice : list N :=
  py "⏳ Tu solicitud sigue en cola. A veces el procesamiento de imágenes puede tardar un poco más. Gracias por tu paciencia.".
Definition slow_notice : list N :=
  py "⚠️ El análisis está tomando más tiempo del esperado. Puedo continuar esperando o puedes cancelar e intentarlo nuevamente. ¿Quieres continuar esperando?".
Definition no_answer_notice (model_name : list N) : list N :=
  py "⚠️ El asistente no generó una respuesta para la imagen. Modelo usado: " ++ model_name.
Definition failed_notice (run_status model_name : list N) : list N :=
  py "❌ El análisis falló con estado: " ++ run_status ++ py ". Modelo usado: " ++ model_name.
Definition analysis_error_notice (e : exn) : list N :=
  py "Lo siento, ocurrió un error al analizar la imagen: " ++ str_of e.

(** The loop variables of the poll loop: [max_wait_time] is an int,
    [queued_time_start] is [None] or a clock reading. *)
Record poll := {
  run_status : list N;
  max_wait_time : Z;
  queued_message_sent : bool;
  queued_time_start : option float;
}.

Definition set_status (st : list N) (p : poll) : poll :=
  {| run_status := st; max_wait_time := max_wait_time p;
     queued_message_sent := queued_message_sent p;
     queued_time_start := queued_time_start p |}.

Definition set_max_wait (w : Z) (p : poll) : poll :=
  {| run_status := run_status p; max_wait_time := w;
     queued_message_sent := queued_message_sent p;
     queued_time_start := queued_time_start p |}.

Definition set_queued (sent : bool) (since : option float) (p : poll) : poll :=
  {| run_status := run_status p; max_wait_time := max_wait_time p;
     queued_message_sent := sent; queued_time_start := since |}.

(** [run_status in ["completed", "failed", "cancelled", "expired"]] *)
Definition is_terminal (st : list N) : bool :=
  existsb (eq_str st)
    [py "completed"; py "failed"; py "cancelled"; py "expired"].

(** [min(5, 1 + (elapsed_time / 20))]: the ints 20 and 1 enter the
    division and the sum as floats, and [min] gives its first argument
    unless the second is smaller. The int 5 is written as the float of
    the same value, which [asyncio.sleep] takes alike. *)
Definition base_wait (elapsed_time : float) : float :=
  let wait := (1 + elapsed_time / 20)%float in
  if float_lt_int wait 5 then wait else 5%float.

(** [if run_status == "queued": ...] *)
Definition on_queued (p : poll) : M state poll :=
  if eq_str (run_status p) (py "queued") then
    p ← (if negb (queued_message_sent p) then
           deliver queued_notice;;
           t0 ← now;
           mret (set_queued true (Some t0) p)
         else mret p);
    match queued_time_start p with
    | Some t0 =>
        if (t0 =? 0)%float then mret p    (* a zero reading is falsy *)
        else
          t1 ← now;
          if float_gt_int (t1 - t0)%float 30 then
            deliver still_queued_notice;;
            mret (set_queued (queued_message_sent p) None p)
          else mret p
    | None => mret p
    end
  else mret p.

(** [if elapsed_time > max_wait_time: ...] *)
Definition on_timeout (elapsed_time : float) (p : poll) : M state poll :=
  if float_gt_int elapsed_time (max_wait_time p) then
    deliver slow_notice;;
    mret (set_max_wait (max_wait_time p + 60)%Z p)
  else mret p.

(** [try: run = ...runs.retrieve(...) except Exception: ...] *)
Definition refresh (thread_id run : list N) (p : poll) : M state poll :=
  try_except (
    st ← provider (RunsRetrieve thread_id run)
           (fun tr => runs_retrieve E tr thread_id run);
    mret (set_status st p))
  (fun e => sleep 5%float;; mret p).

(** One iteration of [while run_status not in [...]]. *)
Definition poll_body (thread_id run : list N) (start_time : float) (p : poll)
    : M state poll :=
  t ← now;
  let elapsed_time := (t - start_time)%float in
  p ← on_queued p;
  p ← on_timeout elapsed_time p;
  sleep (base_wait elapsed_time);;
  refresh thread_id run p.

Fixpoint poll_loop (fuel : nat) (thread_id run : list N) (start_time : float)
    (p : poll) : M state poll :=
  if is_terminal (run_status p) then mret p
  else match fuel with
       | O => diverge
       | S fuel' =>
           p' ← poll_body thread_id run start_time p;
           poll_loop fuel' thread_id run start_time p'
       end.

(** The loop variables when the loop is entered. *)
Definition first_poll (status : list N) : poll :=
  {| run_status := status; max_wait_time := 120%Z;
     queued_message_sent := false; queued_time_start := None |}.

(** The text segments of the assistant's messages of this run. *)
Definition assistant_messages (run : list N) (data : list message)
    : list (list N) :=
  flat_map (fun msg =>
    if eq_str (role msg) (py "assistant") && eq_str (run_id msg) run
    then map snd (List.filter (fun it => eq_str (fst it) (py "text")) (items msg))
    else []) data.

Fixpoint deliver_all (texts : list (list N)) : M state unit :=
  match texts with
  | [] => mret tt
  | msg_text :: rest =>
      deliver msg_text;;
      history_append (py "assistant") msg_text;;
      deliver_all rest
  end.

(** [image_base64] is not used by the method and left out. [fuel] bounds
    the number of polls. *)
Definition stream_image_response (fuel : nat) (group_id : Z)
    (message_str image_path : list N) : M state unit :=
  function_body (
    thread_id ← threads_get group_id;
    match thread_id with
    | None | Some [] => early_return
    | Some thread_id =>
        busy ← in_progress_get thread_id;
        if busy : bool then deliver busy_notice;; early_return
        else
          try_finally (
            in_progress_set thread_id true;;
            deliver analysing_notice;;
            assistant ← self_assistant_id;
            model_name ← try_except (
                info ← provider (AssistantsRetrieve assistant)
                         (fun tr => assistants_retrieve E tr assistant);
                mret (default (py "desconocido") info))
              (fun e => mret (py "desconocido"));
            file_id ← try_except (
                provider (MessagesCreate thread_id (Text message_str))
                  (fun tr => messages_create E tr thread_id (Text message_str));;
                file_id ← provider (FilesCreate image_path)
                            (fun tr => files_create E tr image_path);
                try_except (
                  provider (MessagesCreate thread_id (ImageFile file_id))
                    (fun tr => messages_create E tr thread_id (ImageFile file_id)))
                (fun e =>
                  try_except (
                    b64_image ← read_file image_path;
                    let url := py "data:image/jpeg;base64," ++ b64_image in
                    provider (MessagesCreate thread_id (ImageUrl url))
                      (fun tr => messages_create E tr thread_id (ImageUrl url)))
                  (fun e2 =>
                    deliver cannot_process_notice;;
                    in_progress_set thread_id false;;
                    early_return));;
                mret file_id)
              (fun e =>
                deliver (upload_failed_notice e);;
                in_progress_set thread_id false;;
                early_return);
            history_append (py "user")
              (message_str ++ py " [IMAGEN adjuntada como archivo: "
                 ++ file_id ++ py "]");;
            try_except (
              run ← provider (RunsCreate thread_id assistant)
                      (fun tr => runs_create E tr thread_id assistant);
              start_time ← now;
              p ← poll_loop fuel thread_id (snd run) start_time
                    (first_poll (fst run));
              now;;       (* the total time of the final log line *)
              if eq_str (run_status p) (py "completed") then
                messages ← provider (MessagesList thread_id)
                             (fun tr => messages_list E tr thread_id);
                match assistant_messages (snd run) messages with
                | [] => deliver (no_answer_notice model_name)
                | texts => deliver_all texts
                end
              else deliver (failed_notice (run_status p) model_name))
            (fun e => deliver (analysis_error_notice e)))
          (in_progress_set thread_id false)
    end).

(** [trim_message_history]: keep the last 20 entries. *)
Definition max_messages : nat := 20.

Definition trim_message_history (h : handler) : handler :=
  if (max_messages <? length (message_history h))%nat
  then set_history
         (drop (length (message_history h) - max_messages) (message_history h)) h
  else h.

End Turns.
End Handler.

(* ===================================================================== *)
(** ** ConversationManager *)
(* ===================================================================== *)

Module Manager.

Import Handler.

(** A registered [Bot] is represented by its name and its
    [assistant_handler]. The fields of the manager that no method below
    reads or writes ([active_conversation], [bot_order], ...) are left
    out. *)
Record manager := {
  all_bots : list (list N * handler);            (* in insertion order *)
  threads : loc;                                 (* {group_id: thread_id} *)
  user_data : gmap Z (gmap (list N) (list N));
  thread_locks : gmap Z bool;                    (* a Lock and whether it is held *)
}.

Record world := {
  dicts : gmap loc (gmap Z (list N));
  mgr : manager;
  creations : nat;             (* calls of [client.beta.threads.create()] *)
}.

Definition with_dicts (d : gmap loc (gmap Z (list N))) (w : world) : world :=
  {| dicts := d; mgr := mgr w; creations := creations w |}.

Definition with_locks (l : gmap Z bool) (w : world) : world :=
  {| dicts := dicts w;
     mgr := {| all_bots := all_bots (mgr w); threads := threads (mgr w);
               user_data := user_data (mgr w); thread_locks := l |};
     creations := creations w |}.

Definition count_creation (w : world) : world :=
  {| dicts := dicts w; mgr := mgr w; creations := S (creations w) |}.

(** [register_bots]: every handler is handed the manager's own dict. *)
Definition register_bots (bots : list (list N * handler)) (m : manager)
    : manager :=
  {| all_bots :=
       map (fun b =>
              (fst b,
               {| assistant_id := assistant_id (snd b);
                  message_history := message_history (snd b);
                  Handler.threads := threads m;
                  in_progress_runs := in_progress_runs (snd b) |})) bots;
     threads := threads m; user_data := user_data m;
     thread_locks := thread_locks m |}.

(** [group_id in self.threads] *)
Definition is_active (group_id : Z) (w : world) : bool :=
  bool_decide (is_Some (deref (dicts w) (threads (mgr w)) !! group_id)).

(** [self.threads.get(group_id)] *)
Definition get_thread_id (group_id : Z) (w : world) : option (list N) :=
  deref (dicts w) (threads (mgr w)) !! group_id.

(** [d[group_id] = thread_id] on the dict at [l]. *)
Definition dict_set (l : loc) (group_id : Z) (thread_id : list N)
    (d : gmap loc (gmap Z (list N))) : gmap loc (gmap Z (list N)) :=
  <[l := <[group_id := thread_id]> (deref d l)]> d.

(** [del d[group_id]] on the dict at [l]. *)
Definition dict_del (l : loc) (group_id : Z)
    (d : gmap loc (gmap Z (list N))) : gmap loc (gmap Z (list N)) :=
  <[l := delete group_id (deref d l)]> d.

(** [self.threads[group_id] = thread_id], then the same assignment on
    every handler's dict. *)
Definition record_thread (group_id : Z) (thread_id : list N) (w : world)
    : world :=
  with_dicts
    (foldl (fun d b => dict_set (Handler.threads (snd b)) group_id thread_id d)
           (dict_set (threads (mgr w)) group_id thread_id (dicts w))
           (all_bots (mgr w)))
    w.

(** [get_thread_lock]: the lock of the group, created on first use. *)
Definition get_thread_lock (group_id : Z) (w : world) : world :=
  match thread_locks (mgr w) !! group_id with
  | Some _ => w
  | None => with_locks (<[group_id := false]> (thread_locks (mgr w))) w
  end.

Definition lock_held (group_id : Z) (w : world) : bool :=
  default false (thread_locks (mgr w) !! group_id).

Definition set_lock (group_id : Z) (b : bool) (w : world) : world :=
  with_locks (<[group_id := b]> (thread_locks (mgr w))) w.

(** What [client.beta.threads.create()] does: it raises, or it gives a
    thread object, whose [id] may be missing. *)
Inductive creation :=
| Raises
| Thread (id : option (list N)).

(** Where a coroutine running [set_thread_id] stands. Every statement
    boundary inside the [async with] block is taken as a point where
    another coroutine may run. *)
Inductive pc :=
| AtEntry                        (* before [async with lock] *)
| Locked                         (* lock held, before the re-check *)
| Creating                       (* no thread, no hint: before the provider call *)
| Storing (new_thread_id : list N)
| Leaving (r : option (list N))  (* [return r], lock still held *)
| Done (r : option (list N)).

Record task := {
  group_id : Z;
  thread_id : option (list N);   (* the hint *)
  pos : pc;
}.

Definition goto (p : pc) (t : task) : task :=
  {| group_id := group_id t; thread_id := thread_id t; pos := p |}.

Section SetThread.

(** The answer of the provider to its [k]-th creation request. *)
Variable create : nat -> creation.

(** One move of a coroutine; [None] when it cannot move (it waits for the
    lock, or it has returned). *)
Definition step (t : task) (w : world) : option (task * world) :=
  let g := group_id t in
  match pos t with
  | AtEntry =>
      let w := get_thread_lock g w in
      if lock_held g w then None
      else Some (goto Locked t, set_lock g true w)
  | Locked =>
      match get_thread_id g w with
      | Some (c :: existing) => Some (goto (Leaving (Some (c :: existing))) t, w)
      | _ =>
          match thread_id t with
          | Some (c :: hint) =>
              Some (goto (Leaving (Some (c :: hint))) t,
                    record_thread g (c :: hint) w)
          | _ => Some (goto Creating t, w)
          end
      end
  | Creating =>
      match all_bots (mgr w) with
      | [] => Some (goto (Leaving None) t, w)    (* next(iter({})) raises *)
      | _ :: _ =>
          match create (creations w) with
          | Thread (Some (c :: id)) =>
              Some (goto (Storing (c :: id)) t, count_creation w)
          | _ => Some (goto (Leaving None) t, count_creation w)
          end
      end
  | Storing id => Some (goto (Leaving (Some id)) t, record_thread g id w)
  | Leaving r => Some (goto (Done r) t, set_lock g false w)
  | Done _ => None
  end.

(** A coroutine run on its own. *)
Fixpoint run (fuel : nat) (t : task) (w : world)
    : option (option (list N) * world) :=
  match pos t with
  | Done r => Some (r, w)
  | _ =>
      match fuel with
      | O => None
      | S fuel' =>
          match step t w with
          | Some (t', w') => run fuel' t' w'
          | None => None
          end
      end
  end.

(** [await set_thread_id(group_id, thread_id)] with no other coroutine
    in between; [None] when the lock is never released. *)
Definition set_thread_id (g : Z) (hint : option (list N)) (w : world)
    : option (option (list N) * world) :=
  run 5 {| group_id := g; thread_id := hint; pos := AtEntry |} w.

(** Several coroutines over one manager. *)
Record system := {
  tasks : list task;
  shared : world;
}.

(** The event loop resumes coroutine [i]. *)
Definition resume (i : nat) (c : system) : option system :=
  match tasks c !! i with
  | Some t =>
      match step t (shared c) with
      | Some (t', w') => Some {| tasks := <[i := t']> (tasks c); shared := w' |}
      | None => None
      end
  | None => None
  end.

(** A schedule names the coroutine to resume at each turn; naming one
    that cannot move changes nothing. *)
Fixpoint exec (schedule : list nat) (c : system) : system :=
  match schedule with
  | [] => c
  | i :: rest => exec rest (default c (resume i c))
  end.

Definition returned (t : task) : option (option (list N)) :=
  match pos t with
  | Done r => Some r
  | _ => None
  end.

Definition all_returned (c : system) : bool :=
  forallb (fun t => bool_decide (is_Some (returned t))) (tasks c).

(** [n] coroutines entering [set_thread_id(g)] without a hint. *)
Definition first_messages (n : nat) (g : Z) (w : world) : system :=
  {| tasks := replicate n {| group_id := g; thread_id := None; pos := AtEntry |};
     shared := w |}.

End SetThread.

(** [end_conversation] *)
Definition end_conversation (g : Z) (w : world) : bool * world :=
  if is_active g w then
    let d := dict_del (threads (mgr w)) g (dicts w) in
    (true,
     with_dicts
       (foldl (fun d b =>
                 if bool_decide (is_Some (deref d (Handler.threads (snd b)) !! g))
                 then dict_del (Handler.threads (snd b)) g d
                 else d)
              d (all_bots (mgr w)))
       w)
  else (false, w).

(** [save_user_info] *)
Definition save_user_info (g : Z) (name : list N) (w : world) : world :=
  {| dicts := dicts w;
     mgr := {| all_bots := all_bots (mgr w); threads := threads (mgr w);
               user_data :=
                 <[g := <[py "name" := name]> (default ∅ (user_data (mgr w) !! g))]>
                   (user_data (mgr w));
               thread_locks := thread_locks (mgr w) |};
     creations := creations w |}.

(** [get_user_name] *)
Definition get_user_name (g : Z) (w : world) : list N :=
  default [] (user_data (mgr w) !! g ≫= fun u => u !! py "name").

End Manager.

(* ===================================================================== *)
(** ** What the properties are stated with *)
(* ===================================================================== *)

Module ReObs.

Definition c_amp : N := 38.

(** The literal characters of a replacement template. *)
Definition literals (repl : list piece) : list N :=
  flat_map (fun q => match q with Lit t => t | Grp _ => [] end) repl.

(** The characters of heading marks, of emphasis marks and of escaped
    tags. *)
Definition markers : list N := [c_hash; c_star; c_amp].

Definition unmarked (text : list N) : bool :=
  forallb (fun c => negb (existsb (N.eqb c) markers)) text.

(** Every match of [p] in [text] is replaced by itself. *)
Fixpoint self_replacing (p : list atom) (repl : list piece) (text : list N)
    : bool :=
  match match_at p text with
  | Some (len, caps) => eq_str (expand repl text caps) (take len text)
  | None => true
  end &&
  match text with
  | [] => true
  | _ :: rest => self_replacing p repl rest
  end.

(** No rewrite of [prepare_text_for_html] changes the text: every match
    of one of its patterns is replaced by itself and no escaped tag
    occurs. *)
Definition normalized (text : list N) : bool :=
  self_replacing re_heading_mark [] text
  && self_replacing re_bold_spaced [Lit (py "<b>"); Grp 1; Lit (py "</b>")] text
  && self_replacing re_bold [Lit (py "<b>"); Grp 1; Lit (py "</b>")] text
  && self_replacing re_ws_colon [Lit (py ":")] text
  && self_replacing re_bullet [Lit (py "• ")] text
  && self_replacing re_dash_item [Lit (c_nl :: py "• ")] text
  && self_replacing re_numbered_tag
       [Grp 1; Lit (py ". <b>"); Grp 2; Lit (py "</b>:")] text
  && negb (contains (py "&lt;b&gt;") text)
  && negb (contains (py "&lt;/b&gt;") text)
  && negb (contains (py "&lt;i&gt;") text)
  && negb (contains (py "&lt;/i&gt;") text).

(** A reply with a heading, two dash items and a numbered label. *)
Definition sample_reply : list N := py "### Plan
- **uno**: comer
-   **dos**: dormir
1.  **Nota**: &lt;i&gt;ojo&lt;/i&gt;".

(** Label variants: [a], [b], [c], [d] spaces around the markers of
    ["1. ** Label ** :"]. *)
Definition spaces (n : nat) : list N := repeat c_sp n.

Definition numbered_label (a b c d : nat) : list N :=
  py "1." ++ spaces a ++ py "**" ++ spaces b ++ py "Label" ++ spaces c
    ++ py "**" ++ spaces d ++ py ":".

Definition next_is (c : N) (s : list N) : bool :=
  match s with x :: _ => c =? x | [] => false end.

Definition starts_ws (s : list N) : bool :=
  match s with x :: _ => is_space x | [] => false end.

(** The text after the leading run of whitespace. *)
Definition after_ws (s : list N) : list N := drop (span Space s) s.

(** [P] holds of the text from every position on. *)
Fixpoint everywhere (P : list N -> bool) (y : list N) : bool :=
  P y && match y with [] => true | _ :: t => everywhere P t end.

(** No match of [\s+:] starts here. *)
Definition ok_colon (t : list N) : bool :=
  negb (starts_ws t && next_is c_colon (after_ws t)).

(** A bullet here is followed by no whitespace or by one space. *)
Definition ok_bullet (t : list N) : bool :=
  match t with
  | c :: rest =>
      if (c_bullet =? c) && starts_ws rest
      then next_is c_sp rest && negb (starts_ws (drop 1 rest))
      else true
  | [] => true
  end.

(** After optional whitespace comes a dash and whitespace. *)
Definition dash_item (s : list N) : bool :=
  match after_ws s with
  | c :: r => (c_dash =? c) && starts_ws r
  | [] => false
  end.

(** No match of [\n\s*-\s+] starts here. *)
Definition ok_dash (t : list N) : bool :=
  match t with
  | c :: rest => negb ((c_nl =? c) && dash_item rest)
  | [] => true
  end.

(** The rest of [s] after the prefix [pre], if [s] starts with it. *)
Definition after (pre s : list N) : option (list N) :=
  if starts_with pre s then Some (drop (length pre) s) else None.

(** A label [. <b>X</b>:], with any whitespace, at the head of [s]: its whitespace, its text
    and what follows it. *)
Definition label (s : list N) : option (list N * list N * list N) :=
  match s with
  | d :: t1 =>
      if (c_dot =? d) && starts_ws t1 then
        match after (py "<b>") (after_ws t1) with
        | Some t3 =>
            match span (NoneOf [c_lt]) t3,
                  after (py "</b>:") (drop (span (NoneOf [c_lt]) t3) t3) with
            | S _, Some rest =>
                Some (take (span Space t1) t1, take (span (NoneOf [c_lt]) t3) t3, rest)
            | _, _ => None
            end
        | None => None
        end
      else None
  | [] => None
  end.

(** A numbered label at the head of [t]: the digits and the label. *)
Definition numbered (t : list N) : option (list N * list N * list N * list N) :=
  match span Digit t with
  | S n =>
      match label (drop (S n) t) with
      | Some (W, X, rest) => Some (take (S n) t, W, X, rest)
      | None => None
      end
  | O => None
  end.

(** A digit here is not followed by a label with other whitespace than
    one space. *)
Definition ok_tag (t : list N) : bool :=
  match t with
  | d :: r =>
      if is_digit d then
        match label r with
        | Some (W, _, _) => eq_str W [c_sp]
        | None => true
        end
      else true
  | [] => true
  end.

(** The text is at rest: no rewrite of the reformatter applies to it. *)
Definition at_rest (y : list N) : bool :=
  everywhere ok_colon y && everywhere ok_bullet y && everywhere ok_dash y &&
  everywhere ok_tag y.

End ReObs.

Module HandlerObs.

Import Handler.

(** A computation that comes to an end. *)
Definition returns {S A} (m : M S A) : Prop := forall s, fst (m s) <> Diverge.

(** The handle a turn for [group_id] would use, as the handler sees it. *)
Definition handle_of (group_id : Z) (s : state) : option (list N) :=
  deref (dicts s) (threads (self s)) !! group_id.

(** The state after a busy notice: one more delivery in the trace. *)
Definition after_busy_notice (s : state) : state :=
  {| dicts := dicts s; self := self s;
     trace := trace s ++ [Deliver busy_notice] |}.

(** How the call ends when the delivery callback answers [r]. *)
Definition ends_as (r : result unit) : outcome unit :=
  match r with
  | Ok _ => Val tt
  | Err e => Raise e
  end.

(** Clock readings and deliveries other than the slow-analysis notice. *)
Definition quiet (evs : list event) : bool :=
  forallb (fun ev =>
             match ev with
             | Clock => true
             | Deliver chunk => negb (eq_str chunk slow_notice)
             | _ => false
             end) evs.

(** The number of status polls in a trace. *)
Definition polls (tr : list event) : nat :=
  length (List.filter (fun ev => match ev with
                                 | Provider (RunsRetrieve _ _) => true
                                 | _ => false
                                 end) tr).

(** A computation that can only be cut short after [n] polls. *)
Definition stalls {A} (n : nat) (m : M state A) : Prop :=
  forall s s', m s = (Diverge, s') -> (n <= polls (trace s'))%nat.

(** The callback always delivers, and polling fails with ordinary
    exceptions only. *)
Definition delivers (E : env) : Prop :=
  forall tr chunk, send_to_telegram E tr chunk = Ok tt.


(** [n] text turns in a row. *)
Fixpoint text_turns (E : env) (n : nat) (group_id : Z) (message_str : list N)
    (s : state) : state :=
  match n with
  | O => s
  | S k => text_turns E k group_id message_str
             (snd (stream_response E group_id message_str s))
  end.

(** A clock that advances by 50 seconds with every event. *)
Definition ticking (tr : list event) : float :=
  fold_right (fun _ t => (t + 50)%float) 0%float tr.

(** An environment in which every collaborator answers: the run is
    reported in progress twice and then completed. *)
Definition calm : env :=
  {| messages_create := fun _ _ _ => Ok tt;
     assistants_retrieve := fun _ _ => Ok (Some (py "gpt-4o"));
     files_create := fun _ _ => Ok (py "file_1");
     read_base64 := fun _ _ => Ok (py "aGk=");
     runs_create := fun _ _ _ => Ok (py "queued", py "run_1");
     runs_retrieve := fun tr _ _ =>
       Ok (if (polls tr <? 2)%nat then py "in_progress" else py "completed");
     messages_list := fun _ _ =>
       Ok [ {| role := py "assistant"; run_id := py "run_1";
               items := [(py "text", py "Es una ecografia.")] |} ];
     create_and_stream := fun _ _ _ => Ok ([py "Hola"], None);
     send_to_telegram := fun _ _ => Ok tt;
     time := ticking |}.


(** A handler that knows thread ["thread_A"] for group 7. *)
Definition home : state :=
  {| dicts := {[ 1%positive := {[ 7%Z := py "thread_A" ]} ]};
     self := init (py "asst_1") 1%positive;
     trace := [] |}.

(** The same handler in the middle of a run on that thread. *)
Definition busy_home : state :=
  with_self (set_runs {[ py "thread_A" := true ]}) home.

(** A handler that knows no thread. *)
Definition nowhere : state :=
  {| dicts := ∅; self := init (py "asst_1") 1%positive; trace := [] |}.




End HandlerObs.

Module ManagerObs.

Import Handler Manager.

Definition holding (p : pc) : bool :=
  match p with
  | Locked | Creating | Storing _ | Leaving _ => true
  | AtEntry | Done _ => false
  end.

(** No usable handle is recorded for the group. *)
Definition no_handle (g : Z) (w : world) : Prop :=
  get_thread_id g w = None \/ get_thread_id g w = Some [].

(** The id that a creation gives to record: the provider call did not
    raise and [thread.id] is truthy. *)
Definition usable (cr : creation) : option (list N) :=
  match cr with
  | Thread (Some (c :: id)) => Some (c :: id)
  | _ => None
  end.

(** A coroutine whose creation request has failed: it returns [None]. *)
Definition gave_up (p : pc) : bool :=
  match p with
  | Leaving None | Done None => true
  | _ => false
  end.

Definition tally (p : pc) : nat := if gave_up p then 1 else 0.

(** How many coroutines have given up. *)
Definition refusals (c : system) : nat :=
  list_sum (map (fun t => tally (pos t)) (tasks c)).

(** How far the creation has come: no request has succeeded yet, a
    request has given [h], [h] is recorded. *)
Inductive phase := Before | Made (h : list N) | Stored (h : list N).

Definition allowed (ph : phase) (p : pc) : Prop :=
  match p, ph with
  | AtEntry, _ => True
  | Done None, _ => True
  | (Locked | Creating | Leaving None), Before => True
  | Storing x, Made h => x = h
  | Locked, Stored _ => True
  | (Leaving (Some x) | Done (Some x)), Stored h => x = h
  | _, _ => False
  end.

(** The world in a phase, after [k] failed requests. *)
Definition phase_ok (create : nat -> creation) (w0 : world) (g : Z)
    (ph : phase) (k : nat) (w : world) : Prop :=
  match ph with
  | Before =>
      creations w = (creations w0 + k)%nat /\ no_handle g w /\
      dicts w = dicts w0
  | Made h =>
      creations w = S (creations w0 + k) /\ no_handle g w /\
      lock_held g w = true /\
      usable (create (creations w0 + k)%nat) = Some h
  | Stored h =>
      creations w = S (creations w0 + k) /\ get_thread_id g w = Some h /\
      usable (create (creations w0 + k)%nat) = Some h
  end.

(** What holds of [n] coroutines resolving the thread of [g] at every
    point of every interleaving, whatever the provider answers. *)
Record inv (create : nat -> creation) (w0 : world) (g : Z) (n : nat)
    (c : system) : Prop := {
  inv_bots : all_bots (mgr (shared c)) = all_bots (mgr w0);
  inv_len : length (tasks c) = n;
  inv_args : forall j t, tasks c !! j = Some t ->
    group_id t = g /\ thread_id t = None;
  inv_unique : forall i j ti tj,
    tasks c !! i = Some ti -> tasks c !! j = Some tj ->
    holding (pos ti) = true -> holding (pos tj) = true -> i = j;
  inv_lock : lock_held g (shared c) = true <->
    exists i t, tasks c !! i = Some t /\ holding (pos t) = true;
  inv_failed : forall i, (i < refusals c)%nat ->
    usable (create (creations w0 + i)%nat) = None;
  inv_phase : exists ph,
    (forall j t, tasks c !! j = Some t -> allowed ph (pos t)) /\
    phase_ok create w0 g ph (refusals c) (shared c);
}.

(** Progress made so far. *)
Definition rank (p : pc) : nat :=
  match p with
  | AtEntry => 0 | Locked => 1 | Creating => 2
  | Storing _ => 3 | Leaving _ => 4 | Done _ => 5
  end.

Definition progress (c : system) : nat :=
  list_sum (map (fun t => rank (pos t)) (tasks c)).

(** Taking and releasing a free lock leaves a world in which the lock
    exists and is free. *)
Definition settled (g : Z) (w : world) : world :=
  set_lock g false (set_lock g true (get_thread_lock g w)).

(** A manager with two registered bots and no conversation. *)
Definition office : world :=
  {| dicts := ∅;
     mgr := register_bots
              [(py "Regen", init (py "asst_R") 2%positive);
               (py "Degen", init (py "asst_D") 3%positive)]
              {| all_bots := []; threads := 1%positive;
                 user_data := {[ 7%Z := {[ py "name" := py "Ana" ]} ]};
                 thread_locks := ∅ |};
     creations := 0 |}.

(** The same manager once group 7 talks on ["thread_A"]. *)
Definition office_A : world := record_thread 7 (py "thread_A") office.

(** A provider that answers every creation with thread [h], and one that
    is down. *)
Definition gives (h : list N) : nat -> creation := fun _ => Thread (Some h).
Definition refuses : nat -> creation := fun _ => Raises.

(** A provider that fails once and then answers with thread [h]. *)
Definition flaky (h : list N) : nat -> creation :=
  fun k => match k with O => Raises | S _ => Thread (Some h) end.

End ManagerObs.

(* ===================================================================== *)
(** ** More of the code: paragraphs, turns and chats *)
(* ===================================================================== *)

Module Paragraphs.

(** [m.groups()]: the text of every capture group of a match at the head
    of [s]. *)
Definition groups (s : list N) (caps : list (nat * nat)) : list (list N) :=
  map (fun be => take (snd be - fst be) (drop (fst be) s)) caps.

(** [re.split(p, s)]: scan from the left; at a match close the current
    piece, emit the groups and resume after the match, otherwise move one
    character into the current piece [cur]. [skip] characters of the
    current match are still to be dropped. After an empty match the scan
    moves on by one character. *)
Fixpoint split_go (p : list atom) (s : list N) (skip : nat) (cur : list N)
    : list (list N) :=
  match skip with
  | S k => match s with [] => [cur] | _ :: s' => split_go p s' k cur end
  | O =>
      match match_at p s with
      | Some (len, caps) =>
          cur :: groups s caps ++
          match s with
          | [] => [[]]
          | c :: s' =>
              match len with
              | O => split_go p s' O [c]
              | S k => split_go p s' k []
              end
          end
      | None =>
          match s with
          | [] => [cur]
          | c :: s' => split_go p s' O (cur ++ [c])
          end
      end
  end.

Definition split (p : list atom) (s : list N) : list (list N) :=
  split_go p s O [].

(** [m = re.search(p, s)]: the text from the leftmost match on, with the
    length and the groups of the match. *)
Fixpoint search (p : list atom) (s : list N)
    : option (list N * nat * list (nat * nat)) :=
  match match_at p s with
  | Some (len, caps) => Some (s, len, caps)
  | None =>
      match s with
      | [] => None
      | _ :: s' => search p s'
      end
  end.

(** A stretch of a pattern without group marks. *)
Definition flat (q : list atom) : bool :=
  forallb (fun a => match a with Open | Close => false | _ => true end) q.

Definition c_pin : N := 128204.

(** [r'(📌\s+[^:]+\s*:)'] *)
Definition re_pin_title : list atom :=
  [Open; One (Chr c_pin); Plus Space; Plus (NoneOf [c_colon]); Star Space;
   One (Chr c_colon); Close].

(** [r'\n\n+'] *)
Definition re_blank_line : list atom := [One (Chr c_nl); Plus (Chr c_nl)].

(** [enumerate(parts)] *)
Definition enumerate {A} (l : list A) : list (nat * A) := imap pair l.

Definition clean_text_and_split (text : list N) : list (list N) :=
  let parts := split re_pin_title text in
  let processed_parts :=
    foldl (fun processed_parts ip =>
             if (fst ip mod 2 =? 1)%nat
             then processed_parts ++ [snd ip]
             else processed_parts ++ [snd ip])
          [] (enumerate parts) in
  let text := concat processed_parts in
  let paragraphs := split re_blank_line text in
  List.filter (fun p => truthy (strip p)) paragraphs.

End Paragraphs.

Module StoreObs.

Import Handler Manager.

(** Every handle that some dict records is a non-empty string. *)
Definition usable_handles (w : world) : Prop :=
  forall l g h, deref (dicts w) l !! g = Some h -> h <> [].

(** Coroutines about to enter [set_thread_id], one for each pair of a
    group and a hint. *)
Definition entering (calls : list (Z * option (list N))) (w : world) : system :=
  {| tasks := map (fun c => {| group_id := fst c; thread_id := snd c;
                               pos := AtEntry |}) calls;
     shared := w |}.

(** What a coroutine is about to store is usable as well. *)
Definition storing_usable (t : task) : Prop :=
  match pos t with Storing id => id <> [] | _ => True end.

End StoreObs.

Module TurnObs.

Import Handler.

(** The chunks handed to the delivery callback, in order. *)
Definition deliveries (evs : list event) : list (list N) :=
  flat_map (fun ev => match ev with Deliver c => [c] | _ => [] end) evs.

(** The calls made to the provider, in order. *)
Definition calls (evs : list event) : list call :=
  flat_map (fun ev => match ev with Provider c => [c] | _ => [] end) evs.

(** What the history records as said by the assistant. *)
Definition said (hist : list (list N * list N)) : list (list N) :=
  map snd (List.filter (fun e => eq_str (fst e) (py "assistant")) hist).

(** A text with something in it and no whitespace at either end. *)
Definition stripped (c : list N) : Prop := c <> [] /\ strip c = c.

(** From [s] to [s'] the events [evs] happened and the entries [more]
    were appended to the history; nothing else changed. *)
Definition steps (s s' : state) (evs : list event)
    (more : list (list N * list N)) : Prop :=
  dicts s' = dicts s /\
  assistant_id (self s') = assistant_id (self s) /\
  threads (self s') = threads (self s) /\
  in_progress_runs (self s') = in_progress_runs (self s) /\
  trace s' = trace s ++ evs /\
  message_history (self s') = message_history (self s) ++ more.

(** The same, but for the in-progress flag of thread [tid]. *)
Definition turn (tid : list N) (s s' : state) (evs : list event)
    (more : list (list N * list N)) : Prop :=
  dicts s' = dicts s /\
  assistant_id (self s') = assistant_id (self s) /\
  threads (self s') = threads (self s) /\
  (forall t, t <> tid ->
     in_progress_runs (self s') !! t = in_progress_runs (self s) !! t) /\
  trace s' = trace s ++ evs /\
  message_history (self s') = message_history (self s) ++ more.

(** All chunks went into the history, or all but the last one, whose
    delivery failed. *)
Definition all_but_failed (E : env) (dels sent : list (list N)) : Prop :=
  dels = sent \/
  exists c tr e, dels = sent ++ [c] /\ send_to_telegram E tr c = Err e.

(** A provider that refuses every message. *)
Definition deaf : env :=
  {| messages_create := fun _ _ _ => Err (Exception (py "503"));
     assistants_retrieve := assistants_retrieve HandlerObs.calm;
     files_create := files_create HandlerObs.calm;
     read_base64 := read_base64 HandlerObs.calm;
     runs_create := runs_create HandlerObs.calm;
     runs_retrieve := runs_retrieve HandlerObs.calm;
     messages_list := messages_list HandlerObs.calm;
     create_and_stream := create_and_stream HandlerObs.calm;
     send_to_telegram := send_to_telegram HandlerObs.calm;
     time := time HandlerObs.calm |}.

End TurnObs.

Module ImageObs.

Import Handler TurnObs.

(** From [s] to [s'] a turn on thread [tid] went by, and whatever the
    history now records as said by the assistant was delivered, in that
    order. *)
Definition heard (tid : list N) (s s' : state) : Prop :=
  exists evs more,
    turn tid s s' evs more /\ sublist (said more) (deliveries evs).

(** Every run of [m] is such a stretch. *)
Definition keeps {A} (tid : list N) (m : M state A) : Prop :=
  forall s o s', m s = (o, s') -> heard tid s s'.

(** A provider that refuses every file. *)
Definition no_upload : env :=
  {| messages_create := messages_create HandlerObs.calm;
     assistants_retrieve := assistants_retrieve HandlerObs.calm;
     files_create := fun _ _ => Err (Exception (py "413"));
     read_base64 := read_base64 HandlerObs.calm;
     runs_create := runs_create HandlerObs.calm;
     runs_retrieve := runs_retrieve HandlerObs.calm;
     messages_list := messages_list HandlerObs.calm;
     create_and_stream := create_and_stream HandlerObs.calm;
     send_to_telegram := send_to_telegram HandlerObs.calm;
     time := time HandlerObs.calm |}.

End ImageObs.

Module Chat.

Import Handler Manager Paragraphs.

(** *** The user-information tag *)

Definition c_rbracket : N := 93.

(** ["[INFORMACIÓN DEL USUARIO: Nombre="] *)
Definition user_info_open : list N := py "[INFORMACIÓN DEL USUARIO: Nombre=".

(** [r'\[INFORMACIÓN DEL USUARIO: Nombre=([^\]]+)\]'] *)
Definition re_user_info : list atom :=
  map (fun c => One (Chr c)) user_info_open ++
  [Open; Plus (NoneOf [c_rbracket]); Close; One (Chr c_rbracket)].

(** [r'\[INFORMACIÓN DEL USUARIO: Nombre=[^\]]+\]\s*\n*'] *)
Definition re_user_info_line : list atom :=
  map (fun c => One (Chr c)) user_info_open ++
  [Plus (NoneOf [c_rbracket]); One (Chr c_rbracket); Star Space; Star (Chr c_nl)].

(** [user_context + message_text] of [process_message] and
    [process_photo]. *)
Definition enhanced_message (user_name message_text : list N) : list N :=
  (user_info_open ++ user_name ++ [c_rbracket; c_nl; c_nl]) ++ message_text.

(** [user_name_match.group(1)], if there is a match. *)
Definition user_name_match (message : list N) : option (list N) :=
  match search re_user_info message with
  | Some (rest, _, caps) => Some (group rest caps 1)
  | None => None
  end.

(** The message without its tags. *)
Definition without_user_info (message : list N) : list N :=
  sub re_user_info_line [] message.

(** *** Delivery to the chat *)

(** [ParseMode.HTML], [ParseMode.MARKDOWN] or no parse mode. *)
Inductive parse_mode := HTML | MARKDOWN | Plain.

(** A call of [bot.send_message]. *)
Record sending := {
  chat_id : Z;
  text : list N;
  mode : parse_mode;
}.

(** [s.replace(old, new, 1)] for a non-empty [old]. *)
Fixpoint replace_first (old new s : list N) : list N :=
  match s with
  | [] => []
  | c :: s' =>
      if starts_with old s then new ++ drop (length old) s
      else c :: replace_first old new s'
  end.

Section WithChat.

(** [str.lower], left open. *)
Variable lower : list N -> list N.

(** What the chat answers to a sending, given what the handler did so far
    and the sendings already made for the chunk at hand. *)
Variable telegram : list event -> list sending -> sending -> result unit.

(** The answers of the provider; the delivery callback of this
    environment is not used. *)
Variable P : env.

(** The answer of the provider to its [k]-th creation request. *)
Variable create : nat -> creation.

(** The greetings of [r'^(hola|buenos días|buenas tardes|buenas noches)']:
    without [re.MULTILINE] the pattern matches at the start only. *)
Definition greetings : list (list N) :=
  [py "hola"; py "buenos días"; py "buenas tardes"; py "buenas noches"].

(** The first lines of the callback: the chunk with the name of the user
    worked in. *)
Definition personalise (user_name chunk : list N) : list N :=
  if truthy user_name then
    if existsb (fun w => starts_with w (lower chunk)) greetings then
      replace_first (py "Hola") (py "Hola " ++ user_name) chunk
    else if contains (py "espero") (lower chunk) && contains (py "!") chunk then
      replace_first (py "!") (py ", " ++ user_name ++ py "!") chunk
    else chunk
  else chunk.

(** [await next_bot.application.bot.send_message(...)] *)
Definition send_message (tr : list event) (a : sending) : M (list sending) unit :=
  fun done =>
    (match telegram tr done a with Ok _ => Val tt | Err e => Raise e end,
     done ++ [a]).

(** The callback [send_to_telegram] of [handle_turn]. The chunk is
    personalised inside the [try] block, by code that does not raise, and
    the handlers use the personalised chunk. *)
Definition send_to_telegram (user_name : list N) (group_id : Z)
    (tr : list event) (chunk : list N) : M (list sending) unit :=
  let chunk := personalise user_name chunk in
  try_except (
    let html_text := prepare_text_for_html chunk in
    send_message tr {| chat_id := group_id; text := html_text; mode := HTML |})
  (fun e =>
    try_except (
      send_message tr {| chat_id := group_id; text := chunk; mode := MARKDOWN |})
    (fun e =>
      try_except (
        send_message tr {| chat_id := group_id; text := chunk; mode := Plain |})
      (fun e => mret tt))).

(** How a call of the callback ends, as the handler sees it. *)
Definition delivered (user_name : list N) (group_id : Z) (tr : list event)
    (chunk : list N) : result unit :=
  match fst (send_to_telegram user_name group_id tr chunk []) with
  | Raise e => Err e
  | _ => Ok tt
  end.

(** The environment of the handler during the turn. *)
Definition turn_env (user_name : list N) (group_id : Z) : env :=
  {| messages_create := messages_create P;
     assistants_retrieve := assistants_retrieve P;
     files_create := files_create P;
     read_base64 := read_base64 P;
     runs_create := runs_create P;
     runs_retrieve := runs_retrieve P;
     messages_list := messages_list P;
     create_and_stream := create_and_stream P;
     Handler.send_to_telegram := delivered user_name group_id;
     time := time P |}.

(** *** [handle_turn] *)

(** The manager and what the handlers did so far. *)
Record session := {
  world_of : world;
  events : list event;
}.

Definition on_world (f : world -> world) : M session unit :=
  fun s => (Val tt, {| world_of := f (world_of s); events := events s |}).

Definition ask {A} (f : world -> A) : M session A :=
  fun s => (Val (f (world_of s)), s).

(** [await self.set_thread_id(group_id, thread_id)], with no other
    coroutine in between; a lock that is held is never released then. *)
Definition resolve (group_id : Z) (thread_id : option (list N))
    : M session (option (list N)) :=
  fun s =>
    match set_thread_id create group_id thread_id (world_of s) with
    | Some (r, w) => (Val r, {| world_of := w; events := events s |})
    | None => (Diverge, s)
    end.

(** [self.get_next_bot()]: the first key of [all_bots]. *)
Definition get_next_bot (w : world) : option (list N) :=
  head (map fst (all_bots (mgr w))).

(** [next_bot.assistant_handler = h] for the first bot. *)
Definition set_first_handler (h : handler) (w : world) : world :=
  {| dicts := dicts w;
     mgr := {| all_bots := match all_bots (mgr w) with
                           | b :: rest => (fst b, h) :: rest
                           | [] => []
                           end;
               threads := threads (mgr w);
               user_data := user_data (mgr w);
               thread_locks := thread_locks (mgr w) |};
     creations := creations w |}.

(** A method of the handler of the first bot, run on the dicts of the
    manager. *)
Definition in_handler (next_bot : list N * handler) (m : M state unit)
    : M session unit :=
  fun s =>
    let '(o, s') := m {| Handler.dicts := dicts (world_of s);
                         self := snd next_bot;
                         trace := events s |} in
    (o, {| world_of := set_first_handler (self s')
                         (with_dicts (Handler.dicts s') (world_of s));
           events := trace s' |}).

Definition handle_turn (group_id : Z) (message : list N) : M session unit :=
  function_body (
    message ← match user_name_match message with
              | Some user_name =>
                  on_world (save_user_info group_id user_name);;
                  mret (without_user_info message)
              | None => mret message
              end;
    hint ← ask (get_thread_id group_id);
    thread_id ← resolve group_id hint;
    match thread_id with
    | None | Some [] => early_return
    | Some thread_id =>
        next_bot_name ← ask get_next_bot;
        match next_bot_name with
        | None | Some [] => early_return
        | Some _ =>
            bots ← ask (fun w => all_bots (mgr w));
            match bots with
            | [] => early_return
            | next_bot :: _ =>
                user_name ← ask (get_user_name group_id);
                known ← ask (fun w =>
                   deref (dicts w) (Handler.threads (snd next_bot)) !! group_id);
                (if bool_decide (known = Some thread_id) then mret tt
                 else on_world (fun w =>
                        with_dicts (dict_set (Handler.threads (snd next_bot))
                                      group_id thread_id (dicts w)) w));;
                try_except (
                  in_handler next_bot
                    (stream_response (turn_env user_name group_id)
                       group_id message))
                (fun e => mret tt)
            end
        end
    end).

End WithChat.

End Chat.

Module ChatObs.

Import Handler Manager Chat.

(** The handle of the group in the dict of the handler that answers. *)
Definition first_handle (g : Z) (w : world) : option (list N) :=
  match all_bots (mgr w) with
  | b :: _ => deref (dicts w) (Handler.threads (snd b)) !! g
  | [] => None
  end.

(** The history of the handler that answers. *)
Definition first_history (w : world) : list (list N * list N) :=
  match all_bots (mgr w) with
  | b :: _ => message_history (snd b)
  | [] => []
  end.

(** The sendings that one call of the callback may make, in order. *)
Definition attempts (lower : list N -> list N) (user_name : list N)
    (g : Z) (chunk : list N) : list sending :=
  let chunk := personalise lower user_name chunk in
  [ {| chat_id := g; text := prepare_text_for_html chunk; mode := HTML |};
    {| chat_id := g; text := chunk; mode := MARKDOWN |};
    {| chat_id := g; text := chunk; mode := Plain |} ].

(** A chat that refuses every sending. *)
Definition refusing : list event -> list sending -> sending -> result unit :=
  fun _ _ _ => Err (Exception (py "400")).

(** A chat that takes plain text only. *)
Definition plain_only : list event -> list sending -> sending -> result unit :=
  fun _ _ a => match mode a with
               | Plain => Ok tt
               | _ => Err (Exception (py "400"))
               end.

(** Lower case for the letters A to Z. *)
Definition ascii_lower (s : list N) : list N :=
  map (fun c => if (65 <=? c) && (c <=? 90) then c + 32 else c) s.

(** A session of the manager [w] in which nothing has happened yet. *)
Definition fresh (w : world) : session := {| world_of := w; events := [] |}.

End ChatObs.

Module Inbox.

Import Handler Manager Chat.

(** A [MessageEntity]. *)
Record entity := {
  entity_type : list N;
  entity_offset : nat;
  entity_length : nat;
}.

(** [update.message], with [from_user.is_bot], [from_user.first_name],
    [text] and [entities]. *)
Record message := {
  from_is_bot : bool;
  first_name : list N;
  message_text : list N;
  entities : list entity;
}.

(** An [Update], with [effective_chat.type] and [effective_chat.id]. *)
Record update := {
  update_message : option message;
  chat_type : list N;
  effective_chat_id : Z;
}.

(** What [process_message] works on: the manager, [context.chat_data],
    the dict [active_conversation] of the manager, which only
    [process_message] reads, and the sendings that the handlers of
    updates make themselves. *)
Record desk := {
  session_of : session;
  chat_data : gmap (list N) (gmap (list N) (list N));
  active_conversation : gmap Z unit;
  outbox : list sending;
}.

Definition with_session (s : session) (d : desk) : desk :=
  {| session_of := s; chat_data := chat_data d;
     active_conversation := active_conversation d; outbox := outbox d |}.

(** [for x in l: body x] *)
Fixpoint for_each {S A} (l : list A) (body : A -> M S unit) : M S unit :=
  match l with
  | [] => mret tt
  | x :: rest => body x;; for_each rest body
  end.

(** The first lines that store the name:
    [if not context.chat_data.get('user_info'): context.chat_data['user_info'] = {}]
    and [context.chat_data['user_info']['name'] = user_name]. *)
Definition remember_name (user_name : list N) : M desk unit :=
  fun d =>
    let user_info :=
      match chat_data d !! py "user_info" with
      | Some info => if bool_decide (info = ∅) then ∅ else info
      | None => ∅
      end in
    (Val tt,
     {| session_of := session_of d;
        chat_data := <[py "user_info" := <[py "name" := user_name]> user_info]>
                       (chat_data d);
        active_conversation := active_conversation d;
        outbox := outbox d |}).

(** ['dict' object is not callable] *)
Definition not_callable : exn := Exception (py "'dict' object is not callable").

Section Handlers.

Variable lower : list N -> list N.
Variable telegram : list event -> list sending -> sending -> result unit.
Variable P : env.
Variable create : nat -> creation.

(** [context.bot.username] *)
Variable username : list N.

(** The test on an entity of the message:
    [entity.type == 'mention' and '@' + context.bot.username in
     message_text[entity.offset:entity.offset + entity.length]]. *)
Definition names_bot (message_text : list N) (entity : entity) : bool :=
  eq_str (entity_type entity) (py "mention") &&
  contains (py "@" ++ username)
    (take (entity_length entity) (drop (entity_offset entity) message_text)).

(** [await context.bot.send_message(...)] *)
Definition post (a : sending) : M desk unit :=
  fun d =>
    (match telegram (events (session_of d)) (outbox d) a with
     | Ok _ => Val tt
     | Err e => Raise e
     end,
     {| session_of := session_of d; chat_data := chat_data d;
        active_conversation := active_conversation d;
        outbox := outbox d ++ [a] |}).

(** A method of the manager. *)
Definition in_manager {A} (m : M session A) : M desk A :=
  fun d => let '(o, s) := m (session_of d) in (o, with_session s d).

Definition process_message (u : update) : M desk unit :=
  function_body (
    match update_message u with
    | None => early_return
    | Some m =>
        if from_is_bot m then early_return
        else
          let user_name := first_name m in
          remember_name user_name;;
          let chat_type := chat_type u in
          let group_id := effective_chat_id u in
          let message_text := message_text m in
          let enhanced_message := enhanced_message user_name message_text in
          if eq_str chat_type (py "private") then
            active ← in_manager (ask (is_active group_id));
            (if negb active then
               known ← (fun d =>
                  (Val (bool_decide (is_Some (active_conversation d !! group_id))), d));
               if known : bool then
                 post {| chat_id := group_id;
                         text := py "Estoy procesando tu solicitud " ++ user_name
                                 ++ py ", un momento por favor...";
                         mode := HTML |}
               else mret tt
             else mret tt);;
            in_manager (handle_turn lower telegram P create group_id enhanced_message)
          else
            (* [if update.message.entities:] skips an empty list, over
               which the loop does nothing *)
            for_each (entities m) (fun entity =>
              if names_bot message_text entity then
                active ← in_manager (ask (is_active group_id));
                (if negb active then
                   (* [self.manager.active_conversation(group_id, self.bot_name)]
                      calls a dict: it raises before the test on its
                      value, and the sending under that test is never
                      reached *)
                   raise not_callable
                 else mret tt);;
                in_manager (handle_turn lower telegram P create group_id
                              enhanced_message)
              else mret tt)
    end).

End Handlers.

End Inbox.

Module InboxObs.

Import Handler Manager ManagerObs Chat ChatObs Inbox.

(** A first message in a private chat. *)
Definition private_hello : update :=
  {| update_message :=
       Some {| from_is_bot := false; first_name := py "Eva";
               message_text := py "hola"; entities := [] |};
     chat_type := py "private";
     effective_chat_id := 7 |}.

(** A first message in a group, which mentions the bot. *)
Definition group_hello : update :=
  {| update_message :=
       Some {| from_is_bot := false; first_name := py "Eva";
               message_text := py "@regen_bot hola";
               entities := [ {| entity_type := py "mention"; entity_offset := 0;
                                entity_length := 10 |} ] |};
     chat_type := py "group";
     effective_chat_id := (-100) |}.

(** The manager with two bots, before any update. *)
Definition front_desk : desk :=
  {| session_of := fresh office; chat_data := ∅; active_conversation := ∅;
     outbox := [] |}.

End InboxObs.

Module Images.

Import Handler Manager Chat.

(** The manager during [handle_image], with the sendings that
    [handle_image] makes itself. *)
Record studio := {
  session_in : session;
  notices : list sending;
}.

(** A method of the manager that sends nothing itself. *)
Definition in_session {A} (m : M session A) : M studio A :=
  fun st =>
    let '(o, s) := m (session_in st) in
    (o, {| session_in := s; notices := notices st |}).

(** [try: m except: h], which catches every exception. *)
Definition try_bare {S A} (m : M S A) (h : M S A) : M S A := fun s =>
  match m s with
  | (Raise _, s') => h s'
  | r => r
  end.

Definition image_problem_notice (e : exn) : list N :=
  py "⚠️ Lo siento, hubo un problema al procesar la imagen. Error: " ++ str_of e.

Section WithChat.

Variable lower : list N -> list N.
Variable telegram : list event -> list sending -> sending -> result unit.
Variable P : env.
Variable create : nat -> creation.

(** The number of polls after which the image turn is taken as still
    running. *)
Variable fuel : nat.

(** [await next_bot.application.bot.send_message(...)] in [handle_image]
    itself. *)
Definition notify (a : sending) : M studio unit :=
  fun st =>
    (match telegram (events (session_in st)) (notices st) a with
     | Ok _ => Val tt
     | Err e => Raise e
     end,
     {| session_in := session_in st; notices := notices st ++ [a] |}).

(** [handle_image]. Its callback is the callback of [handle_turn], which
    the source repeats; [image_base64] is passed on and not used. *)
Definition handle_image (group_id : Z) (message image_path : list N)
    : M studio unit :=
  function_body (
    message ← match user_name_match message with
              | Some user_name =>
                  in_session (on_world (save_user_info group_id user_name));;
                  mret (without_user_info message)
              | None => mret message
              end;
    hint ← in_session (ask (get_thread_id group_id));
    thread_id ← in_session (resolve create group_id hint);
    match thread_id with
    | None | Some [] => early_return
    | Some thread_id =>
        next_bot_name ← in_session (ask get_next_bot);
        match next_bot_name with
        | None | Some [] => early_return
        | Some _ =>
            bots ← in_session (ask (fun w => all_bots (mgr w)));
            match bots with
            | [] => early_return
            | next_bot :: _ =>
                user_name ← in_session (ask (get_user_name group_id));
                known ← in_session (ask (fun w =>
                   deref (dicts w) (Handler.threads (snd next_bot)) !! group_id));
                (if bool_decide (known = Some thread_id) then mret tt
                 else in_session (on_world (fun w =>
                        with_dicts (dict_set (Handler.threads (snd next_bot))
                                      group_id thread_id (dicts w)) w)));;
                try_except (
                  in_session (in_handler next_bot
                    (stream_image_response
                       (turn_env lower telegram P user_name group_id)
                       fuel group_id message image_path)))
                (fun e =>
                  try_bare (
                    notify {| chat_id := group_id;
                              text := image_problem_notice e;
                              mode := HTML |})
                  (mret tt))
            end
        end
    end).

End WithChat.

End Images.

Module ImagesObs.

Import Handler Images.

(** No run of [m] ends with an ordinary exception. *)
Definition contained {S A} (m : M S A) : Prop :=
  forall s msg, fst (m s) <> Raise (Exception msg).

(** No run of [m] ends with an ordinary exception or makes a sending of
    its own. *)
Definition silent {A} (m : M studio A) : Prop :=
  forall st, notices (snd (m st)) = notices st /\
             forall msg, fst (m st) <> Raise (Exception msg).

End ImagesObs.

(* ===================================================================== *)
(** ** Properties of the reformatters *)
(* ===================================================================== *)

Module ReformatFacts.

Import ReObs.

Lemma greedy_some {A} (try : nat -> option A) lo n r :
  greedy try lo n = Some r -> exists k, (lo <= k <= n)%nat /\ try k = Some r.
Proof.
  induction n as [| n IH]; cbn [greedy].
  - destruct (0 <? lo)%nat eqn:Hlo; [discriminate |].
    apply Nat.ltb_ge in Hlo. destruct (try 0%nat) eqn:Ht; [| discriminate].
    intros [= <-]. exists 0%nat. split; [lia | exact Ht].
  - destruct (S n <? lo)%nat eqn:Hlo; [discriminate |].
    apply Nat.ltb_ge in Hlo. destruct (try (S n)) eqn:Ht.
    + intros [= <-]. exists (S n). split; [lia | exact Ht].
    + intros H. destruct (IH H) as (k & Hk & Hr). exists k. split; [lia | exact Hr].
Qed.

Lemma in_drop {A} (x : A) k (l : list A) : In x (drop k l) -> In x l.
Proof.
  intros H. apply list_elem_of_In in H. apply list_elem_of_In.
  rewrite <- (take_drop k l). apply elem_of_app. right. exact H.
Qed.

Lemma in_take {A} (x : A) k (l : list A) : In x (take k l) -> In x l.
Proof.
  intros H. apply list_elem_of_In in H. apply list_elem_of_In.
  rewrite <- (take_drop k l). apply elem_of_app. left. exact H.
Qed.

(** A match contains every character the pattern names. *)
Lemma match_needs d p s pos opened caps r :
  In (One (Chr d)) p ->
  match_here p s pos opened caps = Some r -> In d s.
Proof.
  revert s pos opened caps.
  induction p as [| a p IH]; intros s pos opened caps Hin; [destruct Hin |].
  destruct a as [cs | cs | cs | |]; cbn [match_here].
  - destruct s as [| c s]; [discriminate |].
    destruct (in_cset cs c) eqn:Hc; [| discriminate].
    destruct Hin as [[= ->] | Hin].
    + cbn in Hc. apply N.eqb_eq in Hc. subst. intros _. left. reflexivity.
    + intros H. right. eapply IH; eauto.
  - destruct Hin as [[=] | Hin].
    intros (k & _ & H)%greedy_some. eapply in_drop, IH; eauto.
  - destruct Hin as [[=] | Hin].
    intros (k & _ & H)%greedy_some. eapply in_drop, IH; eauto.
  - destruct Hin as [[=] | Hin]. apply IH, Hin.
  - destruct Hin as [[=] | Hin]. apply IH, Hin.
Qed.

(** Without a match anywhere, [re.sub] returns the text. *)
Lemma sub_absent d p repl s :
  In (One (Chr d)) p -> ~ In d s -> sub p repl s = s.
Proof.
  intros Hp. unfold sub. induction s as [| c s IH]; intros Hd; cbn [sub_go].
  - destruct (match_at p []) as [[len caps] |] eqn:Hm; [| reflexivity].
    exfalso. eapply match_needs in Hm; eauto.
  - destruct (match_at p (c :: s)) as [[len caps] |] eqn:Hm.
    + exfalso. apply Hd. eapply match_needs; eauto.
    + f_equal. apply IH. intros H. apply Hd. right. exact H.
Qed.

Lemma starts_with_head old s c :
  starts_with (c :: old) s = true -> In c s.
Proof.
  destruct s as [| x s]; cbn; [discriminate |].
  intros [Hx _]%andb_prop. apply N.eqb_eq in Hx. subst. left. reflexivity.
Qed.

Lemma replace_absent c old new s :
  ~ In c s -> replace (c :: old) new s = s.
Proof.
  unfold replace. induction s as [| x s IH]; intros Hc; cbn [replace_go]; [reflexivity |].
  destruct (starts_with (c :: old) (x :: s)) eqn:Hs.
  - exfalso. apply Hc. eapply starts_with_head; eauto.
  - f_equal. apply IH. intros H. apply Hc. right. exact H.
Qed.

Lemma expand_chars c repl s caps :
  In c (expand repl s caps) -> In c s \/ In c (literals repl).
Proof.
  induction repl as [| [t | n] repl IH]; cbn [expand literals flat_map].
  - intros [].
  - intros [H | H]%in_app_or; [right; apply in_or_app; auto |].
    destruct (IH H); auto. right. apply in_or_app; auto.
  - intros [H | H]%in_app_or.
    + left. unfold group in H. destruct (caps !! Nat.pred n) as [[b e] |]; [| destruct H].
      eapply in_drop, in_take, H.
    + destruct (IH H); auto.
Qed.

(** [re.sub] adds no character beyond the literals of the template. *)
Lemma sub_go_chars c p repl s k :
  In c (sub_go p repl s k) -> In c s \/ In c (literals repl).
Proof.
  revert k. induction s as [| x s IH]; intros k.
  - destruct k; cbn [sub_go]; [| intros []].
    destruct (match_at p []) as [[len caps] |]; [| intros []].
    rewrite app_nil_r. apply expand_chars.
  - destruct k as [| k]; cbn [sub_go].
    + destruct (match_at p (x :: s)) as [[len caps] |].
      * intros [H | H]%in_app_or; [apply expand_chars in H; exact H |].
        destruct len as [| len].
        -- destruct H as [<- | H]; [left; left; reflexivity |].
           destruct (IH _ H); auto. left. right. assumption.
        -- destruct (IH _ H); auto. left. right. assumption.
      * intros [<- | H]; [left; left; reflexivity |].
        destruct (IH _ H); auto. left. right. assumption.
    + intros H. destruct (IH _ H); auto. left. right. assumption.
Qed.

Lemma greedy_none {A} (try : nat -> option A) lo n :
  (forall k, (k <= n)%nat -> try k = None) -> greedy try lo n = None.
Proof.
  induction n as [| n IH]; intros H; cbn [greedy].
  - destruct (0 <? lo)%nat; [reflexivity |]. rewrite (H 0%nat); [reflexivity | lia].
  - destruct (S n <? lo)%nat; [reflexivity |]. rewrite (H (S n)); [| lia].
    apply IH. intros k Hk. apply H. lia.
Qed.

(** When no shorter repetition lets the rest match, the greedy choice is
    the longest one. *)
Lemma greedy_longest {A} (try : nat -> option A) lo n :
  (forall k, (k < n)%nat -> try k = None) ->
  greedy try lo n = if (n <? lo)%nat then None else try n.
Proof.
  intros H. destruct n as [| n]; cbn [greedy].
  - destruct (0 <? lo)%nat; [reflexivity |]. destruct (try 0%nat); reflexivity.
  - destruct (S n <? lo)%nat; [reflexivity |].
    destruct (try (S n)); [reflexivity |].
    apply greedy_none. intros k Hk. apply H. lia.
Qed.

Lemma sub_go_skip p repl s k :
  (k <= length s)%nat -> sub_go p repl s k = sub_go p repl (drop k s) O.
Proof.
  revert k. induction s as [| c s IH]; intros [| k] Hk; try reflexivity.
  - cbn [length] in Hk. lia.
  - cbn [sub_go drop]. apply IH. cbn [length] in Hk. lia.
Qed.

Lemma span_le cs s : (span cs s <= length s)%nat.
Proof.
  induction s as [| c s IH]; cbn [span length]; [lia |].
  destruct (in_cset cs c); lia.
Qed.

(** [span] splits a text into its longest prefix inside the class and a
    rest that starts outside of it. *)
Lemma span_take cs s : Forall (fun c => in_cset cs c = true) (take (span cs s) s).
Proof.
  induction s as [| c s IH]; cbn [span]; [constructor |].
  destruct (in_cset cs c) eqn:Hc; cbn [take]; constructor; auto.
Qed.

Lemma span_drop cs s :
  match drop (span cs s) s with
  | c :: _ => in_cset cs c = false
  | [] => True
  end.
Proof.
  induction s as [| c s IH]; cbn [span]; [exact I |].
  destruct (in_cset cs c) eqn:Hc; cbn [drop]; auto.
Qed.

Lemma span_below cs s k :
  (k < span cs s)%nat -> exists c rest, drop k s = c :: rest /\ in_cset cs c = true.
Proof.
  revert k. induction s as [| c s IH]; intros k; cbn [span]; [lia |].
  destruct (in_cset cs c) eqn:Hc; [| lia].
  destruct k as [| k]; intros Hk.
  - exists c, s. split; [reflexivity | exact Hc].
  - cbn [drop]. apply IH. lia.
Qed.

Lemma span_app_run cs run rest :
  Forall (fun c => in_cset cs c = true) run ->
  match rest with c :: _ => in_cset cs c = false | [] => True end ->
  span cs (run ++ rest) = length run.
Proof.
  intros Hrun Hrest. induction Hrun as [| c run Hc _ IH]; cbn [app span length].
  - destruct rest as [| c rest]; [reflexivity |]. cbn [span]. rewrite Hrest. reflexivity.
  - rewrite Hc, IH. reflexivity.
Qed.

Lemma colon_not_space : is_space c_colon = false.
Proof. reflexivity. Qed.

(** A match of [\s+:] is the whole run of whitespace and the colon after
    it. *)
Lemma ws_colon_match s :
  match_at re_ws_colon s =
  match span Space s, drop (span Space s) s with
  | S n, c :: _ => if c_colon =? c then Some (S (S n), []) else None
  | _, _ => None
  end.
Proof.
  unfold match_at, re_ws_colon. cbn [match_here].
  rewrite greedy_longest.
  - destruct (span Space s) as [| n] eqn:Hn; [reflexivity |].
    cbn [Nat.ltb Nat.leb]. destruct (drop (S n) s) as [| c rest]; [reflexivity |].
    cbn [in_cset]. destruct (c_colon =? c); reflexivity.
  - intros k Hk. destruct (span_below _ _ _ Hk) as (c & rest & -> & Hc).
    cbn [in_cset] in *. destruct (c_colon =? c) eqn:Hcc; [| reflexivity].
    apply N.eqb_eq in Hcc. subst c. rewrite colon_not_space in Hc. discriminate.
Qed.

(** *** Texts at rest

    Each rewrite of the tag-based reformatter as a step function, what it
    keeps of the rewrites before it, and why a text on which none applies
    is a fixed point. *)

Section Settling.

Local Abbreviation f s := (sub_go re_ws_colon [Lit (py ":")] s O) (only parsing).
Local Abbreviation g s := (sub_go re_bullet [Lit (py "• ")] s O) (only parsing).
Local Abbreviation h s := (sub_go re_dash_item [Lit (c_nl :: py "• ")] s O) (only parsing).

Lemma sub_go_nomatch p repl c s :
  match_at p (c :: s) = None ->
  sub_go p repl (c :: s) O = c :: sub_go p repl s O.
Proof. intros H. cbn [sub_go]. rewrite H. reflexivity. Qed.

Lemma sub_go_match p repl c s len caps :
  match_at p (c :: s) = Some (S len, caps) ->
  (len <= length s)%nat ->
  sub_go p repl (c :: s) O = expand repl (c :: s) caps ++ sub_go p repl (drop len s) O.
Proof.
  intros H Hlen. cbn [sub_go]. rewrite H. rewrite sub_go_skip by exact Hlen. reflexivity.
Qed.

Lemma starts_ws_span s : starts_ws s = (0 <? span Space s)%nat.
Proof. destruct s as [| c s]; [reflexivity |]. cbn. destruct (is_space c); reflexivity. Qed.

Lemma after_ws_not_ws s : starts_ws (after_ws s) = false.
Proof.
  unfold after_ws. pose proof (span_drop Space s) as H.
  destruct (drop (span Space s) s); [reflexivity | exact H].
Qed.

Lemma after_ws_cons c s : is_space c = true -> after_ws (c :: s) = after_ws s.
Proof. intros H. unfold after_ws. cbn [span in_cset]. rewrite H. reflexivity. Qed.

Lemma after_ws_id s : starts_ws s = false -> after_ws s = s.
Proof.
  unfold after_ws. destruct s as [| c s]; [reflexivity |]. cbn. intros ->. reflexivity.
Qed.

(** ** Matches *)

Lemma colon_match t :
  match_at re_ws_colon t =
  if starts_ws t && next_is c_colon (after_ws t)
  then Some (S (span Space t), []) else None.
Proof.
  rewrite ws_colon_match, starts_ws_span. unfold after_ws, next_is.
  destruct (span Space t) as [| n] eqn:Hn; [reflexivity |].
  cbn [Nat.ltb Nat.leb andb]. destruct (drop (S n) t) as [| c r]; reflexivity.
Qed.

Lemma greedy_hit {A} (try : nat -> option A) lo n r :
  (lo <= n)%nat -> try n = Some r -> greedy try lo n = Some r.
Proof.
  intros Hlo Hr. destruct n as [| n]; cbn [greedy].
  - destruct (0 <? lo)%nat eqn:H; [apply Nat.ltb_lt in H; lia |]. rewrite Hr. reflexivity.
  - destruct (S n <? lo)%nat eqn:H; [apply Nat.ltb_lt in H; lia |]. rewrite Hr. reflexivity.
Qed.

Lemma greedy_low {A} (try : nat -> option A) lo n :
  (n < lo)%nat -> greedy try lo n = None.
Proof.
  intros H. destruct n; cbn [greedy];
    (destruct (_ <? lo)%nat eqn:Hl; [reflexivity | apply Nat.ltb_ge in Hl; lia]).
Qed.

Lemma bullet_match t :
  match_at re_bullet t =
  match t with
  | c :: rest =>
      if (c_bullet =? c) && starts_ws rest
      then Some (S (span Space rest), []) else None
  | [] => None
  end.
Proof.
  unfold match_at, re_bullet. cbn [match_here]. destruct t as [| c rest]; [reflexivity |].
  cbn [in_cset]. destruct (c_bullet =? c); [| reflexivity]. cbn [andb].
  rewrite starts_ws_span. destruct (span Space rest) as [| n] eqn:Hn.
  - apply greedy_low. lia.
  - cbn [Nat.ltb Nat.leb]. apply greedy_hit; [lia | reflexivity].
Qed.

Lemma dash_not_space : is_space c_dash = false.
Proof. reflexivity. Qed.

Lemma dash_match t :
  match_at re_dash_item t =
  match t with
  | c :: rest =>
      if (c_nl =? c) && dash_item rest
      then Some (S (span Space rest + S (span Space (drop 1 (after_ws rest)))), [])
      else None
  | [] => None
  end.
Proof.
  unfold match_at, re_dash_item. cbn [match_here]. destruct t as [| c rest]; [reflexivity |].
  cbn [in_cset]. destruct (c_nl =? c); [| reflexivity]. cbn [andb].
  rewrite greedy_longest.
  - cbn [Nat.ltb Nat.leb]. unfold dash_item, after_ws.
    destruct (drop (span Space rest) rest) as [| d r]; [reflexivity |].
    cbn [in_cset]. destruct (c_dash =? d); [| reflexivity]. cbn [andb skipn].
    rewrite ?drop_0, starts_ws_span. destruct (span Space r) as [| n] eqn:Hn.
    + apply greedy_low. lia.
    + cbn [Nat.ltb Nat.leb]. apply greedy_hit; [lia |].
      apply f_equal. apply (f_equal (fun x : nat => (x, @nil (nat * nat)))). lia.
  - intros k Hk. destruct (span_below _ _ _ Hk) as (d & r & -> & Hd).
    cbn [in_cset] in *. destruct (c_dash =? d) eqn:Hdd; [| reflexivity].
    apply N.eqb_eq in Hdd. subst d. rewrite dash_not_space in Hd. discriminate.
Qed.

Lemma everywhere_cons P c s :
  everywhere P (c :: s) = true -> P (c :: s) = true /\ everywhere P s = true.
Proof. cbn [everywhere]. apply andb_prop. Qed.

Lemma everywhere_here P s : everywhere P s = true -> P s = true.
Proof. destruct s; cbn [everywhere]; intros [H _]%andb_prop; exact H. Qed.

Lemma everywhere_drop P n s :
  everywhere P s = true -> everywhere P (drop n s) = true.
Proof.
  revert s. induction n as [| n IH]; intros s H; [rewrite drop_0; exact H |].
  destruct s as [| c s]; [exact H |]. cbn [skipn].
  apply IH. apply everywhere_cons in H. apply H.
Qed.

Lemma everywhere_after_ws P s :
  everywhere P s = true -> everywhere P (after_ws s) = true.
Proof. apply everywhere_drop. Qed.

Lemma span_after s : (span Space s <= length s)%nat.
Proof. apply span_le. Qed.

(** ** One step of each rewrite *)

Lemma f_step c s :
  f (c :: s) =
  if is_space c && next_is c_colon (after_ws s)
  then c_colon :: f (drop 1 (after_ws s))
  else c :: f s.
Proof.
  pose proof (colon_match (c :: s)) as Hm. cbn [starts_ws] in Hm.
  destruct (is_space c) eqn:Hc; cbn [andb] in *.
  - rewrite (after_ws_cons c s Hc) in Hm.
    destruct (next_is c_colon (after_ws s)) eqn:Hn.
    + cbn [span in_cset] in Hm. rewrite Hc in Hm.
      assert (Hlen : (S (span Space s) <= length s)%nat).
      { unfold after_ws, next_is in Hn.
        destruct (drop (span Space s) s) eqn:Hd; [discriminate |].
        pose proof (f_equal length Hd) as Hl. rewrite length_drop in Hl.
        cbn [length] in Hl. lia. }
      rewrite (sub_go_match _ _ _ _ _ _ Hm Hlen). cbn [expand app].
      unfold after_ws. rewrite drop_drop, Nat.add_1_r. reflexivity.
    + apply sub_go_nomatch, Hm.
  - apply sub_go_nomatch, Hm.
Qed.

Lemma py_bullet : py "• " = [c_bullet; c_sp].
Proof. reflexivity. Qed.

Lemma g_step c s :
  g (c :: s) =
  if (c_bullet =? c) && starts_ws s
  then c_bullet :: c_sp :: g (after_ws s)
  else c :: g s.
Proof.
  pose proof (bullet_match (c :: s)) as Hm. cbv beta iota in Hm.
  destruct ((c_bullet =? c) && starts_ws s).
  - rewrite (sub_go_match _ _ _ _ _ _ Hm (span_le Space s)).
    cbn [expand]. rewrite py_bullet. reflexivity.
  - apply sub_go_nomatch, Hm.
Qed.

Lemma h_step c s :
  h (c :: s) =
  if (c_nl =? c) && dash_item s
  then c_nl :: c_bullet :: c_sp :: h (after_ws (drop 1 (after_ws s)))
  else c :: h s.
Proof.
  pose proof (dash_match (c :: s)) as Hm. cbv beta iota in Hm.
  destruct ((c_nl =? c) && dash_item s) eqn:Hcond.
  - apply andb_prop in Hcond as [_ Hd]. unfold dash_item in Hd.
    destruct (after_ws s) as [| d r] eqn:Ha; [discriminate |].
    assert (Hlen : (span Space s + S (span Space (drop 1 (d :: r))) <= length s)%nat).
    { cbn [skipn]. rewrite drop_0. unfold after_ws in Ha.
      pose proof (f_equal length Ha) as Hl. rewrite length_drop in Hl.
      cbn [length] in Hl. pose proof (span_le Space r). lia. }
    rewrite (sub_go_match _ _ _ _ _ _ Hm Hlen). cbn [expand]. rewrite py_bullet.
    cbn [app skipn]. rewrite !drop_0. do 3 f_equal.
    apply (f_equal (fun t => sub_go re_dash_item _ t 0%nat)).
    unfold after_ws in *. rewrite <- drop_drop, Ha. reflexivity.
  - apply sub_go_nomatch, Hm.
Qed.

Lemma bullet_not_space : is_space c_bullet = false.
Proof. reflexivity. Qed.

Lemma nl_is_space : is_space c_nl = true.
Proof. reflexivity. Qed.

(** ** What the bullet and dash rewrites keep *)

Lemma g_head s : head (g s) = head s.
Proof.
  destruct s as [| c s]; [reflexivity |]. rewrite g_step.
  destruct ((c_bullet =? c) && starts_ws s) eqn:H; [| reflexivity].
  apply andb_prop in H as [H _]. apply N.eqb_eq in H. subst c. reflexivity.
Qed.

Lemma h_head s : head (h s) = head s.
Proof.
  destruct s as [| c s]; [reflexivity |]. rewrite h_step.
  destruct ((c_nl =? c) && dash_item s) eqn:H; [| reflexivity].
  apply andb_prop in H as [H _]. apply N.eqb_eq in H. subst c. reflexivity.
Qed.

Lemma starts_ws_head s t : head s = head t -> starts_ws s = starts_ws t.
Proof. destruct s, t; cbn; congruence. Qed.

Lemma next_is_head c s t : head s = head t -> next_is c s = next_is c t.
Proof. destruct s, t; cbn; congruence. Qed.

Lemma g_ws c s : is_space c = true -> g (c :: s) = c :: g s.
Proof.
  intros Hc. rewrite g_step. destruct (c_bullet =? c) eqn:H; [| reflexivity].
  apply N.eqb_eq in H. subst c. rewrite bullet_not_space in Hc. discriminate.
Qed.

Lemma after_ws_g s : after_ws (g s) = g (after_ws s).
Proof.
  induction s as [| c s IH]; [reflexivity |].
  destruct (is_space c) eqn:Hc.
  - rewrite (g_ws c s Hc), !after_ws_cons by exact Hc. exact IH.
  - rewrite (after_ws_id (c :: s)) by (cbn; exact Hc).
    apply after_ws_id. rewrite (starts_ws_head _ (c :: s)) by apply g_head.
    cbn. exact Hc.
Qed.

Lemma ok_colon_g c s : ok_colon (c :: g s) = ok_colon (c :: s).
Proof.
  unfold ok_colon. cbn [starts_ws]. destruct (is_space c) eqn:Hc; [| reflexivity].
  cbn [andb]. rewrite !after_ws_cons by exact Hc. rewrite after_ws_g.
  rewrite (next_is_head _ _ (after_ws s)) by apply g_head. reflexivity.
Qed.

Lemma ok_colon_ws_next s :
  starts_ws s = true -> ok_colon s = true -> next_is c_colon (after_ws s) = false.
Proof. unfold ok_colon. intros ->. cbn [andb]. apply negb_true_iff. Qed.

(** The bullet rewrite keeps [ok_colon] and establishes [ok_bullet]. *)
Lemma g_keeps y :
  everywhere ok_colon y = true ->
  everywhere ok_colon (g y) = true /\ everywhere ok_bullet (g y) = true.
Proof.
  remember (length y) as n eqn:Hn. revert y Hn.
  induction n as [n IH] using lt_wf_ind. intros y -> Hy.
  destruct y as [| c s]; [split; reflexivity |].
  apply everywhere_cons in Hy as [Hc Hs].
  rewrite g_step. destruct ((c_bullet =? c) && starts_ws s) eqn:Hcond.
  - apply andb_prop in Hcond as [Hb Hws]. apply N.eqb_eq in Hb. subst c.
    set (r := after_ws s).
    assert (Hr : starts_ws r = false) by apply after_ws_not_ws.
    destruct (IH (length r)) with (y := r) as [IH1 IH2]; [| reflexivity | |].
    { unfold r, after_ws. rewrite length_drop. cbn [length]. lia. }
    { apply everywhere_after_ws, Hs. }
    assert (Hgr : starts_ws (g r) = false).
    { rewrite (starts_ws_head _ r) by apply g_head. exact Hr. }
    split.
    + cbn [everywhere]. rewrite IH1, !andb_true_r.
      apply andb_true_intro. split; [reflexivity |].
      unfold ok_colon. cbn [starts_ws andb].
      change (is_space c_sp) with true. cbn [andb].
      rewrite after_ws_cons by reflexivity.
      rewrite (after_ws_id _ Hgr).
      rewrite (next_is_head _ _ r) by apply g_head.
      apply negb_true_iff. apply ok_colon_ws_next; [exact Hws |].
      apply everywhere_here, Hs.
    + cbn [everywhere]. rewrite IH2, !andb_true_r.
      unfold ok_bullet. change (drop 1 (c_sp :: g r)) with (g r).
      rewrite Hgr. reflexivity.
  - destruct (IH (length s)) with (y := s) as [IH1 IH2];
      [cbn [length]; lia | reflexivity | exact Hs |].
    split.
    + cbn [everywhere]. rewrite IH1, andb_true_r, ok_colon_g. exact Hc.
    + cbn [everywhere]. rewrite IH2, andb_true_r.
      unfold ok_bullet. rewrite (starts_ws_head _ s) by apply g_head.
      rewrite Hcond. reflexivity.
Qed.

Lemma next_colon_f s :
  next_is c_colon (after_ws (f s)) = next_is c_colon (after_ws s).
Proof.
  induction s as [| c s IH]; [reflexivity |].
  rewrite f_step. destruct (is_space c) eqn:Hc; cbn [andb].
  - rewrite (after_ws_cons c s Hc).
    destruct (next_is c_colon (after_ws s)) eqn:Hn.
    + rewrite after_ws_id by reflexivity. reflexivity.
    + rewrite (after_ws_cons c _ Hc). exact IH.
  - rewrite !after_ws_id by (cbn; exact Hc). reflexivity.
Qed.

(** Stripping the whitespace before colons leaves none. *)
Lemma f_settles y : everywhere ok_colon (f y) = true.
Proof.
  remember (length y) as n eqn:Hn. revert y Hn.
  induction n as [n IH] using lt_wf_ind. intros y ->.
  destruct y as [| c s]; [reflexivity |].
  rewrite f_step. destruct (is_space c && next_is c_colon (after_ws s)) eqn:Hcond.
  - cbn [everywhere]. apply andb_true_intro. split; [reflexivity |].
    apply (IH (length (drop 1 (after_ws s)))); [| reflexivity].
    unfold after_ws. rewrite !length_drop. cbn [length]. lia.
  - cbn [everywhere]. apply andb_true_intro. split.
    + unfold ok_colon. cbn [starts_ws]. destruct (is_space c) eqn:Hc; [| reflexivity].
      cbn [andb] in *. rewrite (after_ws_cons c _ Hc), next_colon_f, Hcond. reflexivity.
    + apply (IH (length s)); [cbn [length]; lia | reflexivity].
Qed.

Lemma everywhere_intro P c s :
  P (c :: s) = true -> everywhere P s = true -> everywhere P (c :: s) = true.
Proof. intros H1 H2. cbn [everywhere]. rewrite H1, H2. reflexivity. Qed.

Lemma h_other c s : (c_nl =? c) = false -> h (c :: s) = c :: h s.
Proof. intros H. rewrite h_step, H. reflexivity. Qed.

Lemma next_colon_h s :
  next_is c_colon (after_ws (h s)) = true -> next_is c_colon (after_ws s) = true.
Proof.
  induction s as [| c s IH]; [discriminate |].
  rewrite h_step. destruct (is_space c) eqn:Hc.
  - rewrite (after_ws_cons c s Hc).
    destruct ((c_nl =? c) && dash_item s).
    + rewrite after_ws_cons by reflexivity.
      rewrite after_ws_id by reflexivity. discriminate.
    + rewrite (after_ws_cons c _ Hc). exact IH.
  - destruct (c_nl =? c) eqn:Hn.
    { apply N.eqb_eq in Hn. subst c. rewrite nl_is_space in Hc. discriminate. }
    cbn [andb]. rewrite !after_ws_id by (cbn; exact Hc). trivial.
Qed.

Lemma dash_item_cons c s : is_space c = true -> dash_item (c :: s) = dash_item s.
Proof. intros H. unfold dash_item. rewrite (after_ws_cons c s H). reflexivity. Qed.

Lemma dash_item_h s : dash_item (h s) = true -> dash_item s = true.
Proof.
  induction s as [| c s IH]; [discriminate |].
  rewrite h_step. destruct (is_space c) eqn:Hc.
  - rewrite (dash_item_cons c s Hc).
    destruct ((c_nl =? c) && dash_item s) eqn:Hcond.
    + apply andb_prop in Hcond as [_ Hd]. intros _. exact Hd.
    + rewrite (dash_item_cons c _ Hc). exact IH.
  - destruct (c_nl =? c) eqn:Hn.
    { apply N.eqb_eq in Hn. subst c. rewrite nl_is_space in Hc. discriminate. }
    cbn [andb]. unfold dash_item. rewrite !after_ws_id by (cbn; exact Hc).
    rewrite (starts_ws_head _ s) by apply h_head. trivial.
Qed.

(** The dash rewrite keeps [ok_colon] and [ok_bullet] and establishes
    [ok_dash]. *)
Lemma h_keeps y :
  everywhere ok_colon y = true -> everywhere ok_bullet y = true ->
  everywhere ok_colon (h y) = true /\ everywhere ok_bullet (h y) = true /\
  everywhere ok_dash (h y) = true.
Proof.
  remember (length y) as n eqn:Hn. revert y Hn.
  induction n as [n IH] using lt_wf_ind. intros y -> Hy Hb.
  destruct y as [| c s]; [repeat split; reflexivity |].
  apply everywhere_cons in Hy as [Hc Hs].
  apply everywhere_cons in Hb as [Hbc Hbs].
  rewrite h_step. destruct ((c_nl =? c) && dash_item s) eqn:Hcond.
  - apply andb_prop in Hcond as [Hnl Hd]. apply N.eqb_eq in Hnl. subst c.
    set (r2 := drop 1 (after_ws s)). set (r := after_ws r2).
    assert (Hr2 : starts_ws r2 = true).
    { unfold dash_item in Hd. unfold r2. destruct (after_ws s) as [| d t]; [discriminate |].
      apply andb_prop in Hd as [_ Hd]. cbn [skipn]. rewrite drop_0. exact Hd. }
    assert (Hr : starts_ws r = false) by apply after_ws_not_ws.
    assert (Hs2 : everywhere ok_colon r2 = true).
    { unfold r2. apply everywhere_drop, everywhere_after_ws, Hs. }
    destruct (IH (length r)) with (y := r) as (IH1 & IH2 & IH3); [| reflexivity | | |].
    { unfold r, r2, after_ws. rewrite !length_drop. cbn [length]. lia. }
    { apply everywhere_after_ws, Hs2. }
    { unfold r, r2. apply everywhere_after_ws, everywhere_drop, everywhere_after_ws, Hbs. }
    assert (Hhr : starts_ws (h r) = false).
    { rewrite (starts_ws_head _ r) by apply h_head. exact Hr. }
    repeat split.
    + do 2 (apply everywhere_intro; [reflexivity |]).
      apply everywhere_intro; [| exact IH1].
      unfold ok_colon.
      change (starts_ws (c_sp :: h r)) with true. cbn [andb].
      rewrite after_ws_cons by reflexivity. rewrite (after_ws_id _ Hhr).
      rewrite (next_is_head _ _ r) by apply h_head. unfold r.
      rewrite (ok_colon_ws_next r2 Hr2 (everywhere_here _ _ Hs2)). reflexivity.
    + apply everywhere_intro; [reflexivity |].
      apply everywhere_intro; [| apply everywhere_intro; [reflexivity | exact IH2]].
      unfold ok_bullet. change (drop 1 (c_sp :: h r)) with (h r).
      rewrite Hhr. reflexivity.
    + do 3 (apply everywhere_intro; [reflexivity |]). exact IH3.
  - destruct (IH (length s)) with (y := s) as (IH1 & IH2 & IH3);
      [cbn [length]; lia | reflexivity | exact Hs | exact Hbs |].
    repeat split.
    + cbn [everywhere]. rewrite IH1, andb_true_r.
      unfold ok_colon in *. cbn [starts_ws] in *.
      destruct (is_space c) eqn:Hsp; [| reflexivity]. cbn [andb] in *.
      rewrite (after_ws_cons c s Hsp) in Hc. rewrite (after_ws_cons c _ Hsp).
      destruct (next_is c_colon (after_ws (h s))) eqn:Hn; [| reflexivity].
      apply next_colon_h in Hn. rewrite Hn in Hc. discriminate.
    + cbn [everywhere]. rewrite IH2, andb_true_r.
      unfold ok_bullet in *.
      rewrite (starts_ws_head _ s) by apply h_head.
      destruct ((c_bullet =? c) && starts_ws s) eqn:Hbul; [| reflexivity].
      apply andb_prop in Hbc as [Hsp Hnext].
      destruct s as [| x s1]; [discriminate |].
      cbn [next_is] in Hsp. apply N.eqb_eq in Hsp. subst x.
      rewrite (h_other c_sp s1) by reflexivity.
      change (drop 1 (c_sp :: h s1)) with (h s1).
      change (drop 1 (c_sp :: s1)) with s1 in Hnext.
      rewrite (starts_ws_head _ s1) by apply h_head.
      rewrite Hnext. reflexivity.
    + cbn [everywhere]. rewrite IH3, andb_true_r.
      unfold ok_dash. destruct (c_nl =? c); [| reflexivity]. cbn [andb] in *.
      destruct (dash_item (h s)) eqn:Hd; [| reflexivity].
      apply dash_item_h in Hd. congruence.
Qed.

(** ** Settled texts are fixed points *)

Lemma f_fixed y : everywhere ok_colon y = true -> f y = y.
Proof.
  induction y as [| c s IH]; [reflexivity |].
  intros [Hc Hs]%everywhere_cons. rewrite f_step.
  unfold ok_colon in Hc. cbn [starts_ws] in Hc.
  destruct (is_space c) eqn:Hsp; cbn [andb] in *.
  - rewrite (after_ws_cons c s Hsp) in Hc. apply negb_true_iff in Hc.
    rewrite Hc, (IH Hs). reflexivity.
  - rewrite (IH Hs). reflexivity.
Qed.

Lemma g_fixed y : everywhere ok_bullet y = true -> g y = y.
Proof.
  remember (length y) as n eqn:Hn. revert y Hn.
  induction n as [n IH] using lt_wf_ind. intros y -> Hy.
  destruct y as [| c s]; [reflexivity |].
  apply everywhere_cons in Hy as [Hc Hs]. rewrite g_step.
  unfold ok_bullet in Hc.
  destruct ((c_bullet =? c) && starts_ws s) eqn:Hcond.
  - apply andb_prop in Hcond as [Hb _]. apply N.eqb_eq in Hb. subst c.
    apply andb_prop in Hc as [Hsp Hnext].
    destruct s as [| x s1]; [discriminate |].
    cbn [next_is] in Hsp. apply N.eqb_eq in Hsp. subst x.
    change (drop 1 (c_sp :: s1)) with s1 in Hnext. apply negb_true_iff in Hnext.
    rewrite (after_ws_cons c_sp s1) by reflexivity.
    rewrite (after_ws_id s1 Hnext).
    rewrite (IH (length s1)) with (y := s1); [reflexivity | cbn [length]; lia | reflexivity |].
    apply everywhere_cons in Hs. apply Hs.
  - rewrite (IH (length s)) with (y := s); [reflexivity | cbn [length]; lia | reflexivity | exact Hs].
Qed.

Lemma h_fixed y : everywhere ok_dash y = true -> h y = y.
Proof.
  induction y as [| c s IH]; [reflexivity |].
  intros [Hc Hs]%everywhere_cons. rewrite h_step.
  unfold ok_dash in Hc. apply negb_true_iff in Hc. rewrite Hc, (IH Hs). reflexivity.
Qed.

Lemma after_sound pre s r : after pre s = Some r -> s = pre ++ r.
Proof.
  unfold after. revert s. induction pre as [| p pre IH]; intros s.
  - cbn. rewrite drop_0. congruence.
  - destruct s as [| c s]; cbn [starts_with]; [discriminate |].
    destruct (p =? c) eqn:Hp; [| discriminate]. apply N.eqb_eq in Hp. subst c.
    cbn [andb length skipn app]. intros H. f_equal. apply IH.
    destruct (starts_with pre s); [exact H | discriminate].
Qed.

Lemma starts_with_app pre r : starts_with pre (pre ++ r) = true.
Proof. induction pre as [| p pre IH]; cbn; [reflexivity |]. rewrite N.eqb_refl. exact IH. Qed.

Lemma after_app pre r : after pre (pre ++ r) = Some r.
Proof.
  unfold after. rewrite starts_with_app, drop_app_length. reflexivity.
Qed.

Lemma match_here_word w q s pos opened caps :
  match_here (map (fun c => One (Chr c)) w ++ q) s pos opened caps =
  match after w s with
  | Some s' => match_here q s' (pos + length w) opened caps
  | None => None
  end.
Proof.
  unfold after. revert s pos. induction w as [| c w IH]; intros s pos.
  - cbn [map app starts_with length]. rewrite drop_0, Nat.add_0_r. reflexivity.
  - cbn [map app match_here]. destruct s as [| x s]; [reflexivity |].
    cbn [in_cset starts_with]. destruct (c =? x); [| reflexivity].
    cbn [andb length skipn]. rewrite IH.
    destruct (starts_with w s); [| reflexivity].
    f_equal. lia.
Qed.

(** A repetition followed by a character outside its class takes the
    whole run. *)
Lemma plus_then cs d q s pos opened caps :
  in_cset cs d = false ->
  match_here (Plus cs :: One (Chr d) :: q) s pos opened caps =
  if (span cs s <? 1)%nat then None
  else match_here (One (Chr d) :: q) (drop (span cs s) s) (pos + span cs s) opened caps.
Proof.
  intros Hd. cbn [match_here]. rewrite greedy_longest; [reflexivity |].
  intros k Hk. destruct (span_below _ _ _ Hk) as (x & r & -> & Hx).
  cbn [in_cset]. destruct (d =? x) eqn:E; [| reflexivity].
  apply N.eqb_eq in E. subst x. congruence.
Qed.

Lemma plus_close_then cs d q s pos opened caps :
  in_cset cs d = false ->
  match_here (Plus cs :: Close :: One (Chr d) :: q) s pos opened caps =
  if (span cs s <? 1)%nat then None
  else match_here (Close :: One (Chr d) :: q) (drop (span cs s) s) (pos + span cs s)
         opened caps.
Proof.
  intros Hd. cbn [match_here]. rewrite greedy_longest; [reflexivity |].
  intros k Hk. destruct (span_below _ _ _ Hk) as (x & r & -> & Hx).
  cbn [in_cset]. destruct (d =? x) eqn:E; [| reflexivity].
  apply N.eqb_eq in E. subst x. congruence.
Qed.

Lemma dot_not_digit : is_digit c_dot = false.
Proof. vm_compute. reflexivity. Qed.

Lemma lt_not_space : is_space c_lt = false.
Proof. reflexivity. Qed.

Lemma match_open q s pos opened caps :
  match_here (Open :: q) s pos opened caps = match_here q s pos pos caps.
Proof. reflexivity. Qed.

Lemma match_close q s pos opened caps :
  match_here (Close :: q) s pos opened caps =
  match_here q s pos opened (caps ++ [(opened, pos)]).
Proof. reflexivity. Qed.

Lemma match_one d q s pos opened caps :
  match_here (One (Chr d) :: q) s pos opened caps =
  match s with
  | c :: s' => if d =? c then match_here q s' (S pos) opened caps else None
  | [] => None
  end.
Proof. reflexivity. Qed.

Lemma plus_then_word cs d w q s pos opened caps :
  in_cset cs d = false ->
  match_here (Plus cs :: map (fun c => One (Chr c)) (d :: w) ++ q) s pos opened caps =
  if (span cs s <? 1)%nat then None
  else match after (d :: w) (drop (span cs s) s) with
       | Some s' => match_here q s' (pos + span cs s + length (d :: w)) opened caps
       | None => None
       end.
Proof.
  intros Hd. rewrite <- match_here_word. cbn [map app]. apply plus_then, Hd.
Qed.

Lemma plus_close_then_word cs d w q s pos opened caps :
  in_cset cs d = false ->
  match_here (Plus cs :: Close :: map (fun c => One (Chr c)) (d :: w) ++ q)
    s pos opened caps =
  if (span cs s <? 1)%nat then None
  else match after (d :: w) (drop (span cs s) s) with
       | Some s' => match_here q s' (pos + span cs s + length (d :: w)) opened
                      (caps ++ [(opened, (pos + span cs s)%nat)])
       | None => None
       end.
Proof.
  intros Hd. rewrite <- match_here_word, <- match_close. cbn [map app].
  apply plus_close_then, Hd.
Qed.

Lemma tag_match t :
  match_at re_numbered_tag t =
  match numbered t with
  | Some (D, W, X, rest) =>
      let p := (length D + 1 + length W + 3)%nat in
      Some ((p + length X + 5)%nat, [(0%nat, length D); (p, (p + length X)%nat)])
  | None => None
  end.
Proof.
  unfold match_at, re_numbered_tag, numbered, label. cbn [app].
  rewrite match_open.
  rewrite (plus_close_then Digit c_dot) by exact dot_not_digit.
  rewrite match_close, match_one. unfold word.
  pose proof (span_le Digit t) as Hla.
  destruct (span Digit t) as [| a] eqn:Ha; [reflexivity |]. cbn [Nat.ltb Nat.leb].
  destruct (drop (S a) t) as [| d t1] eqn:Ht1; [reflexivity |].
  destruct (c_dot =? d) eqn:Hd; [| reflexivity]. cbn [andb].
  change (py "<b>") with (c_lt :: [98; 62]).
  rewrite (plus_then_word Space c_lt) by reflexivity.
  rewrite starts_ws_span. unfold after_ws.
  pose proof (span_le Space t1) as Hlb.
  destruct (span Space t1) as [| b] eqn:Hb; [reflexivity |]. cbn [Nat.ltb Nat.leb].
  destruct (after _ (drop (S b) t1)) as [t3 |] eqn:Ht3; [| reflexivity].
  rewrite match_open.
  change (py "</b>:") with (c_lt :: [47; 98; 62; c_colon]).
  rewrite <- (app_nil_r (map _ (c_lt :: [47; 98; 62; c_colon]))).
  rewrite (plus_close_then_word (NoneOf [c_lt]) c_lt) by reflexivity.
  pose proof (span_le (NoneOf [c_lt]) t3) as Hlc.
  destruct (span (NoneOf [c_lt]) t3) as [| c] eqn:Hc; [reflexivity |].
  cbn [Nat.ltb Nat.leb].
  destruct (after _ (drop (S c) t3)) as [rest |] eqn:Hrest; [| reflexivity].
  cbn [match_here length app]. cbv zeta.
  rewrite !length_take. f_equal. f_equal; [lia |].
  f_equal; [f_equal; lia |]. f_equal. f_equal; lia.
Qed.

Lemma take_drop_cons {A} n (l : list A) x r :
  drop n l = x :: r -> l = take n l ++ x :: r.
Proof. intros H. rewrite <- H. symmetry. apply take_drop. Qed.

Lemma label_sound s W X rest :
  label s = Some (W, X, rest) ->
  s = c_dot :: W ++ py "<b>" ++ X ++ py "</b>:" ++ rest /\
  W <> [] /\ Forall (fun c => is_space c = true) W /\
  X <> [] /\ Forall (fun c => in_cset (NoneOf [c_lt]) c = true) X.
Proof.
  unfold label. destruct s as [| d t1]; [discriminate |].
  destruct (c_dot =? d) eqn:Hd; [| discriminate]. apply N.eqb_eq in Hd. subst d.
  cbn [andb]. rewrite starts_ws_span. unfold after_ws.
  pose proof (span_take Space t1) as HW.
  destruct (span Space t1) as [| b] eqn:Hb; [discriminate |]. cbn [Nat.ltb Nat.leb].
  destruct (after _ (drop (S b) t1)) as [t3 |] eqn:Ht3; [| discriminate].
  pose proof (span_take (NoneOf [c_lt]) t3) as HX.
  destruct (span (NoneOf [c_lt]) t3) as [| c] eqn:Hc; [discriminate |].
  destruct (after _ (drop (S c) t3)) as [r |] eqn:Hr; [| discriminate].
  intros [= <- <- <-]. apply after_sound in Ht3, Hr.
  repeat split.
  - f_equal. rewrite <- (take_drop (S b) t1) at 1. f_equal. rewrite Ht3. f_equal.
    rewrite <- (take_drop (S c) t3) at 1. f_equal. exact Hr.
  - destruct t1; [cbn in Hb; discriminate | discriminate].
  - exact HW.
  - destruct t3; [cbn in Hc; discriminate | discriminate].
  - exact HX.
Qed.

Lemma numbered_sound t D W X rest :
  numbered t = Some (D, W, X, rest) ->
  t = D ++ c_dot :: W ++ py "<b>" ++ X ++ py "</b>:" ++ rest /\
  D <> [] /\ Forall (fun c => is_digit c = true) D /\
  W <> [] /\ Forall (fun c => is_space c = true) W /\
  X <> [] /\ Forall (fun c => in_cset (NoneOf [c_lt]) c = true) X.
Proof.
  unfold numbered. pose proof (span_take Digit t) as HD.
  destruct (span Digit t) as [| a] eqn:Ha; [discriminate |].
  destruct (label (drop (S a) t)) as [[[W' X'] r'] |] eqn:Hl; [| discriminate].
  intros [= <- <- <- <-]. apply label_sound in Hl as (Hl & HW & HW' & HX & HX').
  split; [| split; [| split; [exact HD | auto]]].
  - rewrite <- Hl. symmetry. apply take_drop.
  - destruct t; [cbn in Ha; discriminate | discriminate].
Qed.

Local Abbreviation k s :=
  (sub_go re_numbered_tag [Grp 1; Lit (py ". <b>"); Grp 2; Lit (py "</b>:")] s O)
  (only parsing).

Lemma k_nil : k [] = [].
Proof. reflexivity. Qed.

Lemma k_step c s :
  k (c :: s) =
  match numbered (c :: s) with
  | Some (D, W, X, rest) => D ++ py ". <b>" ++ X ++ py "</b>:" ++ k rest
  | None => c :: k s
  end.
Proof.
  pose proof (tag_match (c :: s)) as Hm.
  destruct (numbered (c :: s)) as [[[[D W] X] rest] |] eqn:Hn;
    [| apply sub_go_nomatch, Hm].
  apply numbered_sound in Hn as (Ht & HD & _). cbv zeta in Hm.
  set (p := (length D + 1 + length W + 3)%nat) in *.
  assert (Hlen : length (c :: s) = (p + length X + 5 + length rest)%nat).
  { rewrite Ht. rewrite !length_app. cbn [length]. rewrite !length_app.
    change (length (py "<b>")) with 3%nat. change (length (py "</b>:")) with 5%nat.
    unfold p. lia. }
  replace (p + length X + 5)%nat with (S (p + length X + 4)) in Hm by lia.
  rewrite (sub_go_match _ _ _ _ _ _ Hm) by (cbn [length] in Hlen; lia).
  cbn [expand]. unfold group. cbn [Nat.pred lookup list_lookup].
  rewrite Nat.sub_0_r, drop_0.
  assert (H1 : take (length D) (c :: s) = D) by (rewrite Ht; apply take_app_length).
  assert (H2 : drop p (c :: s) = X ++ py "</b>:" ++ rest).
  { rewrite Ht.
    replace (D ++ c_dot :: W ++ py "<b>" ++ X ++ py "</b>:" ++ rest)
      with ((D ++ c_dot :: W ++ py "<b>") ++ X ++ py "</b>:" ++ rest)
      by (rewrite <- !app_assoc; cbn [app]; rewrite <- app_assoc; reflexivity).
    apply drop_app_length'. rewrite !length_app. cbn [length]. rewrite !length_app.
    change (length (py "<b>")) with 3%nat. unfold p. lia. }
  assert (H3 : drop (p + length X + 4) s = rest).
  { change (drop (S (p + length X + 4)) (c :: s) = rest). rewrite Ht.
    replace (D ++ c_dot :: W ++ py "<b>" ++ X ++ py "</b>:" ++ rest)
      with ((D ++ c_dot :: W ++ py "<b>" ++ X ++ py "</b>:") ++ rest)
      by (rewrite <- !app_assoc; cbn [app]; rewrite <- !app_assoc; reflexivity).
    apply drop_app_length'. rewrite !length_app. cbn [length]. rewrite !length_app.
    change (length (py "<b>")) with 3%nat. change (length (py "</b>:")) with 5%nat.
    unfold p. lia. }
  rewrite H1, H2, H3. replace (p + length X - p)%nat with (length X) by lia.
  rewrite take_app_length, app_nil_r, <- !app_assoc. reflexivity.
Qed.

Lemma space_not_digit c : is_space c = true -> is_digit c = false.
Proof.
  unfold is_space. rewrite !orb_true_iff, !andb_true_iff, !N.leb_le, !N.eqb_eq.
  intros H.
  assert (Hc : In c [9; 10; 11; 12; 13; 28; 29; 30; 31; 32; 133; 160; 5760;
                     8192; 8193; 8194; 8195; 8196; 8197; 8198; 8199; 8200; 8201;
                     8202; 8232; 8233; 8239; 8287; 12288]).
  { cbn [In]. lia. }
  cbn [In] in Hc.
  repeat (destruct Hc as [<- | Hc]; [vm_compute; reflexivity |]). destruct Hc.
Qed.

Lemma digit_not c d : is_digit d = false -> is_digit c = true -> (d =? c) = false.
Proof.
  intros Hd Hc. destruct (d =? c) eqn:E; [| reflexivity].
  apply N.eqb_eq in E. subst. congruence.
Qed.

Lemma digit_not_space c : is_digit c = true -> is_space c = false.
Proof.
  intros H. destruct (is_space c) eqn:E; [| reflexivity].
  apply space_not_digit in E. congruence.
Qed.

Lemma numbered_other c s : is_digit c = false -> numbered (c :: s) = None.
Proof. intros H. unfold numbered. cbn [span in_cset]. rewrite H. reflexivity. Qed.

Lemma k_other c s : is_digit c = false -> k (c :: s) = c :: k s.
Proof. intros H. rewrite k_step, (numbered_other c s H). reflexivity. Qed.

Lemma k_head s : head (k s) = head s.
Proof.
  destruct s as [| c s]; [reflexivity |]. rewrite k_step.
  destruct (numbered (c :: s)) as [[[[D W] X] rest] |] eqn:Hn; [| reflexivity].
  apply numbered_sound in Hn as (Ht & HD & _). rewrite Ht.
  destruct D; [congruence | reflexivity].
Qed.

Lemma k_ws c s : is_space c = true -> k (c :: s) = c :: k s.
Proof. intros H. apply k_other, space_not_digit, H. Qed.

Lemma after_ws_k s : after_ws (k s) = k (after_ws s).
Proof.
  induction s as [| c s IH]; [reflexivity |].
  destruct (is_space c) eqn:Hc.
  - rewrite (k_ws c s Hc), !after_ws_cons by exact Hc. exact IH.
  - rewrite (after_ws_id (c :: s)) by (cbn; exact Hc).
    apply after_ws_id. rewrite (starts_ws_head _ (c :: s)) by apply k_head.
    cbn. exact Hc.
Qed.

Lemma ok_colon_k c s : ok_colon (c :: k s) = ok_colon (c :: s).
Proof.
  unfold ok_colon. cbn [starts_ws]. destruct (is_space c) eqn:Hc; [| reflexivity].
  cbn [andb]. rewrite !after_ws_cons by exact Hc. rewrite after_ws_k.
  rewrite (next_is_head _ _ (after_ws s)) by apply k_head. reflexivity.
Qed.

Lemma ok_bullet_k c s : ok_bullet (c :: s) = true -> ok_bullet (c :: k s) = true.
Proof.
  unfold ok_bullet. rewrite (starts_ws_head (k s) s) by apply k_head.
  destruct ((c_bullet =? c) && starts_ws s) eqn:Hb; [| reflexivity].
  intros [Hsp Hnext]%andb_prop.
  destruct s as [| x s1]; [discriminate |].
  cbn [next_is] in Hsp. apply N.eqb_eq in Hsp. subst x.
  rewrite (k_ws c_sp s1) by reflexivity.
  change (drop 1 (c_sp :: k s1)) with (k s1).
  change (drop 1 (c_sp :: s1)) with s1 in Hnext.
  rewrite (starts_ws_head (k s1) s1) by apply k_head.
  rewrite Hnext. reflexivity.
Qed.

Lemma dash_item_k s : dash_item (k s) = dash_item s.
Proof.
  unfold dash_item. rewrite after_ws_k.
  destruct (after_ws s) as [| x r]; [reflexivity |].
  destruct (c_dash =? x) eqn:Hx.
  - apply N.eqb_eq in Hx. subst x. rewrite (k_other c_dash r) by (vm_compute; reflexivity).
    rewrite N.eqb_refl. cbn [andb]. apply starts_ws_head, k_head.
  - pose proof (k_head (x :: r)) as Hh. destruct (k (x :: r)) as [| x' r']; [reflexivity |].
    cbn in Hh. injection Hh as ->. rewrite Hx. reflexivity.
Qed.

Lemma ok_dash_k c s : ok_dash (c :: k s) = ok_dash (c :: s).
Proof. unfold ok_dash. rewrite dash_item_k. reflexivity. Qed.

(** ** Texts in front of a tag *)

Lemma after_ws_app_lt X A : after_ws (X ++ c_lt :: A) = after_ws X ++ c_lt :: A.
Proof.
  induction X as [| x X IH]; [reflexivity |]. cbn [app].
  destruct (is_space x) eqn:Hx.
  - rewrite !after_ws_cons by exact Hx. exact IH.
  - rewrite !after_ws_id by (cbn; exact Hx). reflexivity.
Qed.

Lemma starts_ws_app_lt X A : starts_ws (X ++ c_lt :: A) = starts_ws X.
Proof. destruct X; reflexivity. Qed.

Lemma ok_colon_app_lt X A : ok_colon (X ++ c_lt :: A) = ok_colon X.
Proof.
  unfold ok_colon. rewrite starts_ws_app_lt, after_ws_app_lt.
  destruct (after_ws X); reflexivity.
Qed.

Lemma ok_bullet_app_lt X A : ok_bullet (X ++ c_lt :: A) = ok_bullet X.
Proof.
  destruct X as [| c rest]; [reflexivity |]. unfold ok_bullet. cbn [app].
  rewrite starts_ws_app_lt.
  destruct ((c_bullet =? c) && starts_ws rest) eqn:Hb; [| reflexivity].
  apply andb_prop in Hb as [_ Hb]. destruct rest as [| x r]; [discriminate |].
  cbn [app next_is skipn]. rewrite !drop_0, starts_ws_app_lt. reflexivity.
Qed.

Lemma dash_item_app_lt X A : dash_item (X ++ c_lt :: A) = dash_item X.
Proof.
  unfold dash_item. rewrite after_ws_app_lt.
  destruct (after_ws X) as [| c r]; [reflexivity |]. cbn [app].
  rewrite starts_ws_app_lt. reflexivity.
Qed.

Lemma ok_dash_app_lt X A : ok_dash (X ++ c_lt :: A) = ok_dash X.
Proof.
  destruct X as [| c rest]; [reflexivity |]. unfold ok_dash. cbn [app].
  rewrite dash_item_app_lt. reflexivity.
Qed.

Lemma everywhere_app P a b : everywhere P (a ++ b) = true -> everywhere P b = true.
Proof.
  intros H. rewrite <- (drop_app_length a b). apply everywhere_drop, H.
Qed.

Lemma everywhere_run (P : list N -> bool) a b :
  Forall (fun c => forall t, P (c :: t) = true) a ->
  everywhere P b = true -> everywhere P (a ++ b) = true.
Proof.
  intros Ha Hb. induction Ha as [| c a Hc _ IH]; [exact Hb |].
  cbn [app]. apply everywhere_intro; [apply Hc | exact IH].
Qed.

Lemma everywhere_blocked (P : list N -> bool) X A B :
  (forall X A, P (X ++ c_lt :: A) = P X) ->
  everywhere P (X ++ c_lt :: A) = true -> everywhere P (c_lt :: B) = true ->
  everywhere P (X ++ c_lt :: B) = true.
Proof.
  intros HP HA HB. induction X as [| x X IH]; [exact HB |].
  cbn [app] in *. apply everywhere_cons in HA as [Hx HA].
  apply everywhere_intro; [| apply IH, HA].
  change (P ((x :: X) ++ c_lt :: B) = true). rewrite HP.
  change (P ((x :: X) ++ c_lt :: A) = true) in Hx. rewrite HP in Hx. exact Hx.
Qed.

(** The part of a rewritten label that the three other properties share. *)
Lemma label_keeps (P : list N -> bool) D W X rest rest' :
  (forall c t, is_space c = false -> (c_bullet =? c) = false -> (c_nl =? c) = false ->
               P (c :: t) = true) ->
  (forall t, P (c_sp :: c_lt :: t) = true) ->
  (forall X A, P (X ++ c_lt :: A) = P X) ->
  Forall (fun c => is_digit c = true) D ->
  everywhere P (D ++ c_dot :: W ++ py "<b>" ++ X ++ py "</b>:" ++ rest) = true ->
  everywhere P rest' = true ->
  everywhere P (D ++ py ". <b>" ++ X ++ py "</b>:" ++ rest') = true.
Proof.
  intros Hplain Hsp Hblock HD Hy Hrest.
  apply everywhere_run.
  { eapply Forall_impl; [exact HD |]. intros c Hc t. apply Hplain.
    - apply digit_not_space, Hc.
    - apply digit_not; [vm_compute; reflexivity | exact Hc].
    - apply digit_not; [vm_compute; reflexivity | exact Hc]. }
  change (py ". <b>") with [c_dot; c_sp; c_lt; 98; 62].
  change (py "</b>:") with (c_lt :: [47; 98; 62; c_colon]) in *.
  cbn [app] in *.
  apply everywhere_intro; [apply Hplain; reflexivity |].
  apply everywhere_intro; [apply Hsp |].
  do 3 (apply everywhere_intro; [apply Hplain; reflexivity |]).
  apply everywhere_app in Hy. apply everywhere_cons in Hy as [_ Hy].
  apply everywhere_app in Hy. apply everywhere_app in Hy.
  apply (everywhere_blocked P X _ _ Hblock Hy).
  do 5 (apply everywhere_intro; [apply Hplain; reflexivity |]). exact Hrest.
Qed.

(** ** Labels before and after the rewrite *)

Lemma k_lit w t r' :
  Forall (fun c => is_digit c = false) w ->
  k t = w ++ r' -> exists r, t = w ++ r /\ r' = k r.
Proof.
  intros Hw. revert t. induction Hw as [| c w Hc _ IH]; intros t Ht.
  - exists t. split; [reflexivity | symmetry; exact Ht].
  - pose proof (k_head t) as Hh. rewrite Ht in Hh. cbn [app head] in Hh.
    destruct t as [| c' t']; [discriminate |]. cbn [head] in Hh. injection Hh as <-.
    rewrite (k_other c t' Hc) in Ht. cbn [app] in Ht. injection Ht as Ht.
    destruct (IH t' Ht) as (r & -> & ->). exists r. split; reflexivity.
Qed.

Lemma digit_not_lt c : is_digit c = true -> in_cset (NoneOf [c_lt]) c = true.
Proof.
  intros H. cbn [in_cset existsb]. rewrite orb_false_r. apply negb_true_iff.
  rewrite N.eqb_sym. apply digit_not; [vm_compute; reflexivity | exact H].
Qed.

(** The rewrite copies a run without [<], unless a label starts in it. *)
Lemma k_run t :
  k t = take (span (NoneOf [c_lt]) t) t ++ k (drop (span (NoneOf [c_lt]) t) t) \/
  exists X1 R, Forall (fun c => in_cset (NoneOf [c_lt]) c = true) X1 /\
               k t = X1 ++ c_lt :: 98 :: R.
Proof.
  induction t as [| x t IH]; [left; reflexivity |].
  cbn [span]. destruct (in_cset (NoneOf [c_lt]) x) eqn:Hx; [| left; reflexivity].
  rewrite k_step.
  destruct (numbered (x :: t)) as [[[[D W] X] rest] |] eqn:Hn.
  - right. apply numbered_sound in Hn as (_ & _ & HD & _).
    exists (D ++ [c_dot; c_sp]), (62 :: X ++ py "</b>:" ++ k rest). split.
    + apply Forall_app. split.
      * eapply Forall_impl; [exact HD |]. intros c. apply digit_not_lt.
      * repeat constructor.
    + rewrite <- app_assoc. reflexivity.
  - destruct IH as [IH | (X1 & R & HX1 & IH)].
    + left. cbn [take drop]. rewrite IH at 1. reflexivity.
    + right. exists (x :: X1), R. split; [constructor; assumption |].
      rewrite IH. reflexivity.
Qed.

Lemma label_k s : label s = None -> label (k s) = None.
Proof.
  destruct s as [| d t1]; [reflexivity |].
  destruct (c_dot =? d) eqn:Hd.
  - apply N.eqb_eq in Hd. subst d. rewrite (k_other c_dot t1 dot_not_digit).
    unfold label. rewrite N.eqb_refl. cbn [andb].
    rewrite (starts_ws_head (k t1) t1) by apply k_head.
    destruct (starts_ws t1); [| reflexivity].
    rewrite after_ws_k. set (t2 := after_ws t1).
    destruct (after (py "<b>") (k t2)) as [t3' |] eqn:Ht3'; [| reflexivity].
    apply after_sound in Ht3'.
    apply k_lit in Ht3' as (t3 & Ht2 & ->); [| repeat constructor].
    rewrite Ht2, after_app.
    set (n := span (NoneOf [c_lt]) t3).
    assert (Hhead : match k (drop n t3) with
                    | c :: _ => in_cset (NoneOf [c_lt]) c = false
                    | [] => True
                    end).
    { pose proof (span_drop (NoneOf [c_lt]) t3) as Hdr. fold n in Hdr.
      pose proof (k_head (drop n t3)) as Hh.
      destruct (k (drop n t3)) as [| c' r']; [exact I |].
      destruct (drop n t3) as [| c r]; [discriminate |].
      cbn in Hh. injection Hh as ->. exact Hdr. }
    destruct (k_run t3) as [Hrun | (X1 & R & HX1 & Hrun)].
    + pose proof (span_le (NoneOf [c_lt]) t3) as Hle.
      assert (Hlen : length (take n t3) = n) by (rewrite length_take; unfold n; lia).
      fold n in Hrun. rewrite Hrun.
      rewrite (span_app_run _ (take n t3) _ (span_take _ t3) Hhead).
      rewrite Hlen, (drop_app_length' _ _ _ (eq_sym Hlen)).
      destruct n as [| n']; [reflexivity |].
      destruct (after (py "</b>:") (k (drop (S n') t3))) as [r' |] eqn:Hr'; [| reflexivity].
      apply after_sound in Hr'.
      apply k_lit in Hr' as (r & Hr & ->); [| repeat constructor].
      rewrite Hr, after_app. discriminate.
    + intros _. rewrite Hrun.
      rewrite (span_app_run _ X1 (c_lt :: 98 :: R) HX1) by reflexivity.
      rewrite drop_app_length. destruct (length X1); reflexivity.
  - intros _. pose proof (k_head (d :: t1)) as Hh.
    destruct (k (d :: t1)) as [| d' r]; [reflexivity |].
    cbn in Hh. injection Hh as ->. unfold label. rewrite Hd. reflexivity.
Qed.

Lemma numbered_cons_label c s :
  is_digit c = true -> label s <> None -> numbered (c :: s) <> None.
Proof.
  intros Hc Hl. destruct (label s) as [[[W X] rest] |] eqn:Hs; [| congruence].
  pose proof (label_sound _ _ _ _ Hs) as (Heq & _).
  unfold numbered. cbn [span in_cset]. rewrite Hc.
  assert (Hsp : span Digit s = 0%nat).
  { rewrite Heq. cbn [span in_cset]. rewrite dot_not_digit. reflexivity. }
  rewrite Hsp. cbn [skipn]. rewrite ?drop_0, Hs. discriminate.
Qed.

Lemma ok_tag_k c s :
  numbered (c :: s) = None -> ok_tag (c :: k s) = true.
Proof.
  intros Hn. unfold ok_tag. destruct (is_digit c) eqn:Hc; [| reflexivity].
  destruct (label s) eqn:Hs.
  - exfalso. apply (numbered_cons_label c s Hc); [rewrite Hs; discriminate | exact Hn].
  - rewrite (label_k s Hs). reflexivity.
Qed.

Lemma ok_tag_other c t : is_digit c = false -> ok_tag (c :: t) = true.
Proof. intros H. unfold ok_tag. rewrite H. reflexivity. Qed.

Lemma label_one_space r W X R :
  label (c_dot :: c_sp :: c_lt :: r) = Some (W, X, R) -> W = [c_sp].
Proof.
  unfold label.
  change ((c_dot =? c_dot) && starts_ws (c_sp :: c_lt :: r)) with true. cbv iota.
  destruct (after _ _) as [t3 |]; [| discriminate].
  destruct (span _ t3); [discriminate |].
  destruct (after _ _); [| discriminate].
  intros [= <- _ _]. reflexivity.
Qed.

Lemma label_blocked X r :
  Forall (fun c => in_cset (NoneOf [c_lt]) c = true) X ->
  label (X ++ c_lt :: 47 :: r) = None.
Proof.
  intros HX. destruct X as [| d t1]; [reflexivity |].
  apply Forall_cons in HX as [_ HX]. unfold label. cbn [app].
  destruct ((c_dot =? d) && starts_ws (t1 ++ c_lt :: 47 :: r)); [| reflexivity].
  rewrite after_ws_app_lt.
  pose proof (Forall_drop _ (span Space t1) _ HX) as Hdr. fold (after_ws t1) in Hdr.
  destruct (after_ws t1) as [| x0 r0]; [reflexivity |].
  apply Forall_cons in Hdr as [Hx0 _]. cbn [in_cset existsb] in Hx0.
  rewrite orb_false_r in Hx0. apply negb_true_iff in Hx0.
  unfold after. change (py "<b>") with (c_lt :: [98; 62]). cbn [app starts_with].
  rewrite N.eqb_sym, Hx0. reflexivity.
Qed.

Lemma tag_digits D r :
  Forall (fun c => is_digit c = true) D ->
  everywhere ok_tag (c_dot :: c_sp :: c_lt :: r) = true ->
  everywhere ok_tag (D ++ c_dot :: c_sp :: c_lt :: r) = true.
Proof.
  intros HD Hr. induction HD as [| d D Hd HD IH]; [exact Hr |].
  cbn [app]. apply everywhere_intro; [| exact IH].
  unfold ok_tag. rewrite Hd. destruct HD as [| d' D' Hd' _].
  - cbn [app]. destruct (label _) as [[[W X] R] |] eqn:E; [| reflexivity].
    apply label_one_space in E. subst W. reflexivity.
  - cbn [app]. unfold label. rewrite (digit_not d' c_dot dot_not_digit Hd'). reflexivity.
Qed.

Lemma tag_run X r :
  Forall (fun c => in_cset (NoneOf [c_lt]) c = true) X ->
  everywhere ok_tag (c_lt :: 47 :: r) = true ->
  everywhere ok_tag (X ++ c_lt :: 47 :: r) = true.
Proof.
  intros HX Hr. induction HX as [| x X Hx HX IH]; [exact Hr |].
  cbn [app]. apply everywhere_intro; [| exact IH].
  unfold ok_tag. rewrite (label_blocked X r HX). destruct (is_digit x); reflexivity.
Qed.

Lemma label_tag D X rest' :
  Forall (fun c => is_digit c = true) D ->
  Forall (fun c => in_cset (NoneOf [c_lt]) c = true) X ->
  everywhere ok_tag rest' = true ->
  everywhere ok_tag (D ++ py ". <b>" ++ X ++ py "</b>:" ++ rest') = true.
Proof.
  intros HD HX Hrest.
  change (py ". <b>") with [c_dot; c_sp; c_lt; 98; 62].
  change (py "</b>:") with (c_lt :: [47; 98; 62; c_colon]). cbn [app].
  apply tag_digits; [exact HD |].
  do 5 (apply everywhere_intro; [apply ok_tag_other; vm_compute; reflexivity |]).
  apply tag_run; [exact HX |].
  do 5 (apply everywhere_intro; [apply ok_tag_other; vm_compute; reflexivity |]).
  exact Hrest.
Qed.

Lemma everywhere_label_rest P D W X rest :
  everywhere P (D ++ c_dot :: W ++ py "<b>" ++ X ++ py "</b>:" ++ rest) = true ->
  everywhere P rest = true.
Proof.
  intros H. apply everywhere_app in H. apply everywhere_cons in H as [_ H].
  do 4 apply everywhere_app in H. exact H.
Qed.

Lemma label_length D W X rest :
  (length rest < length (D ++ c_dot :: W ++ py "<b>" ++ X ++ py "</b>:" ++ rest))%nat.
Proof. rewrite !length_app. cbn [length]. rewrite !length_app. lia. Qed.

(** The label rewrite keeps the three other properties and establishes
    [ok_tag]. *)
Lemma k_keeps y :
  everywhere ok_colon y = true -> everywhere ok_bullet y = true ->
  everywhere ok_dash y = true ->
  everywhere ok_colon (k y) = true /\ everywhere ok_bullet (k y) = true /\
  everywhere ok_dash (k y) = true /\ everywhere ok_tag (k y) = true.
Proof.
  remember (length y) as n eqn:Hn. revert y Hn.
  induction n as [n IH] using lt_wf_ind. intros y -> Hc Hb Hd.
  destruct y as [| c s]; [repeat split; reflexivity |].
  rewrite k_step.
  destruct (numbered (c :: s)) as [[[[D W] X] rest] |] eqn:Hnum.
  - apply numbered_sound in Hnum as (Ht & _ & HD & _ & _ & _ & HX).
    rewrite Ht in Hc, Hb, Hd.
    destruct (IH (length rest)) with (y := rest) as (IH1 & IH2 & IH3 & IH4).
    { rewrite Ht. apply label_length. }
    { reflexivity. }
    { apply (everywhere_label_rest _ _ _ _ _ Hc). }
    { apply (everywhere_label_rest _ _ _ _ _ Hb). }
    { apply (everywhere_label_rest _ _ _ _ _ Hd). }
    repeat split.
    + apply (label_keeps ok_colon D W X rest); auto.
      * intros c0 t H0 _ _. unfold ok_colon. cbn [starts_ws]. rewrite H0. reflexivity.
      * apply ok_colon_app_lt.
    + apply (label_keeps ok_bullet D W X rest); auto.
      * intros c0 t _ H0 _. unfold ok_bullet. rewrite H0. reflexivity.
      * apply ok_bullet_app_lt.
    + apply (label_keeps ok_dash D W X rest); auto.
      * intros c0 t _ _ H0. unfold ok_dash. rewrite H0. reflexivity.
      * apply ok_dash_app_lt.
    + apply label_tag; assumption.
  - apply everywhere_cons in Hc as [Hc Hcs].
    apply everywhere_cons in Hb as [Hb Hbs].
    apply everywhere_cons in Hd as [Hd Hds].
    destruct (IH (length s)) with (y := s) as (IH1 & IH2 & IH3 & IH4);
      [cbn [length]; lia | reflexivity | assumption .. |].
    repeat split; (apply everywhere_intro; [| assumption]).
    + rewrite ok_colon_k. exact Hc.
    + apply ok_bullet_k, Hb.
    + rewrite ok_dash_k. exact Hd.
    + apply ok_tag_k, Hnum.
Qed.

Lemma numbered_ok_tag y D W X rest :
  everywhere ok_tag y = true -> numbered y = Some (D, W, X, rest) -> W = [c_sp].
Proof.
  intros Hy. unfold numbered.
  destruct (span Digit y) as [| a] eqn:Ha; [discriminate |].
  destruct (label (drop (S a) y)) as [[[W' X'] r'] |] eqn:Hl; [| discriminate].
  intros [= _ <- _ _].
  destruct (span_below Digit y a) as (d & r & Hdr & Hd); [lia |].
  assert (Hr : drop (S a) y = r).
  { change (S a) with (1 + a)%nat. rewrite Nat.add_comm, <- drop_drop, Hdr. reflexivity. }
  pose proof (everywhere_here _ _ (everywhere_drop _ a _ Hy)) as Hok.
  rewrite Hdr in Hok. unfold ok_tag in Hok. cbn [in_cset] in Hd.
  rewrite Hd, <- Hr, Hl in Hok. apply bool_decide_eq_true in Hok. exact Hok.
Qed.

Lemma k_fixed y : everywhere ok_tag y = true -> k y = y.
Proof.
  remember (length y) as n eqn:Hn. revert y Hn.
  induction n as [n IH] using lt_wf_ind. intros y -> Hy.
  destruct y as [| c s]; [reflexivity |].
  rewrite k_step.
  destruct (numbered (c :: s)) as [[[[D W] X] rest] |] eqn:Hnum.
  - pose proof (numbered_ok_tag _ _ _ _ _ Hy Hnum) as ->.
    apply numbered_sound in Hnum as (Ht & _).
    rewrite Ht in Hy.
    rewrite (IH (length rest)) with (y := rest);
      [| rewrite Ht; apply label_length | reflexivity
       | apply (everywhere_label_rest _ _ _ _ _ Hy)].
    rewrite Ht. reflexivity.
  - apply everywhere_cons in Hy as [_ Hy].
    rewrite (IH (length s)) with (y := s);
      [reflexivity | cbn [length]; lia | reflexivity | exact Hy].
Qed.

End Settling.

Lemma unmarked_spec text c :
  unmarked text = true -> In c markers -> ~ In c text.
Proof.
  unfold unmarked. rewrite forallb_forall. intros H Hc Hin.
  specialize (H c Hin). apply negb_true_iff in H.
  assert (existsb (N.eqb c) markers = true); [| congruence].
  apply existsb_exists. exists c. split; [exact Hc | apply N.eqb_refl].
Qed.

Lemma unmarked_sub p repl text :
  unmarked (literals repl) = true ->
  unmarked text = true -> unmarked (sub p repl text) = true.
Proof.
  intros Hl H. unfold unmarked in *. rewrite forallb_forall in *.
  intros c Hin. unfold sub in Hin. apply sub_go_chars in Hin as [Hin | Hin]; auto.
Qed.

(** Without markers only the four rewrites of colons, bullets, dash items
    and numbered labels can apply. *)
Lemma prepare_unmarked text :
  unmarked text = true ->
  prepare_text_for_html text =
  sub re_bullet [Lit (py "• ")]
    (sub re_numbered_tag [Grp 1; Lit (py ". <b>"); Grp 2; Lit (py "</b>:")]
      (sub re_dash_item [Lit (c_nl :: py "• ")]
        (sub re_bullet [Lit (py "• ")] (sub re_ws_colon [Lit (py ":")] text)))).
Proof.
  intros H. unfold prepare_text_for_html.
  pose proof (fun c => unmarked_spec text c H) as Hx.
  rewrite (sub_absent c_hash re_heading_mark);
    [| vm_compute; tauto | apply Hx; vm_compute; tauto].
  rewrite (sub_absent c_star re_bold_spaced);
    [| vm_compute; tauto | apply Hx; vm_compute; tauto].
  rewrite (sub_absent c_star re_bold);
    [| vm_compute; tauto | apply Hx; vm_compute; tauto].
  set (y := sub re_bullet _ (sub re_numbered_tag _ _)).
  assert (Hy : unmarked y = true).
  { unfold y. repeat (apply unmarked_sub; [reflexivity |]). exact H. }
  assert (Hamp : ~ In c_amp y) by (apply (unmarked_spec y); [exact Hy | vm_compute; tauto]).
  change (py "&lt;b&gt;") with (c_amp :: py "lt;b&gt;").
  change (py "&lt;/b&gt;") with (c_amp :: py "lt;/b&gt;").
  change (py "&lt;i&gt;") with (c_amp :: py "lt;i&gt;").
  change (py "&lt;/i&gt;") with (c_amp :: py "lt;/i&gt;").
  rewrite (replace_absent c_amp _ _ y Hamp).
  rewrite (replace_absent c_amp _ _ y Hamp).
  rewrite (replace_absent c_amp _ _ y Hamp).
  rewrite (replace_absent c_amp _ _ y Hamp). reflexivity.
Qed.

Lemma unmarked_prepare text :
  unmarked text = true -> unmarked (prepare_text_for_html text) = true.
Proof.
  intros H. rewrite (prepare_unmarked text H).
  repeat (apply unmarked_sub; [reflexivity |]). exact H.
Qed.

Lemma at_rest_fixed y :
  unmarked y = true -> at_rest y = true -> prepare_text_for_html y = y.
Proof.
  intros Hu Hs. unfold at_rest in Hs.
  apply andb_prop in Hs as [Hs Ht]. apply andb_prop in Hs as [Hs Hd].
  apply andb_prop in Hs as [Hc Hb].
  rewrite (prepare_unmarked y Hu). unfold sub.
  rewrite (f_fixed y Hc), (g_fixed y Hb), (h_fixed y Hd), (k_fixed y Ht).
  apply (g_fixed y Hb).
Qed.

Lemma prepare_comes_to_rest text :
  unmarked text = true -> at_rest (prepare_text_for_html text) = true.
Proof.
  intros H. rewrite (prepare_unmarked text H). unfold sub.
  pose proof (f_settles text) as Hc3.
  destruct (g_keeps _ Hc3) as [Hc4 Hb4].
  destruct (h_keeps _ Hc4 Hb4) as (Hc5 & Hb5 & Hd5).
  destruct (k_keeps _ Hc5 Hb5 Hd5) as (Hc6 & Hb6 & Hd6 & Ht6).
  rewrite (g_fixed _ Hb6). unfold at_rest.
  rewrite Hc6, Hb6, Hd6, Ht6. reflexivity.
Qed.

Lemma prepare_idempotent_unmarked (text : list N) :
  unmarked text = true ->
  prepare_text_for_html (prepare_text_for_html text) = prepare_text_for_html text.
Proof.
  intros H. apply at_rest_fixed; [apply unmarked_prepare, H | apply prepare_comes_to_rest, H].
Qed.


Lemma self_replacing_sub_go p repl text k :
  self_replacing p repl text = true -> sub_go p repl text k = drop k text.
Proof.
  revert k. induction text as [| c text IH]; intros k; cbn [self_replacing].
  - intros [Hm _]%andb_prop. destruct k; cbn [sub_go]; [| reflexivity].
    destruct (match_at p []) as [[len caps] |]; [| reflexivity].
    apply bool_decide_eq_true in Hm. rewrite Hm, app_nil_r.
    destruct len; reflexivity.
  - intros [Hm Hrest]%andb_prop. destruct k as [| k]; cbn [sub_go skipn].
    + destruct (match_at p (c :: text)) as [[len caps] |].
      * apply bool_decide_eq_true in Hm. rewrite Hm.
        destruct len as [| len].
        -- cbn [take firstn app]. rewrite (IH 0%nat Hrest). reflexivity.
        -- rewrite (IH len Hrest). apply (take_drop (S len) (c :: text)).
      * rewrite (IH 0%nat Hrest). reflexivity.
    + apply IH, Hrest.
Qed.

Lemma self_replacing_sub p repl text :
  self_replacing p repl text = true -> sub p repl text = text.
Proof. intros H. unfold sub. apply (self_replacing_sub_go p repl text 0 H). Qed.

Lemma replace_go_absent old new text :
  contains old text = false -> replace_go old new text O = text.
Proof.
  induction text as [| c text IH]; cbn [contains replace_go]; [reflexivity |].
  intros [Hs Hc]%orb_false_elim. rewrite Hs, (IH Hc). reflexivity.
Qed.

(** A normalized text is a fixed point of the reformatter. *)
Lemma normalized_fixed text :
  normalized text = true -> prepare_text_for_html text = text.
Proof.
  unfold normalized, prepare_text_for_html.
  intros H.
  repeat match type of H with
         | (_ && _ = true) => apply andb_prop in H; destruct H as [H ?]
         end.
  repeat match goal with
         | Hn : negb _ = true |- _ => apply negb_true_iff in Hn
         end.
  rewrite (self_replacing_sub re_heading_mark _ text) by assumption.
  rewrite (self_replacing_sub re_bold_spaced _ text) by assumption.
  rewrite (self_replacing_sub re_bold _ text) by assumption.
  rewrite (self_replacing_sub re_ws_colon _ text) by assumption.
  rewrite (self_replacing_sub re_bullet _ text) by assumption.
  rewrite (self_replacing_sub re_dash_item _ text) by assumption.
  rewrite (self_replacing_sub re_numbered_tag _ text) by assumption.
  rewrite (self_replacing_sub re_bullet _ text) by assumption.
  unfold replace.
  rewrite (replace_go_absent (py "&lt;b&gt;") _ text) by assumption.
  rewrite (replace_go_absent (py "&lt;/b&gt;") _ text) by assumption.
  rewrite (replace_go_absent (py "&lt;i&gt;") _ text) by assumption.
  rewrite (replace_go_absent (py "&lt;/i&gt;") _ text) by assumption.
  reflexivity.
Qed.

(** Where a second pass does change nothing: on an input without the
    characters [#], [*] and [&] (bullets, dash items, tags and numbered
    labels are allowed: the first pass brings them to rest), and when the
    first pass left a normalized text, one that none of the rewrites
    changes any more. *)
Lemma prepare_idempotent_once_normalized (text : list N) :
  unmarked text = true \/ normalized (prepare_text_for_html text) = true ->
  prepare_text_for_html (prepare_text_for_html text) = prepare_text_for_html text.
Proof.
  intros [H | H].
  - apply prepare_idempotent_unmarked, H.
  - apply normalized_fixed, H.
Qed.

Lemma prepare_idempotent_once_normalized_witness :
  unmarked (py "Lista  :
-   uno
1.   <b>Nota</b>: ok •   fin") = true /\
  prepare_text_for_html (py "Lista  :
-   uno
1.   <b>Nota</b>: ok •   fin") = py "Lista:
• uno
1. <b>Nota</b>: ok • fin" /\
  prepare_text_for_html (prepare_text_for_html (py "Lista  :
-   uno
1.   <b>Nota</b>: ok •   fin"))
    = prepare_text_for_html (py "Lista  :
-   uno
1.   <b>Nota</b>: ok •   fin") /\
  prepare_text_for_html sample_reply = py "Plan
• <b>uno</b>: comer
• <b>dos</b>: dormir
1. <b>Nota</b>: <i>ojo</i>" /\
  normalized (prepare_text_for_html sample_reply) = true /\
  prepare_text_for_html (prepare_text_for_html sample_reply)
    = prepare_text_for_html sample_reply.
Proof.
  split; [vm_compute; reflexivity |].
  split; [vm_compute; reflexivity |].
  split.
  { apply (prepare_idempotent_once_normalized (py "Lista  :
-   uno
1.   <b>Nota</b>: ok •   fin")).
    left. vm_compute. reflexivity. }
  split; [vm_compute; reflexivity |].
  split; [vm_compute; reflexivity |].
  apply (prepare_idempotent_once_normalized sample_reply).
  right. vm_compute. reflexivity.
Defined.

(** C6. The HTML reformatter is not idempotent, because it leaves
    markers that its own steps are there to remove: every step is one
    pass from the left. Removing the heading marker inside ["#### ## x"]
    leaves the heading marker ["### "], which a second call removes;
    turning the inner pair of ["****a****"] into a tag leaves a pair of
    ["**"] around it, which a second call turns into a second tag; and
    the tags are unescaped after the numbered labels are spaced, so the
    label of ["1.   &lt;b&gt;N&lt;/b&gt;:"] is spaced by a second call
    only. *)
Theorem prepare_not_idempotent :
  prepare_text_for_html (py "#### ## x") = py "### x" /\
  prepare_text_for_html (py "### x") = py "x" /\
  prepare_text_for_html (py "****a****") = py "**<b>a</b>**" /\
  prepare_text_for_html (py "**<b>a</b>**") = py "<b><b>a</b></b>" /\
  prepare_text_for_html (py "1.   &lt;b&gt;N&lt;/b&gt;:") = py "1.   <b>N</b>:" /\
  prepare_text_for_html (py "1.   <b>N</b>:") = py "1. <b>N</b>:".
Proof. repeat split; vm_compute; reflexivity. Qed.

(** With one to four spaces at each place around the markers (none to
    three before the colon), the numbered label comes out the same. *)
Lemma numbered_label_variants :
  forallb (fun a => forallb (fun b => forallb (fun c => forallb (fun d =>
    eq_str (process_markdown (numbered_label (S a) (S b) (S c) d))
           (py "1. *Label*:"))
    (seq 0 4)) (seq 0 4)) (seq 0 4)) (seq 0 4) = true.
Proof. vm_compute. reflexivity. Qed.

(** With spaces on one side of the label only, the rule for spaced
    labels does not apply and the space stays. *)
Lemma numbered_label_one_sided :
  process_markdown (py "1. **  Label**:") = py "1. * Label*:" /\
  process_markdown (py "1. **Label  **:") = py "1. *Label *:".
Proof. split; vm_compute; reflexivity. Qed.

(** C7. The three documented rewrites hold. A run of three or four
    asterisks, though, leaves the doubled marker that the last step is
    there to remove: [str.replace] makes one pass from the left. *)
Theorem process_markdown_examples :
  process_markdown (py "### Title") = py "*Title*" /\
  process_markdown (py "**bold**") = py "*bold*" /\
  process_markdown (py "1.  **  Label  **  :") = py "1. *Label*:" /\
  process_markdown (py "1. ** Label ** :") = py "1. *Label*:" /\
  process_markdown (py "***") = py "**" /\
  process_markdown (py "a **** b") = py "a ** b".
Proof. repeat split; vm_compute; reflexivity. Qed.

End ReformatFacts.

(* ===================================================================== *)
(** ** Properties of the assistant handler *)
(* ===================================================================== *)

Module HandlerFacts.

Import Handler HandlerObs.

Lemma returns_ret {S A} (a : A) : returns (mret a : M S A).
Proof. intros s. discriminate. Qed.

Lemma returns_bind {S A B} (m : M S A) (k : A -> M S B) :
  returns m -> (forall a, returns (k a)) -> returns (m ≫= k).
Proof.
  intros Hm Hk s. unfold mbind, M_bind. specialize (Hm s).
  destruct (m s) as [[a | | e |] s1]; cbn in *; try discriminate; try congruence; try apply Hk.
Qed.

Lemma returns_early {S A} : returns (early_return : M S A).
Proof. intros s. discriminate. Qed.

Lemma returns_raise {S A} e : returns (raise e : M S A).
Proof. intros s. discriminate. Qed.

Lemma returns_try_except {S A} (m : M S A) h :
  returns m -> (forall e, returns (h e)) -> returns (try_except m h).
Proof.
  intros Hm Hh s. unfold try_except. specialize (Hm s).
  destruct (m s) as [[a | | [msg | msg] |] s1]; cbn in *; try discriminate; try congruence; try apply Hh.
Qed.

Lemma returns_try_finally {S A} (m : M S A) fin :
  returns m -> returns fin -> returns (try_finally m fin).
Proof.
  intros Hm Hf s. unfold try_finally. specialize (Hm s).
  destruct (m s) as [[a | | e |] s1]; cbn in *; try congruence;
    specialize (Hf s1); destruct (fin s1) as [[[] | | e' |] s2]; cbn in *;
    try discriminate; try congruence.
Qed.

Lemma returns_function_body {S} (m : M S unit) :
  returns m -> returns (function_body m).
Proof.
  intros Hm s. unfold function_body. specialize (Hm s).
  destruct (m s) as [[a | | e |] s1]; cbn in *; try discriminate; try congruence.
Qed.

Section Facts.

Variable E : env.

Lemma returns_lift {A} (r : result A) (f : state -> state) :
  returns (fun s => lift r (f s)).
Proof. intros s. destruct r; discriminate. Qed.

Lemma returns_provider {A} c (answer : list event -> result A) :
  returns (provider c answer).
Proof. intros s. unfold provider, lift. destruct (answer _); discriminate. Qed.

Lemma returns_deliver chunk : returns (deliver E chunk).
Proof. intros s. unfold deliver, lift. destruct (send_to_telegram _ _ _); discriminate. Qed.

Lemma returns_history r c : returns (history_append r c).
Proof. intros s. discriminate. Qed.

Lemma returns_flag t b : returns (in_progress_set t b).
Proof. intros s. discriminate. Qed.

Ltac returns_step :=
  first
    [ apply returns_ret | apply returns_early | apply returns_raise
    | apply returns_provider | apply returns_deliver | apply returns_history
    | apply returns_flag
    | apply returns_bind | apply returns_try_except | apply returns_try_finally
    | apply returns_function_body
    | match goal with
      | |- forall _, _ => intro
      | |- returns (if ?b then _ else _) => destruct b
      | |- returns (match ?x with _ => _ end) => destruct x
      end ].

Lemma returns_stream_deltas deltas failure buffer acc :
  returns (stream_deltas E deltas failure buffer acc).
Proof.
  revert buffer acc.
  induction deltas as [| d rest IH]; intros buffer acc; cbn [stream_deltas].
  - destruct failure; [apply returns_raise | apply returns_ret].
  - destruct (contains _ _); [| apply IH].
    apply returns_bind; [| intros; apply IH].
    repeat returns_step.
Qed.

Lemma returns_stream_response g m : returns (stream_response E g m).
Proof.
  unfold stream_response.
  apply returns_function_body, returns_bind; [intros s; discriminate |].
  intros [[| c tid] |]; try apply returns_early.
  apply returns_bind; [intros s; discriminate |].
  intros [|]; [repeat returns_step |].
  apply returns_try_finally; [| apply returns_flag].
  apply returns_bind; [apply returns_flag | intros _].
  apply returns_bind; [repeat returns_step | intros _].
  apply returns_try_except; [| repeat returns_step].
  apply returns_bind; [intros s; discriminate | intros a].
  apply returns_bind; [apply returns_provider | intros st].
  apply returns_bind; [apply returns_stream_deltas | intros b].
  repeat returns_step.
Qed.

Lemma returns_deliver_all texts : returns (deliver_all E texts).
Proof.
  induction texts as [| t rest IH]; cbn [deliver_all]; [apply returns_ret |].
  repeat returns_step. apply IH.
Qed.

Lemma finally_clears {A} (m : M state A) (t : list N) s o s' :
  try_finally m (in_progress_set t false) s = (o, s') ->
  o = Diverge \/ in_progress_runs (self s') !! t = Some false.
Proof.
  unfold try_finally, in_progress_set.
  destruct (m s) as [[a | | e |] s1]; cbn; intros [= <- <-]; auto;
    right; cbn; apply lookup_insert_eq.
Qed.

Ltac run_monad :=
  cbv beta iota delta
    [function_body try_finally try_except mbind M_bind mret M_ret
     early_return threads_get in_progress_get in_progress_set deliver now sleep
     provider self_assistant_id lift log]; cbn [dicts self trace].

Ltac leaf evs :=
  run_monad; intros [= <- <-]; exists evs;
  split; [cbn [trace]; rewrite <- ?app_assoc, ?app_nil_r; reflexivity |];
  split; [vm_compute; reflexivity |];
  split; [discriminate |];
  try (intros ? [= <-]; split; reflexivity);
  try (intros ? [=]).

Lemma on_queued_spec p s o s' :
  on_queued E p s = (o, s') ->
  exists evs,
    trace s' = trace s ++ evs /\
    quiet evs = true /\
    o <> Diverge /\
    forall p', o = Val p' ->
      run_status p' = run_status p /\ max_wait_time p' = max_wait_time p.
Proof.
  unfold on_queued.
  destruct (eq_str (run_status p) (py "queued")).
  2:{ leaf (@nil event). }
  run_monad.
  destruct (negb (queued_message_sent p)).
  - destruct (send_to_telegram E (trace s) queued_notice) as [[] | e].
    2:{ leaf [Deliver queued_notice]. }
    run_monad; cbv beta iota delta [set_queued queued_time_start].
    destruct (PrimFloat.eqb _ 0).
    { leaf [Deliver queued_notice; Clock]. }
    destruct (float_gt_int _ 30).
    + destruct (send_to_telegram E _ still_queued_notice) as [[] | e];
        leaf [Deliver queued_notice; Clock; Clock; Deliver still_queued_notice].
    + leaf [Deliver queued_notice; Clock; Clock].
  - destruct (queued_time_start p) as [t0 |].
    2:{ leaf (@nil event). }
    destruct (PrimFloat.eqb t0 0).
    { leaf (@nil event). }
    destruct (float_gt_int _ 30).
    + destruct (send_to_telegram E _ still_queued_notice) as [[] | e];
        leaf [Clock; Deliver still_queued_notice].
    + leaf [Clock].
Qed.

Lemma on_timeout_spec elapsed p s o s' :
  on_timeout E elapsed p s = (o, s') ->
  trace s' = trace s ++
    (if float_gt_int elapsed (max_wait_time p) then [Deliver slow_notice] else []) /\
  o <> Diverge /\
  forall p', o = Val p' ->
    run_status p' = run_status p /\
    max_wait_time p' =
      if float_gt_int elapsed (max_wait_time p) then (max_wait_time p + 60)%Z
      else max_wait_time p.
Proof.
  unfold on_timeout. destruct (float_gt_int elapsed (max_wait_time p)); run_monad.
  - destruct (send_to_telegram E (trace s) slow_notice) as [[] | e];
      run_monad; intros [= <- <-]; (split; [reflexivity |]);
      (split; [discriminate |]); intros p' [= <-]; split; reflexivity.
  - intros [= <- <-]. rewrite app_nil_r. split; [reflexivity |].
    split; [discriminate |]. intros p' [= <-]. split; reflexivity.
Qed.

(** A poll: the status is what the provider answers; when the provider
    raises, the status stays and five more seconds are slept. *)
Lemma refresh_spec thread_id run p s o s' :
  refresh E thread_id run p s = (o, s') ->
  exists tail,
    trace s' = trace s ++ Provider (RunsRetrieve thread_id run) :: tail /\
    (tail = [] \/ tail = [Sleep 5%float]) /\
    o <> Diverge /\
    (forall p', o = Val p' -> max_wait_time p' = max_wait_time p) /\
    (forall p', o = Val p' ->
     match runs_retrieve E (trace s) thread_id run with
     | Ok st => run_status p' = st /\ tail = []
     | Err _ => run_status p' = run_status p /\ tail = [Sleep 5%float]
     end).
Proof.
  unfold refresh. run_monad.
  destruct (runs_retrieve E (trace s) thread_id run) as [st | [msg | msg]];
    run_monad; intros [= <- <-].
  - exists []. split; [reflexivity |]. split; [auto |]. split; [discriminate |].
    split; intros p' [= <-]; [reflexivity | split; reflexivity].
  - exists [Sleep 5%float]. cbn [trace]. rewrite <- app_assoc.
    split; [reflexivity |]. split; [auto |]. split; [discriminate |].
    split; intros p' [= <-]; [reflexivity | split; reflexivity].
  - exists []. split; [reflexivity |]. split; [auto |]. split; [discriminate |].
    split; intros p' [=].
Qed.

Lemma poll_body_spec thread_id run start_time p s o s' :
  poll_body E thread_id run start_time p s = (o, s') ->
  o <> Diverge /\
  forall p', o = Val p' ->
    let elapsed := (time E (trace s) - start_time)%float in
    let late := float_gt_int elapsed (max_wait_time p) in
    exists queued tail,
      trace s' = trace s ++ [Clock] ++ queued
        ++ (if late then [Deliver slow_notice] else [])
        ++ [Sleep (base_wait elapsed);
            Provider (RunsRetrieve thread_id run)]
        ++ tail /\
      quiet queued = true /\
      (tail = [] \/ tail = [Sleep 5%float]) /\
      max_wait_time p' =
        (if late then (max_wait_time p + 60)%Z else max_wait_time p) /\
      match runs_retrieve E
              (trace s ++ [Clock] ++ queued
                 ++ (if late then [Deliver slow_notice] else [])
                 ++ [Sleep (base_wait elapsed)])
              thread_id run with
      | Ok st => run_status p' = st /\ tail = []
      | Err _ => run_status p' = run_status p /\ tail = [Sleep 5%float]
      end.
Proof.
  unfold poll_body.
  unfold mbind at 1, M_bind at 1, now at 1. cbv beta iota.
  set (s0 := log Clock s).
  unfold mbind at 1, M_bind at 1.
  destruct (on_queued E p s0) as [o1 s1] eqn:H1.
  apply on_queued_spec in H1 as (queued & Ht1 & Hq & Hd1 & Hp1).
  destruct o1 as [p1 | | e |];
    try (intros [= <- <-]; split; [discriminate | intros ? [=]]); [| congruence].
  destruct (Hp1 p1 eq_refl) as [Hs1 Hw1].
  unfold mbind at 1, M_bind at 1.
  destruct (on_timeout E _ p1 s1) as [o2 s2] eqn:H2.
  apply on_timeout_spec in H2 as (Ht2 & Hd2 & Hp2).
  destruct o2 as [p2 | | e |];
    try (intros [= <- <-]; split; [discriminate | intros ? [=]]); [| congruence].
  destruct (Hp2 p2 eq_refl) as [Hs2 Hw2].
  unfold mbind at 1, M_bind at 1, sleep at 1. cbv beta iota.
  intros H3. apply refresh_spec in H3 as (tail & Ht3 & Htail & Hd3 & Hp3 & Hst3).
  split; [exact Hd3 |]. intros p' ->. cbv zeta.
  exists queued, tail.
  assert (Hasked : trace (log (Sleep (base_wait (time E (trace s) - start_time))) s2)
                   = trace s ++ [Clock] ++ queued
                       ++ (if float_gt_int (time E (trace s) - start_time)
                                (max_wait_time p)
                           then [Deliver slow_notice] else [])
                       ++ [Sleep (base_wait (time E (trace s) - start_time))]).
  { cbn [trace log]. rewrite Ht2, Ht1. subst s0. cbn [trace log].
    rewrite Hw1. rewrite <- !app_assoc. reflexivity. }
  split.
  { rewrite Ht3, Hasked. rewrite <- !app_assoc. reflexivity. }
  split; [exact Hq |]. split; [exact Htail |].
  split; [rewrite (Hp3 p' eq_refl), Hw2, Hw1; reflexivity |].
  specialize (Hst3 p' eq_refl). rewrite Hasked in Hst3.
  rewrite Hs2, Hs1 in Hst3. exact Hst3.
Qed.

Lemma polls_app a b : polls (a ++ b) = (polls a + polls b)%nat.
Proof. unfold polls. rewrite List.filter_app, length_app. reflexivity. Qed.

Lemma polls_quiet evs : quiet evs = true -> polls evs = O.
Proof.
  induction evs as [| ev evs IH]; [reflexivity |].
  cbn [quiet forallb]. intros [Hev Hq]%andb_prop.
  destruct ev as [c | chunk | path | | d]; try discriminate; apply IH, Hq.
Qed.

Lemma poll_body_polls thread_id run start_time p s p' s' :
  poll_body E thread_id run start_time p s = (Val p', s') ->
  polls (trace s') = S (polls (trace s)).
Proof.
  intros H. apply poll_body_spec in H as [_ H].
  destruct (H p' eq_refl) as (queued & tail & -> & Hq & Htail & _).
  rewrite !polls_app, (polls_quiet _ Hq).
  destruct (float_gt_int _ _); destruct Htail as [-> | ->]; cbn; lia.
Qed.

Lemma poll_loop_stalls fuel thread_id run start_time p s s' :
  poll_loop E fuel thread_id run start_time p s = (Diverge, s') ->
  (polls (trace s) + fuel <= polls (trace s'))%nat.
Proof.
  revert p s. induction fuel as [| fuel IH]; intros p s; cbn [poll_loop];
    destruct (is_terminal (run_status p)); try discriminate.
  - intros [= <-]. lia.
  - unfold mbind at 1, M_bind at 1.
    destruct (poll_body E thread_id run start_time p s) as [o1 s1] eqn:Hb.
    pose proof (poll_body_spec _ _ _ _ _ _ _ Hb) as [Hd _].
    destruct o1 as [p1 | | e |]; try discriminate; [| congruence].
    intros Hl. apply IH in Hl. apply poll_body_polls in Hb. lia.
Qed.

Lemma stalls_returns {A} n (m : M state A) : returns m -> stalls n m.
Proof. intros Hm s s' H. specialize (Hm s). rewrite H in Hm. exfalso. apply Hm. reflexivity. Qed.

Lemma stalls_bind {A B} n (m : M state A) (k : A -> M state B) :
  stalls n m -> (forall a, stalls n (k a)) -> stalls n (m ≫= k).
Proof.
  intros Hm Hk s s'. unfold mbind, M_bind.
  destruct (m s) as [[a | | e |] s1] eqn:Hms; try discriminate.
  - apply Hk.
  - intros [= <-]. eapply Hm, Hms.
Qed.

Lemma stalls_try_except {A} n (m : M state A) h :
  stalls n m -> (forall e, stalls n (h e)) -> stalls n (try_except m h).
Proof.
  intros Hm Hh s s'. unfold try_except.
  destruct (m s) as [[a | | [msg | msg] |] s1] eqn:Hms; try discriminate.
  - apply Hh.
  - intros [= <-]. eapply Hm, Hms.
Qed.

Lemma stalls_try_finally {A} n (m : M state A) fin :
  stalls n m -> returns fin -> stalls n (try_finally m fin).
Proof.
  intros Hm Hf s s'. unfold try_finally.
  destruct (m s) as [[a | | e |] s1] eqn:Hms;
    try (specialize (Hf s1); destruct (fin s1) as [[[] | | e' |] s2];
         cbn in Hf; try discriminate; congruence).
  intros [= <-]. eapply Hm, Hms.
Qed.

Lemma stalls_function_body n (m : M state unit) :
  stalls n m -> stalls n (function_body m).
Proof.
  intros Hm s s'. unfold function_body.
  destruct (m s) as [[a | | e |] s1] eqn:Hms; try discriminate.
  intros [= <-]. eapply Hm, Hms.
Qed.

Lemma stalls_stream_image_response fuel g m path :
  stalls fuel (stream_image_response E fuel g m path).
Proof.
  unfold stream_image_response.
  apply stalls_function_body, stalls_bind;
    [apply stalls_returns; intros s; discriminate |].
  intros [[| c tid] |]; try (apply stalls_returns, returns_early).
  apply stalls_bind; [apply stalls_returns; intros s; discriminate |].
  intros [|]; [apply stalls_returns; repeat returns_step |].
  apply stalls_try_finally; [| apply returns_flag].
  apply stalls_bind; [apply stalls_returns, returns_flag | intros _].
  apply stalls_bind; [apply stalls_returns, returns_deliver | intros _].
  apply stalls_bind; [apply stalls_returns; intros s; discriminate | intros a].
  apply stalls_bind; [apply stalls_returns | intros model_name].
  { apply returns_try_except; [| intros; apply returns_ret].
    apply returns_bind; [apply returns_provider |].
    intros; apply returns_ret. }
  apply stalls_bind; [apply stalls_returns | intros file_id].
  { apply returns_try_except.
    - apply returns_bind; [apply returns_provider | intros _].
      apply returns_bind; [apply returns_provider | intros fid].
      apply returns_bind; [| intros; apply returns_ret].
      apply returns_try_except; [apply returns_provider | intros e].
      apply returns_try_except.
      + apply returns_bind; [| intros; apply returns_provider].
        intros s. unfold read_file, lift. destruct (read_base64 _ _ _); discriminate.
      + intros e2. repeat returns_step.
    - intros e. repeat returns_step. }
  apply stalls_bind; [apply stalls_returns, returns_history | intros _].
  apply stalls_try_except;
    [| intros e; apply stalls_returns, returns_deliver].
  apply stalls_bind; [apply stalls_returns, returns_provider | intros run].
  apply stalls_bind; [apply stalls_returns; intros s; discriminate | intros t0].
  apply stalls_bind.
  { intros s s' H. apply poll_loop_stalls in H. lia. }
  intros p. apply stalls_returns.
  apply returns_bind; [intros s; discriminate | intros _].
  destruct (eq_str _ _); [| apply returns_deliver].
  apply returns_bind; [apply returns_provider | intros msgs].
  destruct (assistant_messages _ _); [apply returns_deliver |].
  apply returns_deliver_all.
Qed.





(** C10. Without a recorded handle for the group (none, or an empty one)
    a text turn and an image turn return at once: the state, and with it
    the trace of provider calls and deliveries, the history and the
    in-progress flags, is the one before the call. *)
Theorem no_handle_no_turn (group_id : Z) (message_str image_path : list N)
    (fuel : nat) (s : state) :
  handle_of group_id s = None \/ handle_of group_id s = Some [] ->
  stream_response E group_id message_str s = (Val tt, s) /\
  stream_image_response E fuel group_id message_str image_path s = (Val tt, s).
Proof.
  unfold handle_of, stream_response, stream_image_response.
  intros [H | H]; run_monad; rewrite H; split; reflexivity.
Qed.

(** C1. A turn that targets a handle whose in-progress flag is set
    invokes the delivery callback once, with the busy notice, and does
    nothing else: no provider call enters the trace, and the thread map,
    the history and the flags are unchanged. *)
Theorem busy_turn_is_rejected (group_id : Z) (thread_id : list N)
    (message_str image_path : list N) (fuel : nat) (s : state) :
  handle_of group_id s = Some thread_id ->
  thread_id <> [] ->
  in_progress_runs (self s) !! thread_id = Some true ->
  stream_response E group_id message_str s
    = (ends_as (send_to_telegram E (trace s) busy_notice), after_busy_notice s) /\
  stream_image_response E fuel group_id message_str image_path s
    = (ends_as (send_to_telegram E (trace s) busy_notice), after_busy_notice s).
Proof.
  unfold handle_of, stream_response, stream_image_response.
  intros H Hne Hbusy.
  destruct thread_id as [| c tid]; [congruence |].
  run_monad. rewrite H. cbv beta iota. rewrite Hbusy.
  cbv beta iota delta [default from_option id after_busy_notice ends_as].
  destruct (send_to_telegram E (trace s) busy_notice) as [[] | e];
    split; reflexivity.
Qed.

(** C3. A turn that passes the busy check leaves the in-progress flag of
    its thread false, however it ends: by falling through, by an early
    [return], or by an exception that leaves the method. The text turn
    always ends; the image turn ends unless the poll loop is still
    running after [fuel] polls. *)
Theorem flag_cleared_on_exit (group_id : Z) (thread_id : list N)
    (message_str image_path : list N) (fuel : nat) (s : state) :
  handle_of group_id s = Some thread_id ->
  thread_id <> [] ->
  in_progress_runs (self s) !! thread_id <> Some true ->
  (forall o s', stream_response E group_id message_str s = (o, s') ->
     o <> Diverge /\ in_progress_runs (self s') !! thread_id = Some false) /\
  (forall o s',
     stream_image_response E fuel group_id message_str image_path s = (o, s') ->
     (o = Diverge -> (fuel <= polls (trace s'))%nat) /\
     (o <> Diverge -> in_progress_runs (self s') !! thread_id = Some false)).
Proof.
  intros H Hne Hidle.
  assert (Hget : default false (in_progress_runs (self s) !! thread_id) = false).
  { destruct (in_progress_runs (self s) !! thread_id) as [[|] |]; cbn; congruence. }
  destruct thread_id as [| c tid]; [congruence |].
  split.
  - intros o s' Hrun.
    assert (Hr : o <> Diverge).
    { pose proof (returns_stream_response group_id message_str s) as Hr.
      rewrite Hrun in Hr. exact Hr. }
    split; [exact Hr |].
    revert Hrun. unfold handle_of, stream_response in *.
    unfold function_body at 1, mbind at 1, M_bind at 1, threads_get at 1.
    rewrite H. cbv beta iota.
    unfold mbind at 1, M_bind at 1, in_progress_get at 1. rewrite Hget.
    cbv beta iota.
    match goal with |- context [try_finally ?m _ s] =>
      destruct (try_finally m (in_progress_set (c :: tid) false) s)
        as [o1 s1] eqn:Hfin end.
    apply finally_clears in Hfin.
    destruct o1; intros [= <- <-]; destruct Hfin; auto; congruence.
  - intros o s' Hrun. split.
    { intros ->. eapply stalls_stream_image_response, Hrun. }
    revert Hrun. unfold handle_of, stream_image_response in *.
    unfold function_body at 1, mbind at 1, M_bind at 1, threads_get at 1.
    rewrite H. cbv beta iota.
    unfold mbind at 1, M_bind at 1, in_progress_get at 1. rewrite Hget.
    cbv beta iota.
    match goal with |- context [try_finally ?m _ s] =>
      destruct (try_finally m (in_progress_set (c :: tid) false) s)
        as [o1 s1] eqn:Hfin end.
    apply finally_clears in Hfin.
    destruct o1; intros [= <- <-] Hnd; destruct Hfin; auto; congruence.
Qed.




End Facts.

Lemma no_handle_no_turn_witness :
  handle_of 7 nowhere = None /\
  stream_response calm 7 (py "hola") nowhere = (Val tt, nowhere) /\
  stream_image_response calm 3 7 (py "hola") (py "a.jpg") nowhere
    = (Val tt, nowhere).
Proof.
  split; [vm_compute; reflexivity |].
  apply (no_handle_no_turn calm 7 (py "hola") (py "a.jpg") 3 nowhere).
  left. vm_compute. reflexivity.
Defined.

Lemma busy_turn_is_rejected_witness :
  handle_of 7 busy_home = Some (py "thread_A") /\
  in_progress_runs (self busy_home) !! py "thread_A" = Some true /\
  stream_response calm 7 (py "hola") busy_home
    = (Val tt, after_busy_notice busy_home) /\
  stream_image_response calm 3 7 (py "hola") (py "a.jpg") busy_home
    = (Val tt, after_busy_notice busy_home).
Proof.
  split; [vm_compute; reflexivity |].
  split; [vm_compute; reflexivity |].
  apply (busy_turn_is_rejected calm 7 (py "thread_A") (py "hola") (py "a.jpg")
           3 busy_home).
  - vm_compute. reflexivity.
  - vm_compute. discriminate.
  - vm_compute. reflexivity.
Defined.

Lemma flag_cleared_on_exit_witness :
  handle_of 7 home = Some (py "thread_A") /\
  in_progress_runs (self (snd (stream_response calm 7 (py "hola") home)))
    !! py "thread_A" = Some false /\
  fst (stream_image_response calm 5 7 (py "hola") (py "a.jpg") home) = Val tt /\
  in_progress_runs
    (self (snd (stream_image_response calm 5 7 (py "hola") (py "a.jpg") home)))
    !! py "thread_A" = Some false.
Proof.
  assert (H : handle_of 7 home = Some (py "thread_A")) by (vm_compute; reflexivity).
  assert (Hne : py "thread_A" <> []) by (vm_compute; discriminate).
  assert (Hidle : in_progress_runs (self home) !! py "thread_A" <> Some true)
    by (vm_compute; discriminate).
  destruct (flag_cleared_on_exit calm 7 (py "thread_A") (py "hola") (py "a.jpg")
              5 home H Hne Hidle) as [Htext Himage].
  split; [exact H |].
  split; [eapply Htext, surjective_pairing |].
  assert (Hend : fst (stream_image_response calm 5 7 (py "hola") (py "a.jpg") home)
                 = Val tt) by (vm_compute; reflexivity).
  split; [exact Hend |].
  eapply Himage; [apply surjective_pairing |]. rewrite Hend. discriminate.
Defined.



(** [trim_message_history] itself keeps the last 20 entries. *)
Lemma trim_message_history_spec (h : handler) :
  (length (message_history (trim_message_history h)) <= max_messages)%nat /\
  exists dropped,
    message_history h = dropped ++ message_history (trim_message_history h).
Proof.
  unfold trim_message_history.
  destruct (max_messages <? length (message_history h))%nat eqn:Hlen.
  - apply Nat.ltb_lt in Hlen. cbn [message_history set_history]. split.
    + rewrite length_drop. lia.
    + eexists. symmetry. apply take_drop.
  - apply Nat.ltb_ge in Hlen. split; [exact Hlen |]. exists []. reflexivity.
Qed.

(** C5 fails on the code: no turn calls [trim_message_history]. Eleven
    text turns, each answered with one paragraph, leave 22 entries. *)
Theorem history_outgrows_cap :
  length (message_history (self (text_turns calm 11 7 (py "hola") home)))
    = 22%nat /\
  (max_messages < 22)%nat.
Proof. split; [vm_compute; reflexivity | unfold max_messages; lia]. Qed.

End HandlerFacts.

(* ===================================================================== *)
(** ** Properties of the conversation manager *)
(* ===================================================================== *)

Module ManagerFacts.

Import Handler Manager ManagerObs.

Lemma deref_dict_set l l' g g' v (d : gmap loc (gmap Z (list N))) :
  deref (dict_set l g v d) l' !! g' =
  if decide (l = l' /\ g = g') then Some v else deref d l' !! g'.
Proof.
  unfold dict_set, deref. destruct (decide (l = l')) as [-> | Hl].
  - rewrite lookup_insert_eq. cbn.
    destruct (decide (g = g')) as [-> | Hg].
    + rewrite lookup_insert_eq. rewrite decide_True; auto.
    + rewrite lookup_insert_ne by done. rewrite decide_False; [done | tauto].
  - rewrite lookup_insert_ne by done. rewrite decide_False; [done | tauto].
Qed.

Lemma deref_dict_del l l' g g' (d : gmap loc (gmap Z (list N))) :
  deref (dict_del l g d) l' !! g' =
  if decide (l = l' /\ g = g') then None else deref d l' !! g'.
Proof.
  unfold dict_del, deref. destruct (decide (l = l')) as [-> | Hl].
  - rewrite lookup_insert_eq. cbn.
    destruct (decide (g = g')) as [-> | Hg].
    + rewrite lookup_delete_eq. rewrite decide_True; auto.
    + rewrite lookup_delete_ne by done. rewrite decide_False; [done | tauto].
  - rewrite lookup_insert_ne by done. rewrite decide_False; [done | tauto].
Qed.

(** The dicts after the fan-out of [record_thread]. *)
Lemma fan_out_lookup g v (bots : list (list N * handler)) d l g' :
  deref (foldl (fun d b => dict_set (Handler.threads (snd b)) g v d) d bots) l !! g' =
  if decide (g = g' /\ l ∈ map (fun b => Handler.threads (snd b)) bots)
  then Some v else deref d l !! g'.
Proof.
  revert d. induction bots as [| b bots IH]; intros d; cbn [foldl map].
  - rewrite decide_False; [done |]. intros [_ H]. by apply elem_of_nil in H.
  - rewrite IH, deref_dict_set.
    destruct (decide (g = g')) as [-> | Hg].
    + destruct (decide (l ∈ map (fun b => Handler.threads (snd b)) bots)) as [Hin | Hin].
      * rewrite !decide_True; auto. split; auto. by apply elem_of_cons; right.
      * rewrite (decide_False (P := _ /\ l ∈ map _ bots)) by tauto.
        destruct (decide (Handler.threads (snd b) = l)) as [<- | Hl].
        -- rewrite !decide_True; auto. split; auto. apply elem_of_cons; auto.
        -- rewrite !decide_False; auto; [| tauto].
           intros [_ [? | ?]%elem_of_cons]; congruence.
    + rewrite !decide_False; tauto.
Qed.

Lemma record_thread_lookup g v w l g' :
  deref (dicts (record_thread g v w)) l !! g' =
  if decide (g = g' /\
             (l = threads (mgr w) \/
              l ∈ map (fun b => Handler.threads (snd b)) (all_bots (mgr w))))
  then Some v else deref (dicts w) l !! g'.
Proof.
  unfold record_thread, with_dicts. cbn [dicts].
  rewrite fan_out_lookup, deref_dict_set.
  destruct (decide (g = g')) as [-> | Hg];
    [| rewrite !decide_False; tauto].
  destruct (decide (l ∈ map (fun b => Handler.threads (snd b)) (all_bots (mgr w))))
    as [Hin | Hin]; [rewrite !decide_True; auto |].
  rewrite (decide_False (P := _ /\ l ∈ _)) by tauto.
  destruct (decide (threads (mgr w) = l)) as [<- | Hl];
    [rewrite !decide_True; auto |].
  rewrite !decide_False; [done | | tauto].
  intros [_ [? | ?]]; congruence.
Qed.

Lemma get_thread_id_record g v w : get_thread_id g (record_thread g v w) = Some v.
Proof.
  unfold get_thread_id. replace (mgr (record_thread g v w)) with (mgr w) by reflexivity.
  rewrite record_thread_lookup, decide_True; auto.
Qed.

(** The dicts after the clean-up loop of [end_conversation]. *)
Lemma purge_lookup g (bots : list (list N * handler)) d l g' :
  deref (foldl (fun d b =>
                  if bool_decide (is_Some (deref d (Handler.threads (snd b)) !! g))
                  then dict_del (Handler.threads (snd b)) g d
                  else d) d bots) l !! g' =
  if decide (g = g' /\ l ∈ map (fun b => Handler.threads (snd b)) bots)
  then None else deref d l !! g'.
Proof.
  revert d. induction bots as [| b bots IH]; intros d; cbn [foldl map].
  - rewrite decide_False; [done |]. intros [_ H]. by apply elem_of_nil in H.
  - rewrite IH. clear IH.
    set (lb := Handler.threads (snd b)).
    assert (Hstep : forall l0 g0,
      deref (if bool_decide (is_Some (deref d lb !! g)) then dict_del lb g d else d) l0 !! g0
      = if decide (lb = l0 /\ g = g0) then None else deref d l0 !! g0).
    { intros l0 g0. case_bool_decide as Hs.
      - apply deref_dict_del.
      - case_decide as Hd; [| done]. destruct Hd as [<- <-].
        destruct (deref d lb !! g) eqn:Heq; [| done]. exfalso. apply Hs. eauto. }
    rewrite Hstep.
    destruct (decide (g = g')) as [-> | Hg].
    + destruct (decide (l ∈ map (fun b => Handler.threads (snd b)) bots)) as [Hin | Hin].
      * rewrite !decide_True; auto. split; auto. by apply elem_of_cons; right.
      * rewrite (decide_False (P := _ /\ l ∈ map _ bots)) by tauto.
        destruct (decide (lb = l)) as [<- | Hl].
        -- rewrite !decide_True; auto. split; auto. apply elem_of_cons; auto.
        -- rewrite !decide_False; auto; [| tauto].
           intros [_ [? | ?]%elem_of_cons]; congruence.
    + rewrite !decide_False; tauto.
Qed.

(** C9. Ending the conversation of a group with a recorded handle returns
    [True]; afterwards neither the manager nor the handler of any
    registered bot knows a handle for the group, the handles of other
    groups are where they were, and the manager's own fields, among them
    [user_data] and the thread locks, are unchanged. Without a recorded
    handle it returns [False] and changes nothing. *)
Theorem end_conversation_spec (g : Z) (w : world) :
  (is_active g w = true ->
   fst (end_conversation g w) = true /\
   let w' := snd (end_conversation g w) in
   get_thread_id g w' = None /\
   (forall b, b ∈ all_bots (mgr w') ->
      deref (dicts w') (Handler.threads (snd b)) !! g = None) /\
   (forall l g', g' <> g -> deref (dicts w') l !! g' = deref (dicts w) l !! g') /\
   mgr w' = mgr w /\
   user_data (mgr w') !! g = user_data (mgr w) !! g /\
   thread_locks (mgr w') !! g = thread_locks (mgr w) !! g) /\
  (is_active g w = false -> end_conversation g w = (false, w)).
Proof.
  unfold end_conversation. split; intros Ha; rewrite Ha; [| reflexivity].
  cbn [fst snd]. split; [reflexivity |]. cbv zeta.
  unfold get_thread_id, with_dicts. cbn [dicts mgr].
  repeat split.
  - rewrite purge_lookup, deref_dict_del. repeat case_decide; try done.
    exfalso; tauto.
  - intros b Hb. rewrite purge_lookup, decide_True; [done |].
    split; [done |]. apply list_elem_of_fmap. eauto.
  - intros l g' Hne. rewrite purge_lookup, deref_dict_del.
    rewrite !decide_False; [done | |]; intros [? ?]; congruence.
Qed.

Lemma end_conversation_spec_witness :
  is_active 7 office_A = true /\
  fst (end_conversation 7 office_A) = true /\
  get_thread_id 7 (snd (end_conversation 7 office_A)) = None /\
  user_data (mgr (snd (end_conversation 7 office_A))) !! 7%Z
    = Some {[ py "name" := py "Ana" ]} /\
  is_active 7 office = false /\
  end_conversation 7 office = (false, office).
Proof.
  assert (Ha : is_active 7 office_A = true) by (vm_compute; reflexivity).
  assert (Hb : is_active 7 office = false) by (vm_compute; reflexivity).
  destruct (end_conversation_spec 7 office_A) as [Hyes _].
  destruct (end_conversation_spec 7 office) as [_ Hno].
  destruct (Hyes Ha) as (Hr & Hget & _ & _ & _ & Hu & _).
  split; [exact Ha |]. split; [exact Hr |]. split; [exact Hget |].
  split; [rewrite Hu; vm_compute; reflexivity |].
  split; [exact Hb | exact (Hno Hb)].
Defined.

Lemma lock_held_get_thread_lock g w :
  lock_held g (get_thread_lock g w) = lock_held g w.
Proof.
  unfold get_thread_lock, lock_held.
  destruct (thread_locks (mgr w) !! g) eqn:H; [rewrite H; reflexivity |].
  cbn [with_locks mgr thread_locks]. rewrite lookup_insert_eq. reflexivity.
Qed.

Lemma lock_held_set_lock g b w : lock_held g (set_lock g b w) = b.
Proof.
  unfold set_lock, lock_held. cbn [with_locks mgr thread_locks].
  rewrite lookup_insert_eq. reflexivity.
Qed.

Lemma settled_frame g w :
  dicts (settled g w) = dicts w /\ creations (settled g w) = creations w /\
  all_bots (mgr (settled g w)) = all_bots (mgr w) /\
  threads (mgr (settled g w)) = threads (mgr w).
Proof.
  unfold settled, set_lock, get_thread_lock, with_locks.
  destruct (thread_locks (mgr w) !! g); repeat split; reflexivity.
Qed.

Lemma settled_twice g w : settled g (settled g w) = settled g w.
Proof.
  unfold settled, set_lock, get_thread_lock, with_locks. cbn [mgr thread_locks dicts creations].
  rewrite lookup_insert_eq. cbn [mgr thread_locks dicts creations].
  rewrite !insert_insert_eq. reflexivity.
Qed.

Lemma settled_record g v w :
  settled g (record_thread g v w) = record_thread g v (settled g w).
Proof.
  unfold settled, set_lock, get_thread_lock, record_thread, with_locks, with_dicts.
  cbn [mgr thread_locks dicts creations all_bots threads].
  destruct (thread_locks (mgr w) !! g); reflexivity.
Qed.

(** C8, as the code has it. Let the lock of the group be free and the
    hint non-empty. While no handle is recorded for the group,
    [set_thread_id] records the hint for the manager and for every
    registered bot and returns it, without a provider call, and a second
    call with the same hint returns it again and changes nothing. When a
    handle is recorded already, that handle is returned and stays: the
    hint is not recorded. *)
Theorem set_thread_id_with_hint (create : nat -> creation) (g : Z)
    (hint : list N) (w : world) :
  hint <> [] ->
  lock_held g w = false ->
  (get_thread_id g w = None \/ get_thread_id g w = Some [] ->
   exists w',
     set_thread_id create g (Some hint) w = Some (Some hint, w') /\
     get_thread_id g w' = Some hint /\
     (forall b, b ∈ all_bots (mgr w') ->
        deref (dicts w') (Handler.threads (snd b)) !! g = Some hint) /\
     creations w' = creations w /\
     set_thread_id create g (Some hint) w' = Some (Some hint, w')) /\
  (forall existing,
     existing <> [] ->
     get_thread_id g w = Some existing ->
     exists w',
       set_thread_id create g (Some hint) w = Some (Some existing, w') /\
       dicts w' = dicts w /\
       creations w' = creations w /\
       set_thread_id create g (Some hint) w' = Some (Some existing, w')).
Proof.
  intros Hne Hfree.
  destruct hint as [| c hint]; [congruence |].
  assert (Hentry : forall w0, lock_held g w0 = false ->
    step create {| group_id := g; thread_id := Some (c :: hint); pos := AtEntry |} w0
    = Some ({| group_id := g; thread_id := Some (c :: hint); pos := Locked |},
            set_lock g true (get_thread_lock g w0))).
  { intros w0 H0. unfold step. cbn [pos group_id].
    rewrite lock_held_get_thread_lock, H0. reflexivity. }
  assert (Hkeep : forall w0 ex, ex <> [] -> lock_held g w0 = false ->
    get_thread_id g w0 = Some ex ->
    set_thread_id create g (Some (c :: hint)) w0 = Some (Some ex, settled g w0)).
  { intros w0 ex Hex H0 Hget. unfold set_thread_id. cbn [run pos].
    rewrite (Hentry w0 H0). cbn [run pos]. unfold step at 1. cbn [pos group_id goto].
    replace (get_thread_id g (set_lock g true (get_thread_lock g w0)))
      with (get_thread_id g w0)
      by (unfold get_thread_id, set_lock, get_thread_lock, with_locks;
          destruct (thread_locks (mgr w0) !! g); reflexivity).
    rewrite Hget. destruct ex as [| e ex]; [congruence |].
    cbn [run pos goto step group_id]. reflexivity. }
  assert (Hfree' : forall w0, lock_held g (settled g w0) = false).
  { intros w0. unfold settled. apply lock_held_set_lock. }
  split.
  - intros Hnone.
    exists (record_thread g (c :: hint) (settled g w)).
    assert (Hrun : set_thread_id create g (Some (c :: hint)) w
                   = Some (Some (c :: hint), record_thread g (c :: hint) (settled g w))).
    { unfold set_thread_id. cbn [run pos].
      rewrite (Hentry w Hfree). cbn [run pos]. unfold step at 1. cbn [pos group_id goto thread_id].
      replace (get_thread_id g (set_lock g true (get_thread_lock g w)))
        with (get_thread_id g w)
        by (unfold get_thread_id, set_lock, get_thread_lock, with_locks;
            destruct (thread_locks (mgr w) !! g); reflexivity).
      assert (Hsame : set_lock g false
                (record_thread g (c :: hint) (set_lock g true (get_thread_lock g w)))
              = record_thread g (c :: hint) (settled g w)) by reflexivity.
      destruct Hnone as [-> | ->]; cbn [run pos goto step group_id]; rewrite Hsame;
        reflexivity. }
    split; [exact Hrun |].
    split; [apply get_thread_id_record |].
    split.
    { intros b Hb. rewrite record_thread_lookup, decide_True; [done |].
      split; [done |]. right. apply list_elem_of_fmap. eauto. }
    split; [apply (settled_frame g w) |].
    rewrite (Hkeep _ (c :: hint)); [| done | | apply get_thread_id_record].
    + rewrite settled_record, settled_twice. reflexivity.
    + rewrite <- settled_record. apply Hfree'.
  - intros ex Hex Hget. exists (settled g w).
    split; [apply Hkeep; auto |].
    split; [apply (settled_frame g w) |].
    split; [apply (settled_frame g w) |].
    rewrite (Hkeep _ ex); auto.
    + rewrite settled_twice. reflexivity.
    + unfold get_thread_id, settled, set_lock, get_thread_lock, with_locks in *;
        destruct (thread_locks (mgr w) !! g); exact Hget.
Qed.

Lemma set_thread_id_with_hint_witness :
  lock_held 7 office = false /\
  get_thread_id 7 office = None /\
  exists w',
    set_thread_id refuses 7 (Some (py "thread_B")) office
      = Some (Some (py "thread_B"), w') /\
    get_thread_id 7 w' = Some (py "thread_B") /\
    creations w' = creations office /\
    set_thread_id refuses 7 (Some (py "thread_B")) w'
      = Some (Some (py "thread_B"), w').
Proof.
  assert (Hfree : lock_held 7 office = false) by (vm_compute; reflexivity).
  assert (Hnone : get_thread_id 7 office = None) by (vm_compute; reflexivity).
  assert (Hne : py "thread_B" <> []) by (vm_compute; discriminate).
  split; [exact Hfree |]. split; [exact Hnone |].
  destruct (set_thread_id_with_hint refuses 7 (py "thread_B") office Hne Hfree)
    as [Hnew _].
  destruct (Hnew (or_introl Hnone)) as (w' & Hrun & Hget & _ & Hc & Hagain).
  exists w'. auto.
Defined.

(** C8, as stated, fails: with ["thread_A"] recorded, the hint
    ["thread_B"] is neither recorded nor returned. *)
Lemma hint_ignored_when_known :
  match set_thread_id refuses 7 (Some (py "thread_B")) office_A with
  | Some (r, w') =>
      r = Some (py "thread_A") /\ get_thread_id 7 w' = Some (py "thread_A")
  | None => False
  end /\
  py "thread_A" <> py "thread_B".
Proof.
  split; [vm_compute; split; reflexivity | vm_compute; discriminate].
Qed.

Section Concurrent.

Variable create : nat -> creation.
Variable w0 : world.
Variable g : Z.
Variable n : nat.

Hypothesis some_bot : all_bots (mgr w0) <> [].

Lemma list_sum_insert (f : task -> nat) (l : list task) i t t' :
  l !! i = Some t ->
  (list_sum (map f (<[i := t']> l)) + f t = list_sum (map f l) + f t')%nat.
Proof.
  revert i. induction l as [| x l IH]; intros [| i]; simpl; try discriminate.
  - intros [= ->]. lia.
  - intros Hi. specialize (IH i Hi). lia.
Qed.

Lemma list_sum_lookup (f : task -> nat) (l : list task) i t :
  l !! i = Some t -> (f t <= list_sum (map f l))%nat.
Proof.
  revert i. induction l as [| x l IH]; intros [| i]; simpl; try discriminate.
  - intros [= ->]. lia.
  - intros Hi. specialize (IH i Hi). lia.
Qed.

Lemma list_sum_ones (f : task -> nat) (l : list task) :
  (forall i t, l !! i = Some t -> f t = 1%nat) ->
  list_sum (map f l) = length l.
Proof.
  induction l as [| x l IH]; intros Hall; simpl; [reflexivity |].
  rewrite (Hall 0%nat x eq_refl), IH; [reflexivity |].
  intros i t Hi. apply (Hall (S i) t Hi).
Qed.

Lemma refusals_first_messages : refusals (first_messages n g w0) = 0%nat.
Proof.
  unfold refusals, first_messages. cbn [tasks].
  induction n as [| m IH]; simpl; [reflexivity | exact IH].
Qed.

Lemma inv_init :
  no_handle g w0 -> lock_held g w0 = false ->
  inv create w0 g n (first_messages n g w0).
Proof.
  intros Hno Hfree.
  assert (Hlk : forall j t,
    replicate n {| group_id := g; thread_id := None; pos := AtEntry |} !! j = Some t ->
    t = {| group_id := g; thread_id := None; pos := AtEntry |}).
  { intros j t [-> _]%lookup_replicate. reflexivity. }
  split; rewrite ?refusals_first_messages; unfold first_messages; cbn [tasks shared].
  - reflexivity.
  - apply length_replicate.
  - intros j t ->%Hlk. split; reflexivity.
  - intros i j ti tj ->%Hlk. discriminate.
  - rewrite Hfree. split; [discriminate |].
    intros (i & t & ->%Hlk & Hh). discriminate.
  - intros i Hi. lia.
  - exists Before. split.
    + intros j t ->%Hlk. exact I.
    + cbn [phase_ok]. split; [lia | split; [exact Hno | reflexivity]].
Qed.

Lemma insert_lookup (l : list task) i t' j tj :
  <[i := t']> l !! j = Some tj ->
  (j = i /\ tj = t') \/ (j <> i /\ l !! j = Some tj).
Proof.
  intros [(-> & -> & _) | [? ?]]%list_lookup_insert_Some; auto.
Qed.

(** What a move leaves alone. *)
Lemma step_frame t w t' w' :
  step create t w = Some (t', w') ->
  group_id t' = group_id t /\ thread_id t' = thread_id t /\
  all_bots (mgr w') = all_bots (mgr w).
Proof.
  unfold step.
  destruct (pos t) as [| | | id | r | r].
  - destruct (lock_held _ _); [discriminate |]. intros [= <- <-].
    unfold set_lock, get_thread_lock, with_locks.
    destruct (thread_locks (mgr w) !! group_id t); repeat split; reflexivity.
  - destruct (get_thread_id _ _) as [[| c ex] |];
      destruct (thread_id t) as [[| c' hint] |] eqn:Hh; intros [= <- <-];
      cbn [goto group_id thread_id]; rewrite ?Hh; repeat split; reflexivity.
  - destruct (all_bots (mgr w)) eqn:Hb;
      [intros [= <- <-]; rewrite ?Hb; repeat split; reflexivity |].
    destruct (create (creations w)) as [| [[| c id] |]]; intros [= <- <-];
      cbn [count_creation mgr]; rewrite ?Hb; repeat split; reflexivity.
  - intros [= <- <-]; repeat split; reflexivity.
  - intros [= <- <-]; repeat split; reflexivity.
  - discriminate.
Qed.

(** The lock of the group across a move. *)
Lemma step_lock t w t' w' :
  step create t w = Some (t', w') ->
  match holding (pos t), holding (pos t') with
  | false, true => lock_held (group_id t) w = false /\ lock_held (group_id t) w' = true
  | true, true => lock_held (group_id t) w' = lock_held (group_id t) w
  | true, false => lock_held (group_id t) w' = false
  | false, false => False
  end.
Proof.
  unfold step.
  destruct (pos t) as [| | | id | r | r] eqn:Hpos.
  - destruct (lock_held _ (get_thread_lock _ _)) eqn:Hl; [discriminate |].
    intros [= <- <-]. cbn [goto pos holding].
    rewrite lock_held_get_thread_lock in Hl. split; [exact Hl |].
    apply lock_held_set_lock.
  - destruct (get_thread_id _ _) as [[| c ex] |];
      destruct (thread_id t) as [[| c' hint] |]; intros [= <- <-]; reflexivity.
  - destruct (all_bots (mgr w)); [intros [= <- <-]; reflexivity |].
    destruct (create (creations w)) as [| [[| c id] |]]; intros [= <- <-]; reflexivity.
  - intros [= <- <-]; reflexivity.
  - intros [= <- <-]. cbn [goto pos holding]. apply lock_held_set_lock.
  - discriminate.
Qed.

Lemma get_thread_id_locks g' l w :
  get_thread_id g' (with_locks l w) = get_thread_id g' w.
Proof. reflexivity. Qed.

Lemma no_handle_entry g' w :
  get_thread_id g (set_lock g' true (get_thread_lock g' w)) = get_thread_id g w.
Proof.
  unfold set_lock, get_thread_lock.
  destruct (thread_locks (mgr w) !! g'); reflexivity.
Qed.

Lemma creations_entry g' w :
  creations (set_lock g' true (get_thread_lock g' w)) = creations w.
Proof.
  unfold set_lock, get_thread_lock.
  destruct (thread_locks (mgr w) !! g'); reflexivity.
Qed.

Lemma dicts_entry g' w :
  dicts (set_lock g' true (get_thread_lock g' w)) = dicts w.
Proof.
  unfold set_lock, get_thread_lock.
  destruct (thread_locks (mgr w) !! g'); reflexivity.
Qed.

Lemma usable_cons cr x :
  usable cr = Some x -> exists c id, x = c :: id.
Proof.
  destruct cr as [| [[| c id] |]]; cbn; try discriminate. intros [= <-]. eauto.
Qed.

(** The phase and the number of failed requests across a move of
    coroutine [t]. *)
Lemma step_phase t w t' w' ph k :
  step create t w = Some (t', w') ->
  group_id t = g -> thread_id t = None ->
  all_bots (mgr w) = all_bots (mgr w0) ->
  (holding (pos t) = true -> lock_held g w = true) ->
  allowed ph (pos t) ->
  phase_ok create w0 g ph k w ->
  (forall i, (i < k)%nat -> usable (create (creations w0 + i)%nat) = None) ->
  exists ph' k',
    (k' + tally (pos t) = k + tally (pos t'))%nat /\
    allowed ph' (pos t') /\ phase_ok create w0 g ph' k' w' /\
    (forall i, (i < k')%nat -> usable (create (creations w0 + i)%nat) = None) /\
    (ph' = ph \/ (holding (pos t) = true /\ forall x, ph <> Stored x)).
Proof.
  intros Hstep Hg Hhint Hbots Hheld Hal Hok Hfail.
  revert Hstep. unfold step. rewrite Hg, Hhint, Hbots.
  destruct (pos t) as [| | | id | r | r] eqn:Hpos.
  - destruct (lock_held _ (get_thread_lock _ _)) eqn:Hl; [discriminate |].
    intros [= <- <-]. cbn [goto pos holding] in *.
    rewrite lock_held_get_thread_lock in Hl.
    destruct ph as [| x | x]; cbn [phase_ok allowed] in *.
    + exists Before, k. cbn [phase_ok allowed].
      split; [reflexivity |]. split; [exact I |]. split; [| auto].
      unfold no_handle in *. rewrite no_handle_entry, creations_entry, dicts_entry.
      exact Hok.
    + destruct Hok as (_ & _ & Hlocked & _). congruence.
    + exists (Stored x), k. cbn [phase_ok allowed].
      split; [reflexivity |]. split; [exact I |]. split; [| auto].
      rewrite no_handle_entry, creations_entry. exact Hok.
  - destruct ph as [| x | x]; cbn [phase_ok allowed] in *; try contradiction.
    + destruct Hok as (Hc & Hno & Hd).
      assert (Hnext : match get_thread_id g w with
                      | Some (c :: ex) => False | _ => True end)
        by (destruct Hno as [-> | ->]; exact I).
      destruct (get_thread_id g w) as [[| c ex] |] eqn:Hget; try contradiction;
        intros [= <- <-]; exists Before, k; cbn [goto pos allowed phase_ok];
        (split; [reflexivity |]); (split; [exact I |]); (split; [| auto]);
        repeat split; auto.
    + destruct Hok as (Hc & Hget & Hu). rewrite Hget.
      destruct (usable_cons _ _ Hu) as (c & ex & ->).
      intros [= <- <-]. exists (Stored (c :: ex)), k. cbn [goto pos allowed phase_ok].
      split; [reflexivity |]. split; [reflexivity |]. split; [| auto].
      repeat split; auto.
  - destruct ph as [| x | x]; cbn [phase_ok allowed] in *; try contradiction.
    destruct Hok as (Hc & Hno & Hd).
    destruct (all_bots (mgr w0)) as [| b bots]; [congruence |].
    rewrite Hc.
    assert (Hlost : usable (create (creations w0 + k)%nat) = None ->
      exists ph' k',
        (k' + tally Creating = k + tally (Leaving None))%nat /\
        allowed ph' (Leaving None) /\
        phase_ok create w0 g ph' k' (count_creation w) /\
        (forall i, (i < k')%nat -> usable (create (creations w0 + i)%nat) = None) /\
        (ph' = Before \/ (holding Creating = true /\ forall x, Before <> Stored x))).
    { intros Hu. exists Before, (S k). cbn [phase_ok allowed].
      split; [cbn [tally gave_up]; lia |]. split; [exact I |]. split; [| split; [| auto]].
      - split; [cbn [count_creation creations]; lia |]. split; [exact Hno | exact Hd].
      - intros i Hi. destruct (decide (i = k)) as [-> | Hne]; [exact Hu |].
        apply Hfail. lia. }
    destruct (create (creations w0 + k)%nat) as [| [[| c id] |]] eqn:Hcr;
      intros [= <- <-]; cbn [goto pos];
      try (apply Hlost; reflexivity).
    exists (Made (c :: id)), k. cbn [allowed phase_ok holding].
    split; [reflexivity |]. split; [reflexivity |].
    split; [| split; [exact Hfail | right; split; [reflexivity | discriminate]]].
    split; [cbn [count_creation creations]; lia |]. split; [exact Hno |].
    split; [apply (Hheld eq_refl) | rewrite Hcr; reflexivity].
  - destruct ph as [| x | x]; cbn [phase_ok allowed] in *; try contradiction. subst id.
    intros [= <- <-]. exists (Stored x), k. cbn [goto pos allowed phase_ok holding].
    split; [reflexivity |]. split; [reflexivity |].
    split; [| split; [exact Hfail | right; split; [reflexivity | discriminate]]].
    split; [apply Hok |]. split; [apply get_thread_id_record | apply Hok].
  - destruct r as [x0 |]; destruct ph as [| x | x]; cbn [phase_ok allowed] in *;
      try contradiction.
    + subst x0. intros [= <- <-]. exists (Stored x), k.
      cbn [goto pos allowed phase_ok holding].
      split; [reflexivity |]. split; [reflexivity |]. split; [exact Hok | auto].
    + intros [= <- <-]. exists Before, k. cbn [goto pos allowed phase_ok holding].
      split; [reflexivity |]. split; [exact I |]. split; [exact Hok | auto].
  - discriminate.
Qed.

Lemma idle_allowed ph ph' p :
  allowed ph p -> holding p = false -> (forall x, ph <> Stored x) ->
  allowed ph' p.
Proof.
  destruct p as [| | | id | r | [x |]]; cbn [holding]; try discriminate;
    intros Hal _ Hns.
  - destruct ph'; exact I.
  - destruct ph as [| y | y]; cbn [allowed] in Hal; try contradiction.
    destruct (Hns y eq_refl).
  - destruct ph'; exact I.
Qed.

(** The invariant is kept by every move of every coroutine. *)
Lemma inv_resume i c c' :
  inv create w0 g n c -> resume create i c = Some c' -> inv create w0 g n c'.
Proof.
  intros [Hbots Hlen Hargs Huniq Hlock Hfail (ph & Hall & Hok)].
  unfold resume. destruct (tasks c !! i) as [t |] eqn:Hi; [| discriminate].
  destruct (step create t (shared c)) as [[t' w'] |] eqn:Hstep; [| discriminate].
  intros [= <-].
  destruct (Hargs i t Hi) as [Hg Hhint].
  pose proof (step_frame _ _ _ _ Hstep) as (Hg' & Hhint' & Hbots').
  pose proof (step_lock _ _ _ _ Hstep) as Hl. rewrite Hg in Hl.
  assert (Hheld : holding (pos t) = true -> lock_held g (shared c) = true).
  { intros Hh. apply Hlock. eauto. }
  destruct (step_phase _ _ _ _ ph _ Hstep Hg Hhint Hbots Hheld (Hall i t Hi) Hok Hfail)
    as (ph' & k' & Hk & Hal' & Hok' & Hfail' & Hph).
  assert (Hk' : refusals {| tasks := <[i := t']> (tasks c); shared := w' |} = k').
  { unfold refusals in *. cbn [tasks].
    pose proof (list_sum_insert (fun t => tally (pos t)) _ _ _ t' Hi) as Hsum.
    cbn beta in Hsum. lia. }
  split; rewrite ?Hk'; cbn [tasks shared].
  - congruence.
  - rewrite length_insert. exact Hlen.
  - intros j tj [[-> ->] | [Hne Hj]]%insert_lookup; [split; congruence | eauto].
  - intros a b ta tb [[-> ->] | [Hna Ha]]%insert_lookup
      [[-> ->] | [Hnb Hb]]%insert_lookup Hha Hhb; auto.
    + destruct (holding (pos t)) eqn:Hht.
      * exfalso. apply Hnb. eapply Huniq; eauto.
      * rewrite Hha in Hl. destruct Hl as [Hfree _].
        assert (lock_held g (shared c) = true) by (apply Hlock; eauto).
        congruence.
    + destruct (holding (pos t)) eqn:Hht.
      * exfalso. apply Hna. eapply Huniq; eauto.
      * rewrite Hhb in Hl. destruct Hl as [Hfree _].
        assert (lock_held g (shared c) = true) by (apply Hlock; eauto).
        congruence.
    + eapply Huniq; eauto.
  - split.
    + intros Hw'.
      destruct (holding (pos t')) eqn:Hht'.
      * exists i, t'. split; [| exact Hht'].
        apply list_lookup_insert_eq. apply lookup_lt_Some in Hi. exact Hi.
      * destruct (holding (pos t)) eqn:Hht; [congruence | contradiction].
    + intros (j & tj & [[-> ->] | [Hne Hj]]%insert_lookup & Hhj).
      * rewrite Hhj in Hl. destruct (holding (pos t)) eqn:Hht; [rewrite Hl; auto | apply Hl].
      * destruct (holding (pos t)) eqn:Hht.
        -- exfalso. apply Hne. eapply Huniq; eauto.
        -- assert (lock_held g (shared c) = true) by (apply Hlock; eauto).
           destruct (holding (pos t')); [destruct Hl; congruence | contradiction].
  - exact Hfail'.
  - exists ph'. split; [| exact Hok'].
    intros j tj [[-> ->] | [Hne Hj]]%insert_lookup; [exact Hal' |].
    destruct Hph as [-> | [Hht Hns]]; [eauto |].
    apply (idle_allowed ph); eauto.
    destruct (holding (pos tj)) eqn:Hhj; [| reflexivity].
    exfalso. apply Hne. eapply Huniq; eauto.
Qed.

Lemma inv_exec schedule c :
  inv create w0 g n c -> inv create w0 g n (exec create schedule c).
Proof.
  revert c. induction schedule as [| i rest IH]; intros c Hc; cbn [exec]; [exact Hc |].
  apply IH. destruct (resume create i c) as [c' |] eqn:Hr; cbn; [| exact Hc].
  eapply inv_resume; eauto.
Qed.

(** At every point the provider has been asked once for every coroutine
    that has given up, and at most once more. *)
Lemma inv_creations c :
  inv create w0 g n c ->
  (creations (shared c) <= S (creations w0 + refusals c))%nat.
Proof.
  intros [_ _ _ _ _ _ (ph & _ & Hok)].
  destruct ph; cbn [phase_ok] in Hok; destruct Hok as [-> _]; lia.
Qed.

(** While no request has succeeded, nothing is recorded. *)
Lemma inv_nothing_recorded c :
  inv create w0 g n c ->
  creations (shared c) = (creations w0 + refusals c)%nat ->
  no_handle g (shared c) /\ dicts (shared c) = dicts w0.
Proof.
  intros [_ _ _ _ _ _ (ph & _ & Hok)] Hc.
  destruct ph; cbn [phase_ok] in Hok; [apply Hok | |];
    destruct Hok as [Hc' _]; lia.
Qed.

(** Once every coroutine has returned: either every request has failed,
    or one has succeeded and was the last. *)
Lemma inv_final c :
  (0 < n)%nat -> inv create w0 g n c -> all_returned c = true ->
  ((forall j t, tasks c !! j = Some t -> returned t = Some None) /\
   refusals c = n /\
   creations (shared c) = (creations w0 + n)%nat /\
   no_handle g (shared c) /\
   dicts (shared c) = dicts w0) \/
  (exists h,
     usable (create (creations w0 + refusals c)%nat) = Some h /\
     creations (shared c) = S (creations w0 + refusals c) /\
     get_thread_id g (shared c) = Some h /\
     forall j t, tasks c !! j = Some t ->
       returned t = Some None \/ returned t = Some (Some h)).
Proof.
  intros Hn [Hbots Hlen Hargs Huniq Hlock Hfail (ph & Hall & Hok)] Hret.
  unfold all_returned in Hret. rewrite forallb_forall in Hret.
  assert (Hdone : forall j t, tasks c !! j = Some t -> exists r, pos t = Done r).
  { intros j t Hj. assert (Hin : In t (tasks c)).
    { apply list_elem_of_In, list_elem_of_lookup. eauto. }
    apply Hret in Hin. apply bool_decide_eq_true in Hin as [r Hr].
    unfold returned in Hr. destruct (pos t); try discriminate. eauto. }
  destruct ph as [| h | h]; cbn [phase_ok] in Hok.
  - left. destruct Hok as (Hc & Hno & Hd).
    assert (Hnone : forall j t, tasks c !! j = Some t -> pos t = Done None).
    { intros j t Hj. destruct (Hdone j t Hj) as [r Hr].
      pose proof (Hall j t Hj) as Hal. rewrite Hr in Hal.
      destruct r; cbn [allowed] in Hal; [contradiction | exact Hr]. }
    assert (Hk : refusals c = n).
    { unfold refusals. rewrite <- Hlen. apply list_sum_ones.
      intros j t Hj. rewrite (Hnone j t Hj). reflexivity. }
    split; [| split; [exact Hk | split; [| split; [exact Hno | exact Hd]]]].
    + intros j t Hj. unfold returned. rewrite (Hnone j t Hj). reflexivity.
    + rewrite Hc, Hk. reflexivity.
  - exfalso. destruct Hok as (_ & _ & Hheld & _).
    destruct (proj1 Hlock Hheld) as (i & t & Hi & Hh).
    destruct (Hdone i t Hi) as [r Hr]. rewrite Hr in Hh. discriminate.
  - right. exists h. destruct Hok as (Hc & Hget & Hu).
    split; [exact Hu |]. split; [exact Hc |]. split; [exact Hget |].
    intros j t Hj. destruct (Hdone j t Hj) as [r Hr].
    pose proof (Hall j t Hj) as Hal. rewrite Hr in Hal.
    unfold returned. rewrite Hr.
    destruct r as [x |]; cbn [allowed] in Hal; [subst x; right | left]; reflexivity.
Qed.

(** When the first request succeeds, no coroutine gives up. *)
Lemma first_success h c :
  create (creations w0) = Thread (Some h) -> h <> [] ->
  inv create w0 g n c -> refusals c = 0%nat.
Proof.
  intros Hcreate Hh Hinv.
  destruct (refusals c) as [| k] eqn:Hk; [reflexivity |].
  pose proof (inv_failed _ _ _ _ _ Hinv 0%nat) as Hf.
  rewrite Hk, Nat.add_0_r, Hcreate in Hf.
  destruct h as [| c0 id]; [congruence |].
  cbn [usable] in Hf. discriminate Hf. lia.
Qed.

Lemma step_rank t w t' w' :
  step create t w = Some (t', w') -> (rank (pos t) < rank (pos t'))%nat.
Proof.
  unfold step.
  destruct (pos t) as [| | | id | r | r].
  - destruct (lock_held _ _); [discriminate |]. intros [= <- <-]. cbn. lia.
  - destruct (get_thread_id _ _) as [[| c ex] |];
      destruct (thread_id t) as [[| c' hint] |]; intros [= <- <-]; cbn; lia.
  - destruct (all_bots (mgr w)); [intros [= <- <-]; cbn; lia |].
    destruct (create (creations w)) as [| [[| c id] |]]; intros [= <- <-]; cbn; lia.
  - intros [= <- <-]; cbn; lia.
  - intros [= <- <-]; cbn; lia.
  - discriminate.
Qed.

Lemma rank_le p : (rank p <= 5)%nat.
Proof. destruct p; cbn; lia. Qed.

Lemma progress_bound c : (progress c <= 5 * length (tasks c))%nat.
Proof.
  unfold progress. induction (tasks c) as [| t ts IH]; simpl; [lia |].
  pose proof (rank_le (pos t)). lia.
Qed.

Lemma progress_insert (l : list task) i t t' :
  l !! i = Some t ->
  (list_sum (map (fun t => rank (pos t)) (<[i := t']> l)) + rank (pos t)
   = list_sum (map (fun t => rank (pos t)) l) + rank (pos t'))%nat.
Proof.
  revert i. induction l as [| x l IH]; intros [| i]; simpl; try discriminate.
  - intros [= ->]. lia.
  - intros Hi. specialize (IH i Hi). lia.
Qed.

Lemma resume_progress i c c' :
  resume create i c = Some c' ->
  (progress c < progress c')%nat /\ length (tasks c') = length (tasks c).
Proof.
  unfold resume. destruct (tasks c !! i) as [t |] eqn:Hi; [| discriminate].
  destruct (step create t (shared c)) as [[t' w'] |] eqn:Hstep; [| discriminate].
  intros [= <-]. cbn [tasks]. split; [| apply length_insert].
  unfold progress. cbn [tasks].
  pose proof (progress_insert _ _ _ t' Hi). pose proof (step_rank _ _ _ _ Hstep). lia.
Qed.

(** No deadlock: while a coroutine has not returned, one can move. *)
Lemma inv_can_move c :
  inv create w0 g n c -> all_returned c = false ->
  exists i c', resume create i c = Some c'.
Proof.
  intros Hinv Hret.
  pose proof Hinv as [Hbots Hlen Hargs Huniq Hlock _ (ph & Hall & Hok)].
  assert (Hmove : forall i t, tasks c !! i = Some t ->
    (holding (pos t) = true \/ (pos t = AtEntry /\ lock_held g (shared c) = false)) ->
    exists c', resume create i c = Some c').
  { intros i t Hi Hcan. unfold resume. rewrite Hi.
    destruct (Hargs i t Hi) as [Hg Hhint].
    destruct (step create t (shared c)) as [[t' w'] |] eqn:Hstep; [eauto |].
    exfalso. revert Hstep. unfold step. rewrite Hg.
    destruct (pos t) as [| | | id | r | r] eqn:Hpos.
    - destruct Hcan as [Hh | [_ Hfree]]; [discriminate |].
      rewrite lock_held_get_thread_lock, Hfree. discriminate.
    - destruct (get_thread_id _ _) as [[| c0 ex] |];
        destruct (thread_id t) as [[| c' hint] |]; discriminate.
    - destruct (all_bots (mgr (shared c))); [discriminate |].
      destruct (create (creations (shared c))) as [| [[| c0 id] |]]; discriminate.
    - discriminate.
    - discriminate.
    - destruct Hcan as [Hh | [Hp _]]; discriminate. }
  destruct (lock_held g (shared c)) eqn:Hl.
  - destruct (proj1 Hlock eq_refl) as (i & t & Hi & Hh). exists i. eauto.
  - unfold all_returned in Hret.
    apply not_true_iff_false in Hret. rewrite forallb_forall in Hret.
    assert (Hex : exists t, In t (tasks c) /\ returned t = None).
    { clear -Hret. induction (tasks c) as [| t ts IH].
      - exfalso. apply Hret. intros x [].
      - destruct (returned t) as [r |] eqn:Hr.
        + destruct IH as (x & Hx & Hn).
          { intros Hall. apply Hret. intros x [<- | Hx]; [| auto].
            apply bool_decide_eq_true. rewrite Hr. eauto. }
          exists x. split; [right; exact Hx | exact Hn].
        + exists t. split; [left; reflexivity | exact Hr]. }
    destruct Hex as (t & Hin & Hr).
    apply list_elem_of_In, list_elem_of_lookup in Hin as [i Hi].
    exists i. apply (Hmove i t Hi). right. split; [| reflexivity].
    destruct (holding (pos t)) eqn:Hh.
    + assert (false = true) by (apply Hlock; eauto). discriminate.
    + unfold returned in Hr. destruct (pos t); try discriminate; reflexivity.
Qed.

(** Every run can be brought to the end. *)
Lemma inv_completes k c :
  inv create w0 g n c -> (5 * n - progress c <= k)%nat ->
  exists schedule, all_returned (exec create schedule c) = true.
Proof.
  revert c. induction k as [| k IH]; intros c Hinv Hk.
  - destruct (all_returned c) eqn:Hret; [exists []; exact Hret |].
    destruct (inv_can_move c Hinv Hret) as (i & c' & Hr).
    apply resume_progress in Hr as [Hlt Hlen'].
    pose proof (progress_bound c'). rewrite Hlen', (inv_len _ _ _ _ _ Hinv) in *. lia.
  - destruct (all_returned c) eqn:Hret; [exists []; exact Hret |].
    destruct (inv_can_move c Hinv Hret) as (i & c' & Hr).
    destruct (IH c') as [schedule Hs].
    + eapply inv_resume; eauto.
    + apply resume_progress in Hr as [Hlt _]. lia.
    + exists (i :: schedule). cbn [exec]. rewrite Hr. exact Hs.
Qed.

End Concurrent.

(** C2, as the code has it. Let the group have no handle and a free
    lock, and let a bot be registered. However the event loop
    interleaves [n >= 1] coroutines that resolve the thread of the group
    without a hint, and whatever the provider answers: the first
    requests have failed, as many as coroutines have given up, and the
    provider has been asked at most once more; as long as it has not,
    nothing is recorded; while a coroutine has not returned, one of them
    can move, and every run can be brought to the end. Once all have returned, either every request has failed: the
    provider was asked [n] times, nothing is recorded and all returned
    [None]; or the request after the failed ones gave a thread [h], the
    provider was not asked again, [h] is the recorded handle and every
    coroutine returned [h], but for those that had given up before.
    When the provider answers the first request with a thread [h], then
    it is asked exactly once and every coroutine returns [h]. *)
Theorem first_messages_create_one (create : nat -> creation) (w0 : world)
    (g : Z) (n : nat) :
  all_bots (mgr w0) <> [] ->
  no_handle g w0 ->
  lock_held g w0 = false ->
  (0 < n)%nat ->
  (forall schedule,
     let c := exec create schedule (first_messages n g w0) in
     (forall i, (i < refusals c)%nat ->
        usable (create (creations w0 + i)%nat) = None) /\
     (creations (shared c) <= S (creations w0 + refusals c))%nat /\
     (creations (shared c) = (creations w0 + refusals c)%nat ->
      no_handle g (shared c) /\ dicts (shared c) = dicts w0) /\
     (all_returned c = false -> exists i c', resume create i c = Some c') /\
     (all_returned c = true ->
      ((forall j t, tasks c !! j = Some t -> returned t = Some None) /\
       refusals c = n /\
       creations (shared c) = (creations w0 + n)%nat /\
       no_handle g (shared c) /\
       dicts (shared c) = dicts w0) \/
      (exists h,
         usable (create (creations w0 + refusals c)%nat) = Some h /\
         creations (shared c) = S (creations w0 + refusals c) /\
         get_thread_id g (shared c) = Some h /\
         forall j t, tasks c !! j = Some t ->
           returned t = Some None \/ returned t = Some (Some h)))) /\
  (exists schedule,
     all_returned (exec create schedule (first_messages n g w0)) = true) /\
  (forall h,
     create (creations w0) = Thread (Some h) -> h <> [] ->
     forall schedule,
       let c := exec create schedule (first_messages n g w0) in
       (creations (shared c) <= S (creations w0))%nat /\
       (all_returned c = true ->
        creations (shared c) = S (creations w0) /\
        get_thread_id g (shared c) = Some h /\
        forall j t, tasks c !! j = Some t -> returned t = Some (Some h))).
Proof.
  intros Hbots Hno Hfree Hn.
  pose proof (inv_init create w0 g n Hno Hfree) as Hinit.
  assert (Hinv : forall schedule,
    inv create w0 g n (exec create schedule (first_messages n g w0)))
    by (intros schedule; apply inv_exec; assumption).
  split; [| split].
  - intros schedule c. specialize (Hinv schedule). fold c in Hinv.
    split; [apply (inv_failed _ _ _ _ _ Hinv) |].
    split; [apply (inv_creations create w0 g n); exact Hinv |].
    split; [apply (inv_nothing_recorded create w0 g n); exact Hinv |].
    split.
    + apply inv_can_move with (w0 := w0) (g := g) (n := n); assumption.
    + apply inv_final; assumption.
  - apply inv_completes with (w0 := w0) (g := g) (n := n) (k := (5 * n)%nat);
      try assumption. lia.
  - intros h Hcreate Hh schedule c. specialize (Hinv schedule). fold c in Hinv.
    pose proof (first_success create w0 g n h c Hcreate Hh Hinv) as Hk.
    pose proof (inv_creations create w0 g n c Hinv) as Hle.
    rewrite Hk, Nat.add_0_r in Hle.
    split; [exact Hle |]. intros Hret.
    destruct (inv_final create w0 g n c Hn Hinv Hret)
      as [(_ & Hall & _) | (h' & Hu & Hc & Hget & Hall)]; [lia |].
    rewrite Hk, Nat.add_0_r in Hu, Hc. rewrite Hcreate in Hu.
    destruct h as [| c0 id]; [congruence |]. cbn [usable] in Hu.
    injection Hu as <-.
    split; [exact Hc |]. split; [exact Hget |].
    intros j t Hj. destruct (Hall j t Hj) as [Hr | Hr]; [| exact Hr].
    exfalso.
    pose proof (list_sum_lookup (fun t => tally (pos t)) _ _ _ Hj) as Hsum.
    fold (refusals c) in Hsum. cbn beta in Hsum.
    unfold returned in Hr. destruct (pos t) as [| | | ? | ? | [x |]]; try discriminate.
    cbn in Hsum. lia.
Qed.

Lemma first_messages_create_one_witness :
  no_handle 7 office /\
  (let c := exec (gives (py "thread_1")) [0; 1; 0; 0; 1; 0; 0; 1; 1; 1]%nat
              (first_messages 2 7 office) in
   all_returned c = true /\
   creations (shared c) = 1%nat /\
   get_thread_id 7 (shared c) = Some (py "thread_1") /\
   forall j t, tasks c !! j = Some t -> returned t = Some (Some (py "thread_1"))) /\
  (let c := exec (flaky (py "thread_1")) [0; 1; 0; 0; 0; 1; 1; 1; 1; 1]%nat
              (first_messages 2 7 office) in
   all_returned c = true /\
   refusals c = 1%nat /\
   creations (shared c) = 2%nat /\
   get_thread_id 7 (shared c) = Some (py "thread_1") /\
   forall j t, tasks c !! j = Some t ->
     returned t = Some None \/ returned t = Some (Some (py "thread_1"))).
Proof.
  assert (Hno : no_handle 7 office) by (left; vm_compute; reflexivity).
  assert (Hbots : all_bots (mgr office) <> []) by (vm_compute; discriminate).
  assert (Hfree : lock_held 7 office = false) by (vm_compute; reflexivity).
  assert (Hn : (0 < 2)%nat) by lia.
  split; [exact Hno |]. split.
  - destruct (first_messages_create_one (gives (py "thread_1")) office 7 2
                Hbots Hno Hfree Hn) as (_ & _ & Hfirst).
    intros c.
    assert (Hret : all_returned c = true) by (vm_compute; reflexivity).
    split; [exact Hret |].
    assert (Hne : py "thread_1" <> []) by (vm_compute; discriminate).
    destruct (Hfirst (py "thread_1") eq_refl Hne
                [0; 1; 0; 0; 1; 0; 0; 1; 1; 1]%nat) as (_ & Hend).
    exact (Hend Hret).
  - destruct (first_messages_create_one (flaky (py "thread_1")) office 7 2
                Hbots Hno Hfree Hn) as (Hall & _ & _).
    intros c.
    assert (Hret : all_returned c = true) by (vm_compute; reflexivity).
    assert (Hk : refusals c = 1%nat) by (vm_compute; reflexivity).
    split; [exact Hret |]. split; [exact Hk |].
    destruct (Hall [0; 1; 0; 0; 0; 1; 1; 1; 1; 1]%nat) as (_ & _ & _ & _ & Hend).
    destruct (Hend Hret) as [(_ & Hbad & _) | (h & Hu & Hc & Hget & Hrets)].
    + fold c in Hbad. rewrite Hk in Hbad. discriminate.
    + fold c in Hu, Hc, Hget, Hrets. rewrite Hk in Hu, Hc.
      vm_compute in Hu. injection Hu as <-.
      split; [exact Hc |]. split; [exact Hget | exact Hrets].
Defined.

(** C2, as stated, fails: with the provider down, two first messages
    both ask it, no thread is created and both coroutines return [None]. *)
Lemma no_thread_when_provider_is_down :
  let c := exec refuses [0; 0; 0; 0; 1; 1; 1; 1]%nat (first_messages 2 7 office) in
  all_returned c = true /\
  map returned (tasks c) = [Some None; Some None] /\
  get_thread_id 7 (shared c) = None /\
  creations (shared c) = 2%nat.
Proof. vm_compute. repeat split; reflexivity. Qed.

End ManagerFacts.

(* ===================================================================== *)
(** ** Properties of the rest of the code *)
(* ===================================================================== *)

Module ParagraphFacts.

Import Handler ReObs ReformatFacts Paragraphs.

(** A match ends inside the text. *)
Lemma match_here_bound p s pos opened caps len caps' :
  match_here p s pos opened caps = Some (len, caps') ->
  (pos <= len <= pos + length s)%nat.
Proof.
  revert s pos opened caps. induction p as [| a p IH]; intros s pos opened caps.
  - cbn. intros [= <- <-]. lia.
  - destruct a as [cs | cs | cs | |]; cbn [match_here].
    + destruct s as [| c s]; [discriminate |].
      destruct (in_cset cs c); [| discriminate].
      intros H. apply IH in H. cbn [length]. lia.
    + intros (k & Hk & H)%greedy_some. apply IH in H.
      rewrite length_drop in H. pose proof (span_le cs s). lia.
    + intros (k & Hk & H)%greedy_some. apply IH in H.
      rewrite length_drop in H. pose proof (span_le cs s). lia.
    + intros H. apply IH in H. exact H.
    + intros H. apply IH in H. exact H.
Qed.

Lemma match_at_bound p s len caps :
  match_at p s = Some (len, caps) -> (len <= length s)%nat.
Proof. intros H. apply match_here_bound in H. lia. Qed.

Lemma match_flat q r s pos opened caps res :
  flat q = true ->
  match_here (q ++ r) s pos opened caps = Some res ->
  exists s' pos', match_here r s' pos' opened caps = Some res.
Proof.
  intros Hq. revert s pos.
  induction q as [| a q IH]; intros s pos; [cbn [app]; eauto |].
  cbn [flat forallb] in Hq. apply andb_prop in Hq as [Ha Hq].
  destruct a as [cs | cs | cs | |]; try discriminate; cbn [app match_here].
  - destruct s as [| c s]; [discriminate |].
    destruct (in_cset cs c); [| discriminate]. apply (IH Hq).
  - intros (k & _ & H)%greedy_some. apply (IH Hq) in H. exact H.
  - intros (k & _ & H)%greedy_some. apply (IH Hq) in H. exact H.
Qed.

(** A pattern that is one group: the group is the whole match. *)
Lemma match_whole_group q s len caps :
  flat q = true ->
  match_at (Open :: q ++ [Close]) s = Some (len, caps) -> caps = [(0%nat, len)].
Proof.
  intros Hq H. unfold match_at in H. cbn [match_here] in H.
  apply (match_flat q [Close]) in H as (s' & pos' & H); [| exact Hq].
  cbn in H. injection H as <- <-. reflexivity.
Qed.

(** Joining the pieces of a split by a one-group pattern gives the text
    back. *)
Lemma concat_split_go q s k cur :
  flat q = true -> (k <= length s)%nat ->
  concat (split_go (Open :: q ++ [Close]) s k cur) = cur ++ drop k s.
Proof.
  intros Hq. revert k cur. induction s as [| c s IH]; intros k cur Hk.
  - destruct k; [| cbn [length] in Hk; lia]. cbn [split_go].
    destruct (match_at _ []) as [[len caps] |] eqn:Hm.
    + pose proof (match_at_bound _ _ _ _ Hm) as Hlen. cbn [length] in Hlen.
      apply match_whole_group in Hm; [| exact Hq]. subst caps.
      replace len with 0%nat by lia. cbn. rewrite app_nil_r. reflexivity.
    + cbn. rewrite !app_nil_r. reflexivity.
  - destruct k as [| k]; cbn [split_go].
    + destruct (match_at _ (c :: s)) as [[len caps] |] eqn:Hm.
      * pose proof (match_at_bound _ _ _ _ Hm) as Hlen. cbn [length] in Hlen.
        apply match_whole_group in Hm; [| exact Hq]. subst caps.
        cbn [groups map fst snd concat app]. rewrite Nat.sub_0_r, drop_0.
        destruct len as [| len].
        -- rewrite IH by lia. cbn. reflexivity.
        -- rewrite IH by lia. cbn [app firstn]. rewrite take_drop. reflexivity.
      * rewrite IH by lia. rewrite <- app_assoc. reflexivity.
    + cbn [length] in Hk. rewrite IH by lia. reflexivity.
Qed.

Lemma enumerate_loop {A} (h : nat -> A -> nat * A) (l acc : list A) :
  (forall i x, snd (h i x) = x) ->
  foldl (fun acc ip =>
           if (fst ip mod 2 =? 1)%nat then acc ++ [snd ip] else acc ++ [snd ip])
        acc (imap h l) = acc ++ l.
Proof.
  revert h acc. induction l as [| x l IH]; intros h acc Hh.
  - cbn. rewrite app_nil_r. reflexivity.
  - cbn [imap foldl]. rewrite Hh.
    assert (Hstep : (if (fst (h 0%nat x) mod 2 =? 1)%nat then acc ++ [x] else acc ++ [x])
                    = acc ++ [x]) by (destruct (_ =? _)%nat; reflexivity).
    rewrite Hstep, IH by (intros; apply Hh). rewrite <- app_assoc. reflexivity.
Qed.

(** ** Splitting at blank lines *)

Lemma blank_match s :
  match_at re_blank_line s =
  match s with
  | c :: rest =>
      if (c_nl =? c) && (0 <? span (Chr c_nl) rest)%nat
      then Some (S (span (Chr c_nl) rest), []) else None
  | [] => None
  end.
Proof.
  unfold match_at, re_blank_line. cbn [match_here]. destruct s as [| c rest]; [reflexivity |].
  cbn [in_cset]. destruct (c_nl =? c); [| reflexivity]. cbn [andb].
  destruct (span (Chr c_nl) rest) as [| n] eqn:Hn.
  - reflexivity.
  - cbn [Nat.ltb Nat.leb greedy]. reflexivity.
Qed.

Lemma blank_starts s :
  starts_with paragraph_break s =
  match s with
  | c :: rest => (c_nl =? c) && (0 <? span (Chr c_nl) rest)%nat
  | [] => false
  end.
Proof.
  destruct s as [| c rest]; [reflexivity |]. unfold paragraph_break.
  cbn [starts_with]. change 10 with c_nl. destruct (c_nl =? c); [| reflexivity].
  cbn [andb]. destruct rest as [| d rest]; [reflexivity |].
  cbn [starts_with span in_cset]. destruct (c_nl =? d); reflexivity.
Qed.

Lemma blank_match_starts s :
  match_at re_blank_line s = None <-> starts_with paragraph_break s = false.
Proof.
  rewrite blank_match, blank_starts. destruct s as [| c rest]; [tauto |].
  destruct ((c_nl =? c) && _); split; congruence.
Qed.

(** A text without a blank line is one piece. *)
Lemma split_unbroken s cur :
  contains paragraph_break s = false ->
  split_go re_blank_line s 0 cur = [cur ++ s].
Proof.
  revert cur. induction s as [| c s IH]; intros cur H.
  - cbn. rewrite app_nil_r. reflexivity.
  - cbn [contains] in H. apply orb_false_elim in H as [Hh Ht].
    cbn [split_go]. apply blank_match_starts in Hh. rewrite Hh.
    rewrite (IH _ Ht), <- app_assoc. reflexivity.
Qed.

Lemma contains_snoc l c :
  contains paragraph_break (l ++ [c]) =
  contains paragraph_break l ||
  match last l with
  | Some x => (c_nl =? x) && (c_nl =? c)
  | None => false
  end.
Proof.
  unfold paragraph_break. change 10 with c_nl.
  induction l as [| x l IH]; cbn [app contains].
  - cbn. rewrite !andb_false_r. reflexivity.
  - rewrite IH. destruct l as [| y l].
    + cbn. rewrite !andb_false_r, !orb_false_r, andb_true_r. reflexivity.
    + cbn [app starts_with last]. rewrite !andb_true_r.
      rewrite orb_assoc. reflexivity.
Qed.

(** No piece of a split at blank lines holds a blank line. *)
Lemma split_pieces s k cur :
  (* the piece under construction has no blank line and does not end in a
     newline that the text continues *)
  contains paragraph_break cur = false ->
  (k = 0%nat ->
   match last cur, s with
   | Some x, c :: _ => (c_nl =? x) && (c_nl =? c) = false
   | _, _ => True
   end) ->
  (k <> 0%nat -> cur = []) ->
  Forall (fun p => contains paragraph_break p = false)
         (split_go re_blank_line s k cur).
Proof.
  revert k cur. induction s as [| c s IH]; intros k cur Hcur Hlast Hskip.
  - destruct k; cbn; repeat constructor; auto.
  - destruct k as [| k]; cbn [split_go].
    + rewrite blank_match.
      destruct ((c_nl =? c) && (0 <? span (Chr c_nl) s)%nat) eqn:Hm.
      * cbn [groups map app]. constructor; [exact Hcur |].
        apply IH; [reflexivity | | reflexivity].
        intros _. exact I.
      * apply IH.
        -- rewrite contains_snoc, Hcur. cbn [orb].
           specialize (Hlast eq_refl). destruct (last cur); [exact Hlast | reflexivity].
        -- intros _. rewrite last_snoc. destruct s as [| d s]; [exact I |].
           destruct (c_nl =? c) eqn:Hc; [| reflexivity]. cbn [andb] in *.
           cbn [span in_cset] in Hm. destruct (c_nl =? d); [discriminate | reflexivity].
        -- intros []. reflexivity.
    + assert (cur = []) as -> by (apply Hskip; discriminate).
      apply IH; [reflexivity | | reflexivity].
      intros _. exact I.
Qed.

(** Splitting at the pin titles and joining again gives the text back. *)
Lemma pin_titles_rejoin (text : list N) :
  concat (split re_pin_title text) = text.
Proof.
  unfold split.
  change re_pin_title with
    (Open :: [One (Chr c_pin); Plus Space; Plus (NoneOf [c_colon]); Star Space;
              One (Chr c_colon)] ++ [Close]).
  rewrite concat_split_go by (reflexivity || lia). rewrite drop_0. reflexivity.
Qed.

Ltac skip_pin_titles :=
  unfold clean_text_and_split, enumerate;
  rewrite (enumerate_loop pair) by reflexivity; cbn [app];
  rewrite pin_titles_rejoin.

(** X1. The pin-title step of [clean_text_and_split] changes nothing: the
    result is the list of the non-blank pieces between runs of two or
    more newlines. *)
Theorem clean_text_and_split_pieces (text : list N) :
  clean_text_and_split text =
  List.filter (fun p => truthy (strip p)) (split re_blank_line text).
Proof.
  unfold clean_text_and_split, enumerate.
  rewrite (enumerate_loop pair) by reflexivity. cbn [app].
  rewrite pin_titles_rejoin. reflexivity.
Qed.

(** X2. No paragraph that [clean_text_and_split] returns is blank, and none
    holds two newlines in a row. *)
Theorem clean_text_and_split_paragraphs (text : list N) :
  Forall (fun p => truthy (strip p) = true /\ contains paragraph_break p = false)
         (clean_text_and_split text).
Proof.
  skip_pin_titles. apply Forall_forall. intros p Hp.
  apply list_elem_of_In, filter_In in Hp as [Hin Hp]. split; [exact Hp |].
  assert (H : Forall (fun p => contains paragraph_break p = false)
                     (split re_blank_line text)).
  { apply split_pieces; [reflexivity | intros _; exact I | congruence]. }
  rewrite Forall_forall in H. apply H, list_elem_of_In, Hin.
Qed.

(** X3. A text without two newlines in a row comes back whole, with its
    spaces, as the only paragraph, unless it is blank. *)
Theorem clean_text_and_split_unbroken (text : list N) :
  contains paragraph_break text = false ->
  clean_text_and_split text = if truthy (strip text) then [text] else [].
Proof.
  intros H. skip_pin_titles. unfold split.
  rewrite (split_unbroken text [] H). cbn [app List.filter].
  destruct (truthy (strip text)); reflexivity.
Qed.

Lemma clean_text_and_split_unbroken_witness :
  contains paragraph_break (py "  Hola
mundo ") = false /\
  clean_text_and_split (py "  Hola
mundo ") = [py "  Hola
mundo "].
Proof.
  split; [vm_compute; reflexivity |].
  apply (clean_text_and_split_unbroken (py "  Hola
mundo ")). vm_compute. reflexivity.
Defined.

End ParagraphFacts.

Module StoreFacts.

Import Handler Manager ManagerObs StoreObs ManagerFacts.

(** X4. The name of a user: what was saved last for the group is what is
    read; other groups, the handles and the locks are not touched; and a
    group without saved data has the empty name. *)
Theorem user_name_round_trip (g : Z) (name other : list N) (w : world) :
  get_user_name g (save_user_info g name w) = name /\
  get_user_name g (save_user_info g name (save_user_info g other w)) = name /\
  (forall g', g' <> g ->
     get_user_name g' (save_user_info g name w) = get_user_name g' w) /\
  (forall g', get_thread_id g' (save_user_info g name w) = get_thread_id g' w) /\
  (forall g', lock_held g' (save_user_info g name w) = lock_held g' w) /\
  (user_data (mgr w) !! g = None -> get_user_name g w = []).
Proof.
  unfold get_user_name, save_user_info. cbn [mgr user_data].
  repeat split.
  - rewrite lookup_insert_eq. cbn. rewrite lookup_insert_eq. reflexivity.
  - rewrite lookup_insert_eq. cbn. rewrite lookup_insert_eq. reflexivity.
  - intros g' Hg. rewrite lookup_insert_ne by congruence. reflexivity.
  - intros ->. reflexivity.
Qed.

Lemma user_name_round_trip_witness :
  user_data (mgr office) !! 8%Z = None /\ get_user_name 8%Z office = [] /\
  get_user_name 8%Z (save_user_info 8%Z (py "Luz") office) = py "Luz" /\
  get_user_name 7%Z (save_user_info 8%Z (py "Luz") office) = py "Ana".
Proof.
  destruct (user_name_round_trip 8%Z (py "Luz") [] office) as (H1 & _ & H3 & _ & _ & H6).
  split; [vm_compute; reflexivity |].
  split; [apply H6; vm_compute; reflexivity |].
  split; [exact H1 |].
  rewrite H3 by discriminate. vm_compute. reflexivity.
Defined.

Lemma usable_end_conversation g w :
  usable_handles w -> usable_handles (snd (end_conversation g w)).
Proof.
  intros Hw. unfold end_conversation. destruct (is_active g w); [| exact Hw].
  unfold usable_handles. cbn [snd with_dicts dicts]. intros l g' h.
  rewrite purge_lookup. case_decide; [discriminate |].
  rewrite deref_dict_del. case_decide; [discriminate |]. apply Hw.
Qed.

Section Resolve.

Variable create : nat -> creation.

Lemma step_usable t w t' w' :
  usable_handles w -> storing_usable t ->
  step create t w = Some (t', w') -> usable_handles w' /\ storing_usable t'.
Proof.
  intros Hw Ht. unfold step, storing_usable in *.
  destruct (pos t) as [| | | id | r | r] eqn:Hpos.
  - destruct (lock_held _ _); [discriminate |]. intros [= <- <-].
    split; [| exact I].
    unfold set_lock, get_thread_lock, with_locks.
    destruct (thread_locks (mgr w) !! group_id t); exact Hw.
  - destruct (get_thread_id _ _) as [[| c ex] |];
      destruct (thread_id t) as [[| c' hint] |]; intros [= <- <-];
      (split; [| exact I]); try exact Hw;
      intros l g h; rewrite record_thread_lookup; case_decide;
        try (intros [= <-]; discriminate); apply Hw.
  - destruct (all_bots (mgr w)); [intros [= <- <-]; split; [exact Hw | exact I] |].
    destruct (create (creations w)) as [| [[| c id] |]]; intros [= <- <-];
      (split; [exact Hw |]); cbn; try exact I; discriminate.
  - intros [= <- <-]. split; [| exact I]. intros l g h. rewrite record_thread_lookup.
    case_decide; [| apply Hw]. intros [= <-]. exact Ht.
  - intros [= <- <-]. split; [exact Hw | exact I].
  - discriminate.
Qed.

Lemma exec_usable schedule c :
  usable_handles (shared c) -> Forall storing_usable (tasks c) ->
  usable_handles (shared (exec create schedule c)).
Proof.
  revert c. induction schedule as [| i schedule IH]; intros c Hw Ht; [exact Hw |].
  cbn [exec]. unfold resume.
  destruct (tasks c !! i) as [t |] eqn:Hi; [| cbn; apply IH; assumption].
  destruct (step create t (shared c)) as [[t' w'] |] eqn:Hs; [| cbn; apply IH; assumption].
  cbn [default]. rewrite Forall_lookup in Ht.
  destruct (step_usable _ _ _ _ Hw (Ht _ _ Hi) Hs) as [Hw' Ht'].
  apply IH; cbn [shared tasks]; [exact Hw' |].
  apply Forall_insert; [apply Forall_lookup; exact Ht | exact Ht'].
Qed.

End Resolve.

(** X5. The manager records usable handles only: if every recorded handle
    is a non-empty string, so it is after any interleaving of calls of
    [set_thread_id] (whatever the hints and whatever the provider
    answers), after [end_conversation] and after [save_user_info]; and
    then [is_active] holds of a group exactly when [get_thread_id] gives
    a non-empty handle. *)
Theorem handles_stay_usable (create : nat -> creation) (w : world) :
  usable_handles w ->
  (forall calls schedule,
     usable_handles (shared (exec create schedule (entering calls w)))) /\
  (forall g, usable_handles (snd (end_conversation g w))) /\
  (forall g name, usable_handles (save_user_info g name w)) /\
  (forall g, is_active g w = true <->
             exists h, get_thread_id g w = Some h /\ h <> []).
Proof.
  intros Hw. repeat split.
  - intros calls schedule. apply exec_usable; [exact Hw |].
    unfold entering. cbn [tasks]. apply Forall_forall.
    intros t (c & -> & _)%list_elem_of_fmap. exact I.
  - intros g. apply usable_end_conversation, Hw.
  - intros g name. exact Hw.
  - unfold is_active, get_thread_id. intros H. apply bool_decide_eq_true in H as [h Hh].
    exists h. split; [exact Hh | apply (Hw _ _ _ Hh)].
  - unfold is_active, get_thread_id. intros (h & Hh & _).
    apply bool_decide_eq_true. eauto.
Qed.

Lemma usable_office : usable_handles office.
Proof. intros l g h. vm_compute. discriminate. Qed.

Lemma handles_stay_usable_witness :
  usable_handles
    (shared (exec (gives []) [0; 1; 0; 0; 1; 0; 0; 1; 1; 1]%nat
               (entering [(7%Z, None); (7%Z, Some [])] office))) /\
  is_active 7%Z office = false.
Proof.
  destruct (handles_stay_usable (gives []) office usable_office) as (H1 & _ & _ & H4).
  split; [apply H1 |].
  destruct (is_active 7%Z office) eqn:E; [| reflexivity].
  apply H4 in E as (h & Hh & _). vm_compute in Hh. discriminate.
Defined.

(** X6. Run on its own with the lock of the group free, [set_thread_id]
    returns, with the lock free again and the user data untouched, after
    at most one request to the provider. A handle it returns is non-empty
    and is what [get_thread_id] gives from then on; when it returns
    [None], no dict has changed. *)
Theorem set_thread_id_agrees (create : nat -> creation) (g : Z)
    (hint : option (list N)) (w : world) :
  lock_held g w = false ->
  exists r w',
    set_thread_id create g hint w = Some (r, w') /\
    lock_held g w' = false /\
    user_data (mgr w') = user_data (mgr w) /\
    (creations w' <= S (creations w))%nat /\
    match r with
    | Some h => h <> [] /\ get_thread_id g w' = Some h
    | None => dicts w' = dicts w
    end.
Proof.
  intros Hfree.
  assert (Hentry :
    step create {| group_id := g; thread_id := hint; pos := AtEntry |} w
    = Some ({| group_id := g; thread_id := hint; pos := Locked |},
            set_lock g true (get_thread_lock g w))).
  { unfold step. cbn [pos group_id]. rewrite lock_held_get_thread_lock, Hfree. reflexivity. }
  set (w1 := set_lock g true (get_thread_lock g w)) in *.
  assert (Hget : get_thread_id g w1 = get_thread_id g w).
  { unfold w1, get_thread_id, set_lock, get_thread_lock, with_locks.
    destruct (thread_locks (mgr w) !! g); reflexivity. }
  assert (Hframe : dicts w1 = dicts w /\ creations w1 = creations w /\
                   all_bots (mgr w1) = all_bots (mgr w) /\
                   user_data (mgr w1) = user_data (mgr w)).
  { unfold w1, set_lock, get_thread_lock, with_locks.
    destruct (thread_locks (mgr w) !! g); repeat split; reflexivity. }
  destruct Hframe as (Hd & Hc & Hb & Hu).
  unfold set_thread_id. cbn [run pos]. rewrite Hentry. cbn [run pos].
  unfold step at 1. cbn [pos group_id goto thread_id]. rewrite Hget.
  destruct (get_thread_id g w) as [[| e ex] |] eqn:Hold.
  1, 3: destruct hint as [[| c hint] |].
  all: cbn [run pos goto step group_id thread_id].
  all: try rewrite Hb; try rewrite Hc.
  all: try (destruct (all_bots (mgr w)) as [| b bots] eqn:Hbots;
            [| destruct (create (creations w)) as [| [[| c' id] |]]]);
       cbn [run pos goto step group_id thread_id].
  all: eexists _, _; (split; [reflexivity |]).
  all: (split; [apply lock_held_set_lock |]).
  all: (split; [exact Hu || (cbn [set_lock with_locks mgr user_data count_creation
                                   record_thread with_dicts]; exact Hu) |]).
  all: (split; [cbn [set_lock with_locks creations count_creation record_thread
                     with_dicts]; lia |]).
  all: try (cbn [set_lock with_locks dicts count_creation]; exact Hd).
  all: split; try discriminate.
  all: try (unfold get_thread_id; cbn [set_lock with_locks mgr dicts threads];
            apply get_thread_id_record).
  all: exact Hget.
Qed.

Lemma set_thread_id_agrees_witness :
  lock_held 7 office = false /\
  exists w', set_thread_id (gives (py "thread_N")) 7 None office
             = Some (Some (py "thread_N"), w') /\
             get_thread_id 7 w' = Some (py "thread_N").
Proof.
  split; [vm_compute; reflexivity |].
  destruct (set_thread_id_agrees (gives (py "thread_N")) 7 None office)
    as (r & w' & Hrun & _ & _ & _ & Hr); [vm_compute; reflexivity |].
  exists w'.
  assert (Hsome : r = Some (py "thread_N")).
  { vm_compute in Hrun. injection Hrun as <- _. reflexivity. }
  subst r. split; [exact Hrun | apply Hr].
Defined.

(** X7. Once a conversation is ended the group is inactive, and ending it
    again returns [False] and changes nothing. *)
Theorem end_conversation_twice (g : Z) (w : world) :
  is_active g (snd (end_conversation g w)) = false /\
  end_conversation g (snd (end_conversation g w))
    = (false, snd (end_conversation g w)).
Proof.
  assert (H : is_active g (snd (end_conversation g w)) = false).
  { unfold end_conversation. destruct (is_active g w) eqn:Ha; [| exact Ha].
    cbn [snd]. unfold is_active, get_thread_id. cbn [with_dicts dicts mgr].
    apply bool_decide_eq_false. rewrite purge_lookup.
    case_decide; [intros [? [=]] |].
    rewrite deref_dict_del, decide_True by auto. intros [? [=]]. }
  split; [exact H |].
  unfold end_conversation at 1. rewrite H. reflexivity.
Qed.

End StoreFacts.

Module TurnFacts.

Import Handler HandlerObs TurnObs HandlerFacts.

(** ** [str.strip] *)

Lemma lstrip_length s : (length (lstrip s) <= length s)%nat.
Proof.
  induction s as [| c s IH]; cbn [lstrip length]; [lia |].
  destruct (is_space c); cbn [length]; lia.
Qed.

Lemma lstrip_suffix s : exists pre, s = pre ++ lstrip s.
Proof.
  induction s as [| c s [pre IH]]; [exists []; reflexivity |].
  cbn [lstrip]. destruct (is_space c).
  - exists (c :: pre). cbn [app]. rewrite <- IH. reflexivity.
  - exists []. reflexivity.
Qed.

Lemma lstrip_head s : match lstrip s with c :: _ => is_space c = false | [] => True end.
Proof.
  induction s as [| c s IH]; [exact I |]. cbn [lstrip].
  destruct (is_space c) eqn:Hc; [exact IH | exact Hc].
Qed.

Lemma lstrip_fixed s :
  match s with c :: _ => is_space c = false | [] => True end -> lstrip s = s.
Proof. destruct s as [| c s]; [reflexivity |]. cbn [lstrip]. intros ->. reflexivity. Qed.

Lemma strip_twice s : strip (strip s) = strip s.
Proof.
  unfold strip.
  set (y := lstrip s).
  assert (Hy : match y with c :: _ => is_space c = false | [] => True end)
    by apply lstrip_head.
  destruct (lstrip_suffix (rev y)) as [pre Hpre].
  assert (Hpref : y = rev (lstrip (rev y)) ++ rev pre).
  { rewrite <- rev_app_distr, <- Hpre, rev_involutive. reflexivity. }
  assert (Hfix : lstrip (rev (lstrip (rev y))) = rev (lstrip (rev y))).
  { apply lstrip_fixed. destruct (rev (lstrip (rev y))) as [| c t]; [exact I |].
    rewrite Hpref in Hy. exact Hy. }
  rewrite Hfix, rev_involutive.
  rewrite (lstrip_fixed (lstrip (rev y))) by apply lstrip_head. reflexivity.
Qed.

Lemma strip_stripped s : truthy (strip s) = true -> stripped (strip s).
Proof.
  intros H. split; [| apply strip_twice]. destruct (strip s); [discriminate | discriminate].
Qed.

(** ** Composition of steps *)

Lemma steps_refl s : steps s s [] [].
Proof. unfold steps. rewrite !app_nil_r. auto 10. Qed.

Lemma steps_trans s1 s2 s3 e1 e2 m1 m2 :
  steps s1 s2 e1 m1 -> steps s2 s3 e2 m2 -> steps s1 s3 (e1 ++ e2) (m1 ++ m2).
Proof.
  unfold steps. intros (A1 & A2 & A3 & A4 & A5 & A6) (B1 & B2 & B3 & B4 & B5 & B6).
  rewrite B1, B2, B3, B4, B5, B6, A1, A2, A3, A4, A5, A6, !app_assoc. auto 10.
Qed.

Lemma deliveries_app a b : deliveries (a ++ b) = deliveries a ++ deliveries b.
Proof. unfold deliveries. apply flat_map_app. Qed.

Lemma deliveries_map l : deliveries (map Deliver l) = l.
Proof. induction l as [| c l IH]; cbn; [reflexivity | rewrite <- IH at 2; reflexivity]. Qed.

Ltac unfold_turn :=
  cbv beta iota delta
    [function_body try_finally try_except mbind M_bind mret M_ret
     early_return threads_get in_progress_get in_progress_set deliver now sleep
     provider self_assistant_id history_append read_file lift log with_self];
  cbn [dicts self trace].

Section Turn.

Variable E : env.

Lemma deliver_steps c s o s' :
  deliver E c s = (o, s') ->
  steps s s' [Deliver c] [] /\ o = ends_as (send_to_telegram E (trace s) c).
Proof.
  unfold deliver, lift, steps, ends_as.
  destruct (send_to_telegram E (trace s) c) as [[] | e]; intros [= <- <-];
    cbn; rewrite ?app_nil_r; auto 10.
Qed.

(** A delivered chunk goes into the history when the delivery came
    through. *)
Lemma say_steps c s o s' :
  (deliver E c;; history_append (py "assistant") c) s = (o, s') ->
  match o with
  | Val _ => steps s s' [Deliver c] [(py "assistant", c)]
  | Return | Diverge => False
  | Raise _ =>
      steps s s' [Deliver c] [] /\ exists e, send_to_telegram E (trace s) c = Err e
  end.
Proof.
  unfold mbind, M_bind, deliver, lift, history_append, steps.
  destruct (send_to_telegram E (trace s) c) as [[] | e]; intros [= <- <-];
    cbn; rewrite ?app_nil_r; eauto 10.
Qed.


(** The loop over the text deltas: it delivers stripped chunks and
    records each one that came through. *)
Lemma stream_deltas_shape deltas failure buffer acc s o s' :
  stream_deltas E deltas failure buffer acc s = (o, s') ->
  exists dels sent,
    steps s s' (map Deliver dels) (map (pair (py "assistant")) sent) /\
    Forall stripped dels /\
    match o with
    | Val _ => dels = sent
    | Raise _ => all_but_failed E dels sent
    | Return | Diverge => False
    end.
Proof.
  revert buffer acc s. induction deltas as [| d deltas IH]; intros buffer acc s.
  - cbn [stream_deltas]. destruct failure as [e |].
    + intros [= <- <-]. exists [], []. split; [apply steps_refl |].
      split; [constructor | left; reflexivity].
    + intros [= <- <-]. exists [], []. split; [apply steps_refl |]. split; auto.
  - cbn [stream_deltas].
    destruct (contains paragraph_break (buffer ++ d)); [| apply IH].
    set (chunk := strip (acc ++ fst (split_once paragraph_break (buffer ++ d)))).
    destruct (truthy chunk) eqn:Hc.
    + unfold mbind at 1, M_bind at 1.
      destruct ((deliver E chunk;; history_append (py "assistant") chunk) s)
        as [o1 s1] eqn:Hsay.
      apply say_steps in Hsay.
      destruct o1 as [[] | | e |]; try contradiction.
      * intros Hrest. apply IH in Hrest as (dels & sent & Hst & Hall & Ho).
        exists (chunk :: dels), (chunk :: sent).
        split; [apply (steps_trans _ _ _ [_] _ [_] _ Hsay Hst) |].
        split; [constructor; [apply strip_stripped, Hc | exact Hall] |].
        destruct o as [b | | e |]; try contradiction.
        -- subst. reflexivity.
        -- destruct Ho as [-> | (c & tr & e' & -> & Hf)]; [left; reflexivity |].
           right. exists c, tr, e'. split; [reflexivity | exact Hf].
      * destruct Hsay as [Hsay [e' Hf]]. intros [= <- <-]. exists [chunk], [].
        split; [exact Hsay |].
        split; [constructor; [apply strip_stripped, Hc | constructor] |].
        right. exists chunk, (trace s), e'. split; [reflexivity | exact Hf].
    + unfold mbind at 1, M_bind at 1, mret at 1, M_ret at 1. apply IH.
Qed.

(** The text turn past the busy check, event by event. *)
Lemma text_turn_shape g msg tid s o s' :
  handle_of g s = Some tid -> tid <> [] ->
  default false (in_progress_runs (self s) !! tid) = false ->
  stream_response E g msg s = (o, s') ->
  match messages_create E (trace s) tid (Text msg) with
  | Err e =>
      turn tid s s' [Provider (MessagesCreate tid (Text msg))] [] /\
      o = match e with Exception _ => Val tt | BaseException _ => Raise e end
  | Ok _ =>
      exists dels sent,
        turn tid s s'
          (Provider (MessagesCreate tid (Text msg))
           :: Provider (CreateAndStream tid (assistant_id (self s)))
           :: map Deliver dels)
          ((py "user", msg) :: map (pair (py "assistant")) sent) /\
        Forall stripped dels /\
        all_but_failed E dels sent /\
        (o = Val tt \/ exists m, o = Raise (BaseException m))
  end.
Proof.
  intros H Hne Hidle. unfold handle_of in H.
  destruct tid as [| c tid]; [congruence |].
  unfold stream_response.
  unfold function_body at 1, mbind at 1, M_bind at 1, threads_get at 1.
  rewrite H. cbv beta iota.
  unfold mbind at 1, M_bind at 1, in_progress_get at 1. rewrite Hidle. cbv beta iota.
  unfold_turn.
  destruct (messages_create E (trace s) (c :: tid) (Text msg)) as [[] | [m | m]];
    cbn [dicts self trace].
  2, 3: intros [= <- <-]; (split; [| reflexivity]);
        unfold turn; cbn; rewrite ?app_nil_r; repeat split; try reflexivity;
        intros t Ht; rewrite !lookup_insert_ne by congruence; reflexivity.
  cbn [assistant_id set_history set_runs message_history].
  destruct (create_and_stream E _ (c :: tid) (assistant_id (self s)))
    as [[deltas failure] | [m | m]]; cbn [fst snd].
  2, 3: intros [= <- <-]; exists [], [];
        (split; [| split; [constructor | split; [left; reflexivity | eauto]]]);
        unfold turn; cbn; rewrite <- ?app_assoc; repeat split; try reflexivity;
        intros t Ht; rewrite !lookup_insert_ne by congruence; reflexivity.
  match goal with |- context [stream_deltas E deltas failure [] [] ?s0] =>
    destruct (stream_deltas E deltas failure [] [] s0) as [o1 s1] eqn:Hd end.
  apply stream_deltas_shape in Hd as (dels & sent & Hst & Hall & Ho).
  destruct Hst as (A1 & A2 & A3 & A4 & A5 & A6).
  cbn [dicts self trace assistant_id threads in_progress_runs message_history
       set_history set_runs] in A1, A2, A3, A4, A5, A6.
  assert (Hflags : forall b (r : gmap (list N) bool) t, t <> c :: tid ->
            r = <[c :: tid := true]> (in_progress_runs (self s)) ->
            <[c :: tid := b]> r !! t = in_progress_runs (self s) !! t).
  { intros b r t Ht ->. rewrite !lookup_insert_ne by congruence. reflexivity. }
  destruct o1 as [buf | | [m | m] |]; try contradiction.
  - subst sent. destruct (truthy (strip buf)) eqn:Hb.
    + destruct (send_to_telegram E (trace s1) (strip buf)) as [[] | [m | m]] eqn:Hf;
        intros [= <- <-].
      * exists (dels ++ [strip buf]), (dels ++ [strip buf]).
        split; [| split; [apply Forall_app; split;
                           [exact Hall | constructor; [apply strip_stripped, Hb | constructor]]
                         | split; [left; reflexivity | left; reflexivity]]].
        unfold turn. cbn. rewrite A1, A2, A3, A5, A6, !map_app, <- !app_assoc.
        repeat split; try reflexivity. intros t Ht. apply Hflags; assumption.
      * exists (dels ++ [strip buf]), dels.
        split; [| split; [apply Forall_app; split;
                           [exact Hall | constructor; [apply strip_stripped, Hb | constructor]]
                         | split; [right; eauto 10 | left; reflexivity]]].
        unfold turn. cbn. rewrite A1, A2, A3, A5, A6, !map_app, <- !app_assoc.
        repeat split; try reflexivity. intros t Ht. apply Hflags; assumption.
      * exists (dels ++ [strip buf]), dels.
        split; [| split; [apply Forall_app; split;
                           [exact Hall | constructor; [apply strip_stripped, Hb | constructor]]
                         | split; [right; eauto 10 | right; eauto]]].
        unfold turn. cbn. rewrite A1, A2, A3, A5, A6, !map_app, <- !app_assoc.
        repeat split; try reflexivity. intros t Ht. apply Hflags; assumption.
    + intros [= <- <-]. exists dels, dels.
      split; [| split; [exact Hall | split; [left; reflexivity | left; reflexivity]]].
      unfold turn. cbn. rewrite A1, A2, A3, A5, A6, <- !app_assoc.
      repeat split; try reflexivity. intros t Ht. apply Hflags; assumption.
  - intros [= <- <-]. exists dels, sent.
    split; [| split; [exact Hall | split; [exact Ho | left; reflexivity]]].
    unfold turn. cbn. rewrite A1, A2, A3, A5, A6, <- !app_assoc.
    repeat split; try reflexivity. intros t Ht. apply Hflags; assumption.
  - intros [= <- <-]. exists dels, sent.
    split; [| split; [exact Hall | split; [exact Ho | right; eauto]]].
    unfold turn. cbn. rewrite A1, A2, A3, A5, A6, <- !app_assoc.
    repeat split; try reflexivity. intros t Ht. apply Hflags; assumption.
Qed.


Lemma busy_notice_stripped : stripped busy_notice.
Proof. split; [vm_compute; discriminate | vm_compute; reflexivity]. Qed.

Lemma not_busy (h : gmap (list N) bool) tid :
  h !! tid <> Some true -> default false (h !! tid) = false.
Proof. destruct (h !! tid) as [[|] |]; cbn; congruence. Qed.

(** The three ways into a text turn. *)
Lemma text_turn_cases g msg s :
  (stream_response E g msg s = (Val tt, s) /\
   (handle_of g s = None \/ handle_of g s = Some [])) \/
  (exists tid, handle_of g s = Some tid /\ tid <> [] /\
     in_progress_runs (self s) !! tid = Some true /\
     stream_response E g msg s
       = (ends_as (send_to_telegram E (trace s) busy_notice), after_busy_notice s)) \/
  (exists tid, handle_of g s = Some tid /\ tid <> [] /\
     default false (in_progress_runs (self s) !! tid) = false).
Proof.
  unfold handle_of.
  destruct (deref (dicts s) (threads (self s)) !! g) as [[| c tid] |] eqn:H.
  - left. split; [| auto]. unfold stream_response. unfold_turn. rewrite H. reflexivity.
  - destruct (in_progress_runs (self s) !! (c :: tid)) as [[|] |] eqn:Hb.
    + right. left. exists (c :: tid). repeat split; try congruence.
      unfold stream_response. unfold_turn. rewrite H. cbv beta iota. rewrite Hb.
      cbv beta iota delta [default from_option id after_busy_notice ends_as].
      destruct (send_to_telegram E (trace s) busy_notice) as [[] | e]; reflexivity.
    + right. right. exists (c :: tid). rewrite Hb. repeat split; congruence.
    + right. right. exists (c :: tid). rewrite Hb. repeat split; congruence.
  - left. split; [| auto]. unfold stream_response. unfold_turn. rewrite H. reflexivity.
Qed.

(** X8. Whatever a text turn delivers has something in it and no
    whitespace at either end: the busy notice, or a stripped, non-empty
    piece of the reply. *)
Theorem text_turn_delivers_stripped (g : Z) (msg : list N) (s : state) :
  exists evs,
    trace (snd (stream_response E g msg s)) = trace s ++ evs /\
    Forall stripped (deliveries evs).
Proof.
  destruct (text_turn_cases g msg s)
    as [[-> _] | [(tid & _ & _ & _ & ->) | (tid & H & Hne & Hidle)]].
  - exists []. cbn. rewrite app_nil_r. split; [reflexivity | constructor].
  - exists [Deliver busy_notice]. split; [reflexivity |].
    repeat constructor; apply busy_notice_stripped.
  - destruct (stream_response E g msg s) as [o s'] eqn:Hrun.
    pose proof (text_turn_shape g msg tid s o s' H Hne Hidle Hrun) as Hshape.
    cbn [snd]. destruct (messages_create E (trace s) tid (Text msg)).
    + destruct Hshape as (dels & sent & Ht & Hall & _).
      destruct Ht as (_ & _ & _ & _ & Htr & _). eexists. split; [exact Htr |].
      cbn. rewrite deliveries_map. exact Hall.
    + destruct Hshape as [Ht _].
      destruct Ht as (_ & _ & _ & _ & Htr & _). eexists. split; [exact Htr |].
      constructor.
Qed.

(** X9. What a text turn past the busy check adds to the history is the
    user's message, once the provider took it, and then the chunks that
    were delivered, in order: all of them, or all but the last one when
    its delivery failed. With a callback that always delivers, the
    history records exactly what the user was sent. *)
Theorem text_turn_history (g : Z) (msg tid : list N) (s : state) :
  handle_of g s = Some tid -> tid <> [] ->
  in_progress_runs (self s) !! tid <> Some true ->
  exists evs more,
    turn tid s (snd (stream_response E g msg s)) evs more /\
    (more = [] /\ deliveries evs = [] \/
     exists sent,
       more = (py "user", msg) :: map (pair (py "assistant")) sent /\
       (deliveries evs = sent \/ exists c, deliveries evs = sent ++ [c]) /\
       (delivers E -> deliveries evs = sent)).
Proof.
  intros H Hne Hidle%not_busy.
  destruct (stream_response E g msg s) as [o s'] eqn:Hrun.
  pose proof (text_turn_shape g msg tid s o s' H Hne Hidle Hrun) as Hshape.
  cbn [snd]. destruct (messages_create E (trace s) tid (Text msg)).
  - destruct Hshape as (dels & sent & Ht & Hall & Hd & Ho).
    eexists _, _. split; [exact Ht |]. right. exists sent.
    cbn. rewrite deliveries_map. split; [reflexivity |]. split.
    + destruct Hd as [Hd | (c & _ & _ & -> & _)]; eauto.
    + intros Hsend. destruct Hd as [Hd | (c & tr & e & _ & Hf)]; [exact Hd |].
      rewrite Hsend in Hf. discriminate.
  - destruct Hshape as [Ht _]. eexists _, _. split; [exact Ht |]. left. auto.
Qed.

(** X10. When the provider refuses the user's message, or refuses to start
    the stream, with an ordinary exception, the text turn returns
    normally and the user is sent nothing; the history keeps the user's
    message only in the second case. *)
Theorem text_turn_fails_silently (g : Z) (msg tid : list N) (s : state) :
  handle_of g s = Some tid -> tid <> [] ->
  in_progress_runs (self s) !! tid <> Some true ->
  (forall m,
     messages_create E (trace s) tid (Text msg) = Err (Exception m) ->
     fst (stream_response E g msg s) = Val tt /\
     turn tid s (snd (stream_response E g msg s))
       [Provider (MessagesCreate tid (Text msg))] []) /\
  (forall m,
     messages_create E (trace s) tid (Text msg) = Ok tt ->
     create_and_stream E (trace s ++ [Provider (MessagesCreate tid (Text msg))])
       tid (assistant_id (self s)) = Err (Exception m) ->
     fst (stream_response E g msg s) = Val tt /\
     turn tid s (snd (stream_response E g msg s))
       [Provider (MessagesCreate tid (Text msg));
        Provider (CreateAndStream tid (assistant_id (self s)))]
       [(py "user", msg)]).
Proof.
  intros H Hne Hidle%not_busy.
  destruct (stream_response E g msg s) as [o s'] eqn:Hrun. cbn [fst snd].
  split.
  - intros m Hm.
    pose proof (text_turn_shape g msg tid s o s' H Hne Hidle Hrun) as Hshape.
    rewrite Hm in Hshape. destruct Hshape as [Ht ->]. auto.
  - intros m Hm Hs. revert Hrun. unfold handle_of in H.
    destruct tid as [| c tid]; [congruence |].
    unfold stream_response.
    unfold function_body at 1, mbind at 1, M_bind at 1, threads_get at 1.
    rewrite H. cbv beta iota.
    unfold mbind at 1, M_bind at 1, in_progress_get at 1. rewrite Hidle. cbv beta iota.
    unfold_turn. rewrite Hm. cbn [dicts self trace].
    cbn [assistant_id set_history set_runs message_history]. rewrite Hs.
    intros [= <- <-]. split; [reflexivity |].
    unfold turn. cbn. rewrite <- ?app_assoc. repeat split; try reflexivity.
    intros t Ht. rewrite !lookup_insert_ne by congruence. reflexivity.
Qed.

(** X11. A text turn leaves the dict of handles, the assistant id and the
    in-progress flags of all other threads as they are, and only appends
    to the history and to the trace; every provider call it makes is for
    the thread of the group. *)
Theorem text_turn_frame (g : Z) (msg : list N) (s : state) :
  let s' := snd (stream_response E g msg s) in
  dicts s' = dicts s /\
  assistant_id (self s') = assistant_id (self s) /\
  threads (self s') = threads (self s) /\
  (forall t, handle_of g s <> Some t ->
     in_progress_runs (self s') !! t = in_progress_runs (self s) !! t) /\
  (exists more, message_history (self s') = message_history (self s) ++ more) /\
  exists evs,
    trace s' = trace s ++ evs /\
    Forall (fun c => exists tid, handle_of g s = Some tid /\
                       (c = MessagesCreate tid (Text msg) \/
                        c = CreateAndStream tid (assistant_id (self s))))
           (calls evs).
Proof.
  cbv zeta.
  destruct (text_turn_cases g msg s)
    as [[-> _] | [(tid & _ & _ & _ & ->) | (tid & H & Hne & Hidle)]].
  - cbn. repeat split; try reflexivity.
    + exists []. rewrite app_nil_r. reflexivity.
    + exists []. rewrite app_nil_r. split; [reflexivity | constructor].
  - cbn. repeat split; try reflexivity.
    + exists []. rewrite app_nil_r. reflexivity.
    + exists [Deliver busy_notice]. split; [reflexivity | constructor].
  - destruct (stream_response E g msg s) as [o s'] eqn:Hrun.
    pose proof (text_turn_shape g msg tid s o s' H Hne Hidle Hrun) as Hshape.
    cbn [snd].
    assert (Hturn : exists evs more, turn tid s s' evs more /\
              Forall (fun c => c = MessagesCreate tid (Text msg) \/
                               c = CreateAndStream tid (assistant_id (self s)))
                     (calls evs)).
    { destruct (messages_create E (trace s) tid (Text msg)).
      - destruct Hshape as (dels & sent & Ht & _). eexists _, _. split; [exact Ht |].
        cbn. constructor; [auto |]. constructor; [auto |].
        clear. induction dels; [constructor | exact IHdels].
      - destruct Hshape as [Ht _]. eexists _, _. split; [exact Ht |].
        cbn. constructor; [auto | constructor]. }
    destruct Hturn as (evs & more & (A1 & A2 & A3 & A4 & A5 & A6) & Hcalls).
    repeat split; try assumption.
    + intros t Ht. apply A4. congruence.
    + eauto.
    + exists evs. split; [exact A5 |].
      eapply Forall_impl; [exact Hcalls |]. intros c Hc. eauto.
Qed.

End Turn.

Lemma text_turn_history_witness :
  handle_of 7 home = Some (py "thread_A") /\
  exists evs,
    trace (snd (stream_response calm 7 (py "hola") home)) = evs /\
    deliveries evs = [py "Hola"] /\
    message_history (self (snd (stream_response calm 7 (py "hola") home)))
      = [(py "user", py "hola"); (py "assistant", py "Hola")].
Proof.
  split; [vm_compute; reflexivity |].
  destruct (text_turn_history calm 7 (py "hola") (py "thread_A") home)
    as (evs & more & Ht & Hmore);
    [vm_compute; reflexivity | vm_compute; discriminate | vm_compute; discriminate |].
  exists (trace (snd (stream_response calm 7 (py "hola") home))).
  split; [reflexivity |]. split; vm_compute; reflexivity.
Defined.

Lemma text_turn_fails_silently_witness :
  fst (stream_response deaf 7 (py "hola") home) = Val tt /\
  deliveries (trace (snd (stream_response deaf 7 (py "hola") home))) = [] /\
  message_history (self (snd (stream_response deaf 7 (py "hola") home))) = [].
Proof.
  destruct (text_turn_fails_silently deaf 7 (py "hola") (py "thread_A") home)
    as [Hfirst _];
    [vm_compute; reflexivity | vm_compute; discriminate | vm_compute; discriminate |].
  destruct (Hfirst (py "503")) as [Ho (_ & _ & _ & _ & Htr & Hh)];
    [vm_compute; reflexivity |].
  split; [exact Ho |]. rewrite Htr, Hh. split; vm_compute; reflexivity.
Defined.

End TurnFacts.

Module ImageFacts.

Import Handler HandlerObs TurnObs ImageObs HandlerFacts TurnFacts.

Lemma said_app a b : said (a ++ b) = said a ++ said b.
Proof. unfold said. rewrite List.filter_app, map_app. reflexivity. Qed.

Lemma heard_refl tid s : heard tid s s.
Proof.
  exists [], []. split; [| constructor].
  unfold turn. rewrite !app_nil_r. auto 10.
Qed.

Lemma heard_trans tid s1 s2 s3 : heard tid s1 s2 -> heard tid s2 s3 -> heard tid s1 s3.
Proof.
  intros (e1 & m1 & (A1 & A2 & A3 & A4 & A5 & A6) & H1)
         (e2 & m2 & (B1 & B2 & B3 & B4 & B5 & B6) & H2).
  exists (e1 ++ e2), (m1 ++ m2). split.
  - unfold turn. rewrite B1, B2, B3, B5, B6, A1, A2, A3, A5, A6, !app_assoc.
    repeat split; try reflexivity. intros t Ht. rewrite B4, A4 by exact Ht. reflexivity.
  - rewrite said_app, deliveries_app. apply sublist_app; assumption.
Qed.

Lemma heard_event tid s ev : heard tid s (log ev s).
Proof.
  exists [ev], []. split; [| apply sublist_nil_l].
  unfold turn, log. cbn. rewrite app_nil_r. auto 10.
Qed.

(** ** The combinators *)

Lemma keeps_ret {A} tid (a : A) : keeps tid (mret a).
Proof. intros s o s' [= <- <-]. apply heard_refl. Qed.

Lemma keeps_early {A} tid : keeps tid (early_return : M state A).
Proof. intros s o s' [= <- <-]. apply heard_refl. Qed.

Lemma keeps_diverge {A} tid : keeps tid (diverge : M state A).
Proof. intros s o s' [= <- <-]. apply heard_refl. Qed.

Lemma keeps_bind {A B} tid (m : M state A) (k : A -> M state B) :
  keeps tid m -> (forall a, keeps tid (k a)) -> keeps tid (m ≫= k).
Proof.
  intros Hm Hk s o s'. unfold mbind, M_bind.
  destruct (m s) as [o1 s1] eqn:Hms. apply Hm in Hms.
  destruct o1 as [a | | e |]; try (intros [= <- <-]; exact Hms).
  intros Hks. apply Hk in Hks. eapply heard_trans; eassumption.
Qed.

Lemma keeps_try_except {A} tid (m : M state A) h :
  keeps tid m -> (forall e, keeps tid (h e)) -> keeps tid (try_except m h).
Proof.
  intros Hm Hh s o s'. unfold try_except.
  destruct (m s) as [o1 s1] eqn:Hms. apply Hm in Hms.
  destruct o1 as [a | | [msg | msg] |]; try (intros [= <- <-]; exact Hms).
  intros Hhs. apply Hh in Hhs. eapply heard_trans; eassumption.
Qed.

Lemma keeps_try_finally {A} tid (m : M state A) fin :
  keeps tid m -> keeps tid fin -> keeps tid (try_finally m fin).
Proof.
  intros Hm Hf s o s'. unfold try_finally.
  destruct (m s) as [o1 s1] eqn:Hms. apply Hm in Hms.
  destruct o1 as [a | | e |]; try (intros [= <- <-]; exact Hms);
    (destruct (fin s1) as [o2 s2] eqn:Hfs; apply Hf in Hfs;
     destruct o2 as [[] | | e' |]; intros [= <- <-];
     eapply heard_trans; eassumption).
Qed.

Lemma keeps_function_body tid (m : M state unit) :
  keeps tid m -> keeps tid (function_body m).
Proof.
  intros Hm s o s'. unfold function_body.
  destruct (m s) as [o1 s1] eqn:Hms. apply Hm in Hms.
  destruct o1; intros [= <- <-]; exact Hms.
Qed.

Section Image.

Variable E : env.

Lemma keeps_provider {A} tid c (answer : list event -> result A) :
  keeps tid (provider c answer).
Proof.
  intros s o s'. unfold provider, lift.
  destruct (answer (trace s)); intros [= <- <-]; apply heard_event.
Qed.

Lemma keeps_deliver tid c : keeps tid (deliver E c).
Proof.
  intros s o s'. unfold deliver, lift.
  destruct (send_to_telegram E (trace s) c); intros [= <- <-]; apply heard_event.
Qed.

Lemma keeps_read_file tid p : keeps tid (read_file E p).
Proof.
  intros s o s'. unfold read_file, lift.
  destruct (read_base64 E (trace s) p); intros [= <- <-]; apply heard_event.
Qed.

Lemma keeps_now tid : keeps tid (now E).
Proof. intros s o s' [= <- <-]. apply heard_event. Qed.

Lemma keeps_sleep tid d : keeps tid (sleep d).
Proof. intros s o s' [= <- <-]. apply heard_event. Qed.

Lemma keeps_flag tid b : keeps tid (in_progress_set tid b).
Proof.
  intros s o s' [= <- <-]. exists [], []. split; [| constructor].
  unfold turn. cbn. rewrite !app_nil_r. repeat split; try reflexivity.
  intros t Ht. rewrite lookup_insert_ne by congruence. reflexivity.
Qed.

Lemma keeps_user tid c : keeps tid (history_append (py "user") c).
Proof.
  intros s o s' [= <- <-]. exists [], [(py "user", c)]. split; [| constructor].
  unfold turn. cbn. rewrite !app_nil_r. auto 10.
Qed.

Lemma keeps_say tid c :
  keeps tid (deliver E c;; history_append (py "assistant") c).
Proof.
  intros s o s' Hsay. apply say_steps in Hsay.
  destruct o as [[] | | e |]; try contradiction.
  - exists [Deliver c], [(py "assistant", c)]. split; [| cbn; reflexivity].
    destruct Hsay as (A1 & A2 & A3 & A4 & A5 & A6). unfold turn.
    rewrite A4. auto 10.
  - destruct Hsay as [(A1 & A2 & A3 & A4 & A5 & A6) _].
    exists [Deliver c], []. split; [| apply sublist_nil_l]. unfold turn.
    rewrite A4. auto 10.
Qed.

Ltac keeps_step :=
  first
    [ apply keeps_ret | apply keeps_early | apply keeps_diverge
    | apply keeps_provider | apply keeps_deliver | apply keeps_read_file
    | apply keeps_now | apply keeps_sleep | apply keeps_flag | apply keeps_user
    | apply keeps_bind | apply keeps_try_except | apply keeps_try_finally
    | apply keeps_function_body
    | match goal with
      | |- forall _, _ => intro
      | |- keeps _ (if ?b then _ else _) => destruct b
      | |- keeps _ (match ?x with _ => _ end) => destruct x
      end ].

Lemma keeps_poll_loop tid fuel thread run start_time p :
  keeps tid (poll_loop E fuel thread run start_time p).
Proof.
  revert p. induction fuel as [| fuel IH]; intros p; cbn [poll_loop];
    destruct (is_terminal (run_status p)); try apply keeps_ret;
    [apply keeps_diverge |].
  apply keeps_bind; [| exact IH].
  unfold poll_body, on_queued, on_timeout, refresh. repeat keeps_step.
Qed.

Lemma keeps_get_threads tid g : keeps tid (threads_get g).
Proof. intros s o s' [= <- <-]. apply heard_refl. Qed.

Lemma keeps_get_flag tid t : keeps tid (in_progress_get t).
Proof. intros s o s' [= <- <-]. apply heard_refl. Qed.

Lemma keeps_assistant_id tid : keeps tid self_assistant_id.
Proof. intros s o s' [= <- <-]. apply heard_refl. Qed.

Lemma keeps_deliver_all tid texts : keeps tid (deliver_all E texts).
Proof.
  induction texts as [| c texts IH]; cbn [deliver_all]; [apply keeps_ret |].
  intros s o s'. unfold mbind at 1, M_bind at 1.
  destruct (deliver E c s) as [o1 s1] eqn:Hd.
  destruct o1 as [[] | | e |].
  2-4: intros [= <- <-]; apply (keeps_deliver tid c _ _ _ Hd).
  unfold mbind at 1, M_bind at 1.
  destruct (history_append (py "assistant") c s1) as [o2 s2] eqn:Hh.
  assert (Hsay : (deliver E c;; history_append (py "assistant") c) s = (o2, s2)).
  { unfold mbind, M_bind. rewrite Hd. exact Hh. }
  apply (keeps_say tid) in Hsay. injection Hh as <- <-.
  intros Hrest. apply IH in Hrest. eapply heard_trans; eassumption.
Qed.

Ltac keeps_all :=
  repeat first
    [ apply keeps_get_flag | apply keeps_assistant_id | apply keeps_poll_loop
    | apply keeps_deliver_all | keeps_step ].

(** The image turn from a state in which the group has thread [tid]. *)
Lemma image_turn_heard fuel g msg path tid s :
  handle_of g s = Some tid ->
  heard tid s (snd (stream_image_response E fuel g msg path s)).
Proof.
  intros H. unfold handle_of in H. unfold stream_image_response.
  unfold function_body at 1, mbind at 1, M_bind at 1, threads_get at 1.
  rewrite H.
  match goal with |- heard _ _ (snd (let (o, s') := ?m s in _)) =>
    assert (Hk : keeps tid m); [| destruct (m s) as [o1 s1] eqn:Hm; apply Hk in Hm;
                                  destruct o1; exact Hm]
  end.
  destruct tid as [| c tid]; keeps_all.
Qed.

(** X12. An image turn leaves the dict of handles, the assistant id and the
    in-progress flags of all other threads as they are and only appends
    to the history and to the trace; and whatever the history then
    records as said by the assistant was delivered to the user, in that
    order. This holds however the turn ends, also when it is cut short
    by an exception or is still polling. *)
Theorem image_turn_frame (fuel : nat) (g : Z) (msg path : list N) (s : state) :
  let s' := snd (stream_image_response E fuel g msg path s) in
  dicts s' = dicts s /\
  assistant_id (self s') = assistant_id (self s) /\
  threads (self s') = threads (self s) /\
  (forall t, handle_of g s <> Some t ->
     in_progress_runs (self s') !! t = in_progress_runs (self s) !! t) /\
  exists evs more,
    trace s' = trace s ++ evs /\
    message_history (self s') = message_history (self s) ++ more /\
    sublist (said more) (deliveries evs).
Proof.
  cbv zeta. destruct (handle_of g s) as [tid |] eqn:H.
  - destruct (image_turn_heard fuel g msg path tid s H)
      as (evs & more & (A1 & A2 & A3 & A4 & A5 & A6) & Hsub).
    repeat split; try assumption.
    + intros t Ht. apply A4. congruence.
    + eauto.
  - assert (Hrun : stream_image_response E fuel g msg path s = (Val tt, s)).
    { unfold handle_of in H. unfold stream_image_response.
      unfold function_body at 1, mbind at 1, M_bind at 1, threads_get at 1.
      rewrite H. reflexivity. }
    rewrite Hrun. cbn [snd].
    do 3 (split; [reflexivity |]). split; [intros; reflexivity |].
    exists [], []. rewrite !app_nil_r. repeat split. constructor.
Qed.

(** X13. When the upload of the image fails with an ordinary exception, the
    image turn ends normally after telling the user: the text of the
    user's message has been posted to the thread already, no run is
    started, and the history records nothing of the turn. *)
Theorem image_upload_failure (fuel : nat) (g : Z) (msg path tid m : list N)
    (s : state) :
  handle_of g s = Some tid -> tid <> [] ->
  in_progress_runs (self s) !! tid <> Some true ->
  delivers E ->
  (forall tr e, assistants_retrieve E tr (assistant_id (self s))
                <> Err (BaseException e)) ->
  (forall tr, messages_create E tr tid (Text msg) = Ok tt) ->
  (forall tr, files_create E tr path = Err (Exception m)) ->
  fst (stream_image_response E fuel g msg path s) = Val tt /\
  turn tid s (snd (stream_image_response E fuel g msg path s))
    [Deliver analysing_notice;
     Provider (AssistantsRetrieve (assistant_id (self s)));
     Provider (MessagesCreate tid (Text msg));
     Provider (FilesCreate path);
     Deliver (upload_failed_notice (Exception m))] [] /\
  in_progress_runs (self (snd (stream_image_response E fuel g msg path s))) !! tid
    = Some false.
Proof.
  intros H Hne Hidle%not_busy Hsend Hinfo Hpost Hup. unfold handle_of in H.
  destruct tid as [| c tid]; [congruence |].
  assert (Hrun : exists s',
    stream_image_response E fuel g msg path s = (Val tt, s') /\
    turn (c :: tid) s s'
      [Deliver analysing_notice;
       Provider (AssistantsRetrieve (assistant_id (self s)));
       Provider (MessagesCreate (c :: tid) (Text msg));
       Provider (FilesCreate path);
       Deliver (upload_failed_notice (Exception m))] [] /\
    in_progress_runs (self s') !! (c :: tid) = Some false).
  { unfold stream_image_response.
    unfold function_body at 1, mbind at 1, M_bind at 1, threads_get at 1.
    rewrite H. cbv beta iota.
    unfold mbind at 1, M_bind at 1, in_progress_get at 1. rewrite Hidle. cbv beta iota.
    unfold_turn. rewrite Hsend. cbn [dicts self trace].
    cbn [assistant_id set_runs].
    destruct (assistants_retrieve E _ (assistant_id (self s))) as [info | [e | e]] eqn:Hi;
      cbn [dicts self trace]; rewrite ?Hpost; cbn [dicts self trace];
      rewrite ?Hup; cbn [dicts self trace]; rewrite ?Hsend; cbn [dicts self trace].
    1, 2: eexists; split; [reflexivity |]; split;
          [unfold turn; cbn; rewrite <- ?app_assoc, ?app_nil_r;
           repeat split; try reflexivity;
           intros t Ht; rewrite !lookup_insert_ne by congruence; reflexivity
          | cbn; apply lookup_insert_eq].
    exfalso. exact (Hinfo _ _ Hi). }
  destruct Hrun as (s' & -> & Ht & Hf). auto.
Qed.

End Image.

Lemma image_upload_failure_witness :
  handle_of 7 home = Some (py "thread_A") /\
  deliveries (trace (snd (stream_image_response no_upload 3 7 (py "mira")
                            (py "foto.jpg") home)))
    = [analysing_notice; upload_failed_notice (Exception (py "413"))] /\
  message_history (self (snd (stream_image_response no_upload 3 7 (py "mira")
                                (py "foto.jpg") home))) = [].
Proof.
  split; [vm_compute; reflexivity |].
  assert (H1 : handle_of 7 home = Some (py "thread_A")) by (vm_compute; reflexivity).
  assert (H2 : py "thread_A" <> []) by (vm_compute; discriminate).
  assert (H3 : in_progress_runs (self home) !! py "thread_A" <> Some true)
    by (vm_compute; discriminate).
  assert (H4 : delivers no_upload) by (intros tr chunk; reflexivity).
  assert (H5 : forall tr e, assistants_retrieve no_upload tr (assistant_id (self home))
                            <> Err (BaseException e)) by (intros tr e; discriminate).
  assert (H6 : forall tr, messages_create no_upload tr (py "thread_A") (Text (py "mira"))
                          = Ok tt) by (intros tr; reflexivity).
  assert (H7 : forall tr, files_create no_upload tr (py "foto.jpg")
                          = Err (Exception (py "413"))) by (intros tr; reflexivity).
  destruct (image_upload_failure no_upload 3 7 (py "mira") (py "foto.jpg")
              (py "thread_A") (py "413") home H1 H2 H3 H4 H5 H6 H7)
    as (_ & (_ & _ & _ & _ & Htr & Hh) & _).
  rewrite Htr, Hh. split; vm_compute; reflexivity.
Defined.

End ImageFacts.

Module TagFacts.

Import ReObs ReformatFacts Paragraphs ParagraphFacts Chat.

Lemma rbracket_excluded : in_cset (NoneOf [c_rbracket]) c_rbracket = false.
Proof. reflexivity. Qed.

(** After a run of a class comes the end of the text or a character
    outside the class. *)
Lemma span_stops cs s c r :
  drop (span cs s) s = c :: r -> in_cset cs c = false.
Proof. intros H. pose proof (span_drop cs s) as Hd. rewrite H in Hd. exact Hd. Qed.

Lemma lstrip_span s : lstrip s = drop (span Space s) s.
Proof.
  induction s as [| c s IH]; [reflexivity |]. cbn [lstrip span in_cset].
  destruct (is_space c); [exact IH | reflexivity].
Qed.

Section Tag.

(** The text that opens the tag. *)
Variable opening : list N.

(** The two patterns over it. *)
Variables name_pat line_pat : list atom.

Hypothesis name_pat_is :
  name_pat = map (fun c => One (Chr c)) opening ++
             [Open; Plus (NoneOf [c_rbracket]); Close; One (Chr c_rbracket)].

Hypothesis line_pat_is :
  line_pat = map (fun c => One (Chr c)) opening ++
             [Plus (NoneOf [c_rbracket]); One (Chr c_rbracket); Star Space;
              Star (Chr c_nl)].

(** A match of the tag: the opening, the longest run without a closing
    bracket, which is the name, and the bracket. *)
Lemma user_info_match s :
  match_at name_pat s =
  match after opening s with
  | Some r =>
      match span (NoneOf [c_rbracket]) r, drop (span (NoneOf [c_rbracket]) r) r with
      | S n, _ :: _ =>
          Some ((length opening + S n + 1)%nat,
                [(length opening, (length opening + S n)%nat)])
      | _, _ => None
      end
  | None => None
  end.
Proof.
  unfold match_at. rewrite name_pat_is, match_here_word. cbn [Nat.add].
  destruct (after opening s) as [r |]; [| reflexivity].
  rewrite match_open, (plus_close_then _ c_rbracket) by reflexivity.
  destruct (span (NoneOf [c_rbracket]) r) as [| n] eqn:Hn; [reflexivity |].
  cbn [Nat.ltb Nat.leb]. rewrite match_close, match_one. cbn [app].
  destruct (drop (S n) r) as [| c r'] eqn:Hr; [reflexivity |].
  rewrite <- Hn in Hr. apply span_stops in Hr. cbn [in_cset existsb orb] in Hr.
  rewrite orb_false_r in Hr. apply negb_false_iff in Hr.
  rewrite N.eqb_sym, Hr. cbn [match_here]. do 2 f_equal; lia.
Qed.

(** The same for the pattern that removes the tag, which also takes the
    whitespace after the bracket. *)
Lemma user_info_line_match s :
  match_at line_pat s =
  match after opening s with
  | Some r =>
      match span (NoneOf [c_rbracket]) r, drop (span (NoneOf [c_rbracket]) r) r with
      | S n, _ :: r' =>
          Some ((length opening + S n + 1 + span Space r')%nat, [])
      | _, _ => None
      end
  | None => None
  end.
Proof.
  unfold match_at. rewrite line_pat_is, match_here_word. cbn [Nat.add].
  destruct (after opening s) as [r |]; [| reflexivity].
  rewrite (plus_then _ c_rbracket) by reflexivity.
  destruct (span (NoneOf [c_rbracket]) r) as [| n] eqn:Hn; [reflexivity |].
  cbn [Nat.ltb Nat.leb]. rewrite match_one.
  destruct (drop (S n) r) as [| c r'] eqn:Hr; [reflexivity |].
  rewrite <- Hn in Hr. apply span_stops in Hr. cbn [in_cset existsb orb] in Hr.
  rewrite orb_false_r in Hr. apply negb_false_iff in Hr.
  rewrite N.eqb_sym, Hr. cbn [match_here].
  assert (Hnl : span (Chr c_nl) (drop (span Space r') r') = O).
  { destruct (drop (span Space r') r') as [| x y] eqn:Hx; [reflexivity |].
    apply span_stops in Hx. cbn [span in_cset] in *.
    destruct (c_nl =? x) eqn:E; [| reflexivity].
    apply N.eqb_eq in E. subst x. discriminate. }
  rewrite (greedy_hit _ 0%nat (span Space r')
             ((length opening + S n + 1 + span Space r')%nat, [])).
  - reflexivity.
  - lia.
  - cbv beta. rewrite Hnl. cbn [greedy Nat.ltb Nat.leb drop match_here].
    do 2 f_equal. lia.
Qed.


(** Where the opening of the tag does not start, neither pattern
    matches. *)
Lemma no_opening_no_match s :
  starts_with opening s = false ->
  match_at name_pat s = None /\ match_at line_pat s = None.
Proof.
  intros H. rewrite user_info_match, user_info_line_match. unfold after.
  rewrite H. split; reflexivity.
Qed.

Lemma contains_cons sep c s :
  contains sep (c :: s) = false ->
  starts_with sep (c :: s) = false /\ contains sep s = false.
Proof. cbn [contains]. intros H. apply orb_false_elim in H. exact H. Qed.

Lemma contains_app_r sep pre s :
  contains sep (pre ++ s) = false -> contains sep s = false.
Proof.
  induction pre as [| c pre IH]; [auto |]. cbn [app].
  intros H. apply contains_cons in H as [_ H]. apply IH, H.
Qed.

Lemma contains_nil sep : contains sep [] = false -> starts_with sep [] = false.
Proof. cbn [contains]. intros H. apply orb_false_elim in H. apply H. Qed.

(** A message without the opening of the tag has no name in it and is
    left as it is. *)
Lemma untagged s :
  contains opening s = false ->
  search name_pat s = None /\ sub line_pat [] s = s.
Proof.
  unfold sub.
  induction s as [| c s IH]; intros H.
  - apply contains_nil in H. destruct (no_opening_no_match [] H) as [H1 H2].
    cbn [search sub_go]. rewrite H1, H2. split; reflexivity.
  - apply contains_cons in H as [H0 H].
    destruct (no_opening_no_match _ H0) as [H1 H2].
    cbn [search sub_go]. rewrite H1, H2. destruct (IH H) as [I1 I2].
    split; [exact I1 | f_equal; exact I2].
Qed.

(** The run that the name pattern takes in [a ++ "]" ++ r]. *)
Lemma name_run a r :
  ~ In c_rbracket a ->
  span (NoneOf [c_rbracket]) (a ++ c_rbracket :: r) = length a /\
  drop (length a) (a ++ c_rbracket :: r) = c_rbracket :: r.
Proof.
  intros Ha. split; [| apply drop_app_length].
  apply span_app_run; [| reflexivity].
  apply Forall_forall. intros x Hx. cbn [in_cset existsb].
  rewrite orb_false_r. apply negb_true_iff, N.eqb_neq. intros ->.
  apply Ha, list_elem_of_In, Hx.
Qed.

(** A tag at the head of the message: the name is what stands before the
    first closing bracket, and the tag goes with the whitespace after
    it. *)
Lemma tag_at_head a r :
  a <> [] -> ~ In c_rbracket a ->
  (exists rest len caps,
     search name_pat (opening ++ a ++ c_rbracket :: r) = Some (rest, len, caps) /\
     group rest caps 1 = a) /\
  sub line_pat [] (opening ++ a ++ c_rbracket :: r) = sub line_pat [] (lstrip r).
Proof.
  intros Hne Ha. destruct (name_run a r Ha) as [Hspan Hdrop].
  destruct a as [| x a]; [congruence |]. cbn [length] in *.
  split.
  - assert (H : match_at name_pat (opening ++ (x :: a) ++ c_rbracket :: r)
                = Some ((length opening + S (length a) + 1)%nat,
                        [(length opening,
                          (length opening + S (length a))%nat)])).
    { rewrite user_info_match, after_app, Hspan, Hdrop. reflexivity. }
    destruct (opening ++ (x :: a) ++ c_rbracket :: r) as [| c s] eqn:Hs.
    + apply (f_equal (@length N)) in Hs. rewrite !length_app in Hs.
      cbn [length] in Hs. lia.
    + cbn [search]. rewrite H. eexists _, _, _. split; [reflexivity |]. unfold group. cbn [Nat.pred lookup list_lookup].
      rewrite <- Hs, drop_app_length.
      replace (length opening + S (length a) - length opening)%nat
        with (length (x :: a)) by (cbn [length]; lia).
      rewrite take_app_length. reflexivity.
  - unfold sub.
    assert (H : match_at line_pat
                  (opening ++ (x :: a) ++ c_rbracket :: r)
                = Some ((length opening + S (length a) + 1 + span Space r)%nat,
                        [])).
    { rewrite user_info_line_match, after_app, Hspan, Hdrop. reflexivity. }
    set (s := opening ++ (x :: a) ++ c_rbracket :: r) in *.
    assert (Hlen : length s = (length opening + S (length a) + 1 + length r)%nat).
    { unfold s. rewrite !length_app. cbn [length]. lia. }
    assert (Hd : drop (length opening + S (length a) + 1 + span Space r) s
                 = lstrip r).
    { unfold s. rewrite lstrip_span.
      replace (length opening + S (length a) + 1 + span Space r)%nat
        with (length opening + (length (x :: a) + (1 + span Space r)))%nat
        by (cbn [length]; lia).
      rewrite drop_app_add, drop_app_add. reflexivity. }
    destruct s as [| c s'] eqn:Hs; [cbn [length] in Hlen; lia |].
    replace (length opening + S (length a) + 1 + span Space r)%nat
      with (S (length opening + length a + 1 + span Space r)) in * by lia.
    cbn [sub_go]. rewrite H. cbn [expand app].
    pose proof (span_le Space r).
    rewrite sub_go_skip by (cbn [length] in Hlen; lia).
    cbn [drop] in Hd. rewrite Hd. reflexivity.
Qed.

End Tag.

Lemma re_user_info_is :
  re_user_info = map (fun c => One (Chr c)) user_info_open ++
                 [Open; Plus (NoneOf [c_rbracket]); Close; One (Chr c_rbracket)].
Proof. unfold re_user_info. reflexivity. Qed.

Lemma re_user_info_line_is :
  re_user_info_line = map (fun c => One (Chr c)) user_info_open ++
                      [Plus (NoneOf [c_rbracket]); One (Chr c_rbracket); Star Space;
                       Star (Chr c_nl)].
Proof. unfold re_user_info_line. reflexivity. Qed.

(** The message that [process_message] builds, read back. *)
Lemma enhanced_message_read a r :
  a <> [] -> ~ In c_rbracket a ->
  contains user_info_open (lstrip r) = false ->
  user_name_match (user_info_open ++ a ++ c_rbracket :: r) = Some a /\
  without_user_info (user_info_open ++ a ++ c_rbracket :: r) = lstrip r.
Proof.
  intros Hne Ha Hr.
  destruct (tag_at_head user_info_open re_user_info re_user_info_line
              re_user_info_is re_user_info_line_is a r Hne Ha)
    as [(rest & len & caps & Hs & Hg) Hsub].
  destruct (untagged user_info_open re_user_info re_user_info_line
              re_user_info_is re_user_info_line_is (lstrip r) Hr) as [_ Hrest].
  unfold user_name_match, without_user_info.
  rewrite Hs. cbv beta iota. rewrite Hg, Hsub, Hrest. split; reflexivity.
Qed.

Lemma contains_lstrip sep s :
  contains sep s = false -> contains sep (lstrip s) = false.
Proof.
  intros H. destruct (TurnFacts.lstrip_suffix s) as [pre Hpre].
  rewrite Hpre in H. apply contains_app_r in H. exact H.
Qed.

(** X14. The tag that [process_message] puts before the text is read back
    by [handle_turn]: the name found is the name of the user, and the
    message without the tag is the text of the user without its leading
    whitespace. *)
Theorem user_info_round_trip (name text : list N) :
  name <> [] -> ~ In c_rbracket name ->
  contains user_info_open text = false ->
  user_name_match (enhanced_message name text) = Some name /\
  without_user_info (enhanced_message name text) = lstrip text.
Proof.
  intros Hne Hname Htext. unfold enhanced_message.
  rewrite <- !app_assoc. cbn [app].
  change (lstrip text) with (lstrip (c_nl :: c_nl :: text)).
  apply enhanced_message_read; [exact Hne | exact Hname |].
  change (lstrip (c_nl :: c_nl :: text)) with (lstrip text).
  apply contains_lstrip, Htext.
Qed.

(** X15. A closing bracket in the name of the user cuts it: the name found
    is what stands before the bracket, and the rest of the name, with
    the bracket that closed the tag, stays in the message. *)
Theorem user_info_name_with_bracket (a b text : list N) :
  a <> [] -> ~ In c_rbracket a ->
  contains user_info_open (b ++ [c_rbracket; c_nl; c_nl] ++ text) = false ->
  user_name_match (enhanced_message (a ++ c_rbracket :: b) text) = Some a /\
  without_user_info (enhanced_message (a ++ c_rbracket :: b) text)
    = lstrip (b ++ [c_rbracket; c_nl; c_nl] ++ text).
Proof.
  intros Hne Ha Hrest. unfold enhanced_message.
  replace ((user_info_open ++ (a ++ c_rbracket :: b) ++ [c_rbracket; c_nl; c_nl])
           ++ text)
    with (user_info_open ++ a ++ c_rbracket :: (b ++ [c_rbracket; c_nl; c_nl] ++ text)).
  - apply enhanced_message_read; [exact Hne | exact Ha |].
    apply contains_lstrip, Hrest.
  - rewrite <- !app_assoc. cbn [app]. reflexivity.
Qed.

Lemma user_info_round_trip_witness :
  user_name_match (enhanced_message (py "Ana") (py "  hola")) = Some (py "Ana") /\
  without_user_info (enhanced_message (py "Ana") (py "  hola")) = py "hola".
Proof.
  apply (user_info_round_trip (py "Ana") (py "  hola")).
  - vm_compute. discriminate.
  - vm_compute. intuition discriminate.
  - vm_compute. reflexivity.
Defined.

Lemma user_info_name_with_bracket_witness :
  user_name_match (enhanced_message (py "Ana]Bo") (py "hola")) = Some (py "Ana") /\
  without_user_info (enhanced_message (py "Ana]Bo") (py "hola")) = py "Bo]

hola".
Proof.
  apply (user_info_name_with_bracket (py "Ana") (py "Bo") (py "hola")).
  - vm_compute. discriminate.
  - vm_compute. intuition discriminate.
  - vm_compute. reflexivity.
Defined.

End TagFacts.

Module ChatFacts.

Import Handler Manager ReObs ManagerObs HandlerObs TurnObs Chat ChatObs.
Import ReformatFacts ManagerFacts HandlerFacts TurnFacts TagFacts.

(** *** The callback *)

Lemma replace_first_inserts old new s :
  replace_first old new s = s \/
  exists pre post, s = pre ++ old ++ post /\
                   replace_first old new s = pre ++ new ++ post.
Proof.
  induction s as [| c s IH]; [left; reflexivity |]. cbn [replace_first].
  destruct (starts_with old (c :: s)) eqn:H.
  - right. exists [], (drop (length old) (c :: s)). cbn [app]. split; [| reflexivity].
    apply after_sound. unfold after. rewrite H. reflexivity.
  - destruct IH as [-> | (pre & post & Hs & ->)]; [left; reflexivity |].
    right. exists (c :: pre), post. cbn [app]. rewrite <- Hs. split; reflexivity.
Qed.

Section Callback.

Variable lower : list N -> list N.
Variable telegram : list event -> list sending -> sending -> result unit.

(** X16. Working the name of the user into a chunk puts the name, after a
    space or a comma, at one place of the chunk and changes nothing else
    of it; without a name the chunk is left as it is. *)
Theorem personalise_inserts (user_name chunk : list N) :
  exists pre ins post,
    chunk = pre ++ post /\
    personalise lower user_name chunk = pre ++ ins ++ post /\
    (ins = [] \/ ins = py " " ++ user_name \/ ins = py ", " ++ user_name) /\
    (user_name = [] -> ins = []).
Proof.
  assert (Hsame : exists pre ins post,
            chunk = pre ++ post /\ chunk = pre ++ ins ++ post /\
            (ins = [] \/ ins = py " " ++ user_name \/ ins = py ", " ++ user_name) /\
            (user_name = [] -> ins = [])).
  { exists [], [], chunk. cbn [app]. auto. }
  unfold personalise. destruct user_name as [| u name]; [exact Hsame |].
  cbn [truthy].
  destruct (existsb _ greetings).
  - destruct (replace_first_inserts (py "Hola") (py "Hola " ++ u :: name) chunk)
      as [-> | (pre & post & Hc & ->)]; [exact Hsame |].
    exists (pre ++ py "Hola"), (py " " ++ u :: name), post.
    assert (Hola : py "Hola " = py "Hola" ++ py " ") by (vm_compute; reflexivity).
    rewrite Hola, <- !app_assoc. split; [exact Hc |]. split; [reflexivity |].
    split; [auto | discriminate].
  - destruct (contains (py "espero") (lower chunk) && contains (py "!") chunk);
      [| exact Hsame].
    destruct (replace_first_inserts (py "!") (py ", " ++ (u :: name) ++ py "!") chunk)
      as [-> | (pre & post & Hc & ->)]; [exact Hsame |].
    exists pre, (py ", " ++ u :: name), (py "!" ++ post).
    rewrite <- !app_assoc. split; [exact Hc |]. split; [reflexivity |].
    split; [auto | discriminate].
Qed.

(** The callback, run: what it sends and how it ends. *)
Lemma send_to_telegram_cases user_name g tr chunk :
  exists o sent,
    send_to_telegram lower telegram user_name g tr chunk [] = (o, sent) /\
    (o = Val tt \/ exists m, o = Raise (BaseException m)) /\
    sent <> [] /\ sent `prefix_of` attempts lower user_name g chunk /\
    (forall a, a ∈ removelast sent -> exists done m,
       telegram tr done a = Err (Exception m)) /\
    (forall m, o = Raise (BaseException m) -> exists done a,
       telegram tr done a = Err (BaseException m)).
Proof.
  unfold send_to_telegram, attempts.
  set (c := personalise lower user_name chunk).
  set (a1 := {| chat_id := g; text := prepare_text_for_html c; mode := HTML |}).
  set (a2 := {| chat_id := g; text := c; mode := MARKDOWN |}).
  set (a3 := {| chat_id := g; text := c; mode := Plain |}).
  cbv beta iota delta [try_except send_message mret M_ret]. cbn [app].
  destruct (telegram tr [] a1) as [[] | [m1 | m1]] eqn:H1.
  - exists (Val tt), [a1]. split; [reflexivity |]; split; [auto |]; split; [discriminate |]; split; [| split; [| discriminate]].
    + exists [a2; a3]. reflexivity.
    + cbn [removelast]. intros a Ha. apply elem_of_nil in Ha as [].
  - destruct (telegram tr [a1] a2) as [[] | [m2 | m2]] eqn:H2.
    + exists (Val tt), [a1; a2]. split; [reflexivity |]; split; [auto |]; split; [discriminate |]; split; [| split; [| discriminate]].
      * exists [a3]. reflexivity.
      * cbn [removelast]. intros a Ha. apply list_elem_of_singleton in Ha as ->. eauto.
    + destruct (telegram tr [a1; a2] a3) as [[] | [m3 | m3]] eqn:H3.
      * exists (Val tt), [a1; a2; a3]. split; [reflexivity |]; split; [auto |]; split; [discriminate |]; split; [| split; [| discriminate]].
        -- exists []. reflexivity.
        -- cbn [removelast]. intros a Ha.
           apply elem_of_cons in Ha as [-> | Ha]; [eauto |].
           apply list_elem_of_singleton in Ha as ->. eauto.
      * exists (Val tt), [a1; a2; a3]. split; [reflexivity |]; split; [auto |]; split; [discriminate |]; split; [| split; [| discriminate]].
        -- exists []. reflexivity.
        -- cbn [removelast]. intros a Ha.
           apply elem_of_cons in Ha as [-> | Ha]; [eauto |].
           apply list_elem_of_singleton in Ha as ->. eauto.
      * exists (Raise (BaseException m3)), [a1; a2; a3].
        split; [reflexivity |]; split; [eauto |]; split; [discriminate |]; split; [| split; [| intros ? [= <-]; eauto]].
        -- exists []. reflexivity.
        -- cbn [removelast]. intros a Ha.
           apply elem_of_cons in Ha as [-> | Ha]; [eauto |].
           apply list_elem_of_singleton in Ha as ->. eauto.
    + exists (Raise (BaseException m2)), [a1; a2]. split; [reflexivity |]; split; [eauto |]; split; [discriminate |]; split; [| split; [| intros ? [= <-]; eauto]].
      * exists [a3]. reflexivity.
      * cbn [removelast]. intros a Ha. apply list_elem_of_singleton in Ha as ->. eauto.
  - exists (Raise (BaseException m1)), [a1]. split; [reflexivity |]; split; [eauto |]; split; [discriminate |]; split; [| split; [| intros ? [= <-]; eauto]].
    + exists [a2; a3]. reflexivity.
    + cbn [removelast]. intros a Ha. apply elem_of_nil in Ha as [].
Qed.

(** X17. The callback of [handle_turn] lets no ordinary exception out. It
    sends to the chat of the turn only: the chunk as HTML first, then the
    chunk itself as Markdown, then as plain text, and no more. When the
    chat refuses every sending, all three are made and the callback
    still ends normally. *)
Theorem send_to_telegram_swallows (user_name : list N) (g : Z)
    (tr : list event) (chunk : list N) :
  let run := send_to_telegram lower telegram user_name g tr chunk [] in
  (fst run = Val tt \/ exists m, fst run = Raise (BaseException m)) /\
  snd run <> [] /\
  snd run `prefix_of` attempts lower user_name g chunk /\
  Forall (fun a => chat_id a = g) (snd run) /\
  ((forall done a, exists m, telegram tr done a = Err (Exception m)) ->
   run = (Val tt, attempts lower user_name g chunk)).
Proof.
  cbv zeta.
  destruct (send_to_telegram_cases user_name g tr chunk)
    as (o & sent & Hrun & Ho & Hne & Hpre & Hfailed & _).
  rewrite Hrun. cbn [fst snd].
  split; [exact Ho |]. split; [exact Hne |]. split; [exact Hpre |]. split.
  - destruct Hpre as [rest Hrest].
    assert (Hall : Forall (fun a => chat_id a = g) (attempts lower user_name g chunk)).
    { unfold attempts. repeat constructor. }
    rewrite Hrest in Hall. apply Forall_app in Hall. apply Hall.
  - intros Hrefuse. rewrite <- Hrun. clear Hrun Ho Hne Hpre Hfailed.
    unfold send_to_telegram, attempts.
    cbv beta iota zeta delta [try_except send_message mret M_ret]. cbn [app].
    match goal with
    | |- context [telegram tr ?done ?a] => destruct (Hrefuse done a) as [m1 ->]
    end.
    match goal with
    | |- context [telegram tr ?done ?a] => destruct (Hrefuse done a) as [m2 ->]
    end.
    match goal with
    | |- context [telegram tr ?done ?a] => destruct (Hrefuse done a) as [m3 ->]
    end.
    reflexivity.
Qed.

End Callback.

(** *** [handle_turn] *)

(** [set_thread_id] on a free lock, with what it leaves alone. *)
Lemma set_thread_id_outcome (create : nat -> creation) (g : Z)
    (hint : option (list N)) (w : world) :
  lock_held g w = false ->
  exists r w',
    set_thread_id create g hint w = Some (r, w') /\
    lock_held g w' = false /\
    all_bots (mgr w') = all_bots (mgr w) /\
    threads (mgr w') = threads (mgr w) /\
    user_data (mgr w') = user_data (mgr w) /\
    (creations w' <= S (creations w))%nat /\
    match r with
    | Some h => h <> [] /\ get_thread_id g w' = Some h
    | None => dicts w' = dicts w /\ no_handle g w
    end.
Proof.
  intros Hfree.
  assert (Hentry :
    step create {| group_id := g; thread_id := hint; pos := AtEntry |} w
    = Some ({| group_id := g; thread_id := hint; pos := Locked |},
            set_lock g true (get_thread_lock g w))).
  { unfold step. cbn [pos group_id]. rewrite lock_held_get_thread_lock, Hfree. reflexivity. }
  set (w1 := set_lock g true (get_thread_lock g w)) in *.
  assert (Hget : get_thread_id g w1 = get_thread_id g w).
  { unfold w1, get_thread_id, set_lock, get_thread_lock, with_locks.
    destruct (thread_locks (mgr w) !! g); reflexivity. }
  assert (Hframe : dicts w1 = dicts w /\ creations w1 = creations w /\
                   all_bots (mgr w1) = all_bots (mgr w) /\
                   threads (mgr w1) = threads (mgr w) /\
                   user_data (mgr w1) = user_data (mgr w)).
  { unfold w1, set_lock, get_thread_lock, with_locks.
    destruct (thread_locks (mgr w) !! g); repeat split; reflexivity. }
  destruct Hframe as (Hd & Hc & Hb & Ht & Hu).
  unfold set_thread_id. cbn [run pos]. rewrite Hentry. cbn [run pos].
  unfold step at 1. cbn [pos group_id goto thread_id]. rewrite Hget.
  destruct (get_thread_id g w) as [[| e ex] |] eqn:Hold.
  1, 3: destruct hint as [[| c hint] |].
  all: cbn [run pos goto step group_id thread_id].
  all: try rewrite Hb; try rewrite Hc.
  all: try (destruct (all_bots (mgr w)) as [| b bots] eqn:Hbots;
            [| destruct (create (creations w)) as [| [[| c' id] |]]]);
       cbn [run pos goto step group_id thread_id].
  all: eexists _, _; (split; [reflexivity |]).
  all: (split; [apply lock_held_set_lock |]).
  all: cbn [set_lock with_locks mgr all_bots threads user_data count_creation
            record_thread with_dicts dicts].
  all: rewrite ?Hbots.
  all: (split; [first [exact Hb | congruence] |]).
  all: (split; [exact Ht |]).
  all: (split; [exact Hu |]).
  all: (split; [cbn [set_lock with_locks creations count_creation record_thread
                     with_dicts]; rewrite ?Hc; lia |]).
  all: try (split; [exact Hd | unfold no_handle; auto]).
  all: split; try discriminate.
  all: try (unfold get_thread_id; cbn [set_lock with_locks mgr dicts threads];
            apply get_thread_id_record).
  all: exact Hget.
Qed.

Lemma said_turn msg sent :
  said ((py "user", msg) :: map (pair (py "assistant")) sent) = sent.
Proof.
  unfold said. cbn [List.filter fst].
  replace (eq_str (py "user") (py "assistant")) with false by (vm_compute; reflexivity).
  induction sent as [| c sent IH]; [reflexivity |]. cbn [map List.filter fst].
  replace (eq_str (py "assistant") (py "assistant")) with true by (vm_compute; reflexivity).
  cbn [map snd]. f_equal. exact IH.
Qed.

(** A text turn whose callback raises no ordinary exception. *)
Lemma text_turn_summary (E : env) g msg s o s' :
  (forall tr c m, Handler.send_to_telegram E tr c <> Err (Exception m)) ->
  stream_response E g msg s = (o, s') ->
  (o = Val tt \/ exists m, o = Raise (BaseException m)) /\
  Handler.dicts s' = Handler.dicts s /\
  assistant_id (self s') = assistant_id (self s) /\
  Handler.threads (self s') = Handler.threads (self s) /\
  exists evs more,
    trace s' = trace s ++ evs /\
    message_history (self s') = message_history (self s) ++ more /\
    (delivers E ->
     said more = deliveries evs \/ deliveries evs = [busy_notice] /\ more = []).
Proof.
  intros Hsafe Hrun.
  destruct (text_turn_cases E g msg s)
    as [[H _] | [(tid & _ & _ & _ & H) | (tid & H & Hne & Hidle)]].
  - rewrite H in Hrun. injection Hrun as <- <-.
    split; [auto |]. do 3 (split; [reflexivity |]).
    exists [], []. rewrite !app_nil_r. auto.
  - rewrite H in Hrun. injection Hrun as <- <-.
    split.
    { destruct (Handler.send_to_telegram E (trace s) busy_notice) as [[] | [m | m]] eqn:Hs;
        cbn [ends_as]; [auto | | eauto].
      exfalso. exact (Hsafe _ _ _ Hs). }
    do 3 (split; [reflexivity |]).
    exists [Deliver busy_notice], []. rewrite app_nil_r.
    split; [reflexivity |]. split; [reflexivity |]. intros _. right. auto.
  - pose proof (text_turn_shape E g msg tid s o s' H Hne Hidle Hrun) as Hshape.
    destruct (messages_create E (trace s) tid (Text msg)) as [[] | e].
    + destruct Hshape as (dels & sent & (A1 & A2 & A3 & _ & A5 & A6) & _ & Hall & Ho).
      split; [exact Ho |]. do 3 (split; [assumption |]).
      eexists _, _. split; [exact A5 |]. split; [exact A6 |].
      intros Hd. left. rewrite said_turn. cbn [deliveries flat_map app].
      change (flat_map _ (map Deliver dels)) with (deliveries (map Deliver dels)).
      rewrite deliveries_map.
      destruct Hall as [-> | (c & tr & e & _ & Hc)]; [reflexivity |].
      rewrite Hd in Hc. discriminate.
    + destruct Hshape as [(A1 & A2 & A3 & _ & A5 & A6) Ho].
      split; [destruct e; eauto |]. do 3 (split; [assumption |]).
      eexists _, _. split; [exact A5 |]. split; [exact A6 |].
      intros _. left. reflexivity.
Qed.

Section HandleTurn.

Variable lower : list N -> list N.
Variable telegram : list event -> list sending -> sending -> result unit.
Variable P : env.
Variable create : nat -> creation.

Lemma delivered_cases user_name g tr chunk :
  delivered lower telegram user_name g tr chunk = Ok tt \/
  exists m, delivered lower telegram user_name g tr chunk = Err (BaseException m).
Proof.
  unfold delivered.
  destruct (send_to_telegram_cases lower telegram user_name g tr chunk)
    as (o & sent & -> & [-> | [m ->]] & _); cbn [fst]; eauto.
Qed.

Lemma delivered_safe user_name g tr chunk m :
  delivered lower telegram user_name g tr chunk <> Err (Exception m).
Proof.
  destruct (delivered_cases user_name g tr chunk) as [-> | [m' ->]]; discriminate.
Qed.

(** [handle_turn], statement by statement. *)
Lemma handle_turn_unfold g message w evs :
  handle_turn lower telegram P create g message {| world_of := w; events := evs |} =
  let w0 := match user_name_match message with
            | Some n => save_user_info g n w
            | None => w
            end in
  let msg := match user_name_match message with
             | Some _ => without_user_info message
             | None => message
             end in
  match set_thread_id create g (get_thread_id g w0) w0 with
  | None => (Diverge, {| world_of := w0; events := evs |})
  | Some (r, w1) =>
      match r, all_bots (mgr w1) with
      | Some (c :: tid), (x :: nm, h) :: rest =>
          let w2 :=
            if bool_decide (deref (dicts w1) (Handler.threads h) !! g
                            = Some (c :: tid))
            then w1
            else with_dicts (dict_set (Handler.threads h) g (c :: tid) (dicts w1)) w1 in
          let run :=
            stream_response (turn_env lower telegram P (get_user_name g w1) g) g msg
              {| Handler.dicts := dicts w2; self := h; trace := evs |} in
          (fst run,
           {| world_of := set_first_handler (self (snd run))
                            (with_dicts (Handler.dicts (snd run)) w2);
              events := trace (snd run) |})
      | _, _ => (Val tt, {| world_of := w1; events := evs |})
      end
  end.
Proof.
  cbv zeta. unfold handle_turn.
  cbv beta iota delta [function_body mbind M_bind mret M_ret early_return
                       try_except on_world ask resolve in_handler get_next_bot].
  cbn [world_of events].
  destruct (user_name_match message) as [n |]; cbn [world_of events].
  all: match goal with
       | |- context [set_thread_id ?cr ?gr ?hint ?w0] =>
           destruct (set_thread_id cr gr hint w0) as [[r w1] |]; [| reflexivity]
       end.
  all: destruct r as [[| c tid] |]; try reflexivity.
  all: cbn [world_of events].
  all: destruct (all_bots (mgr w1)) as [| [[| x nm] h] rest] eqn:Hbots;
       cbv beta iota delta [map head fst snd world_of events];
       rewrite ?Hbots;
       cbv beta iota delta [map head fst snd world_of events]; try reflexivity.
  all: destruct (bool_decide _) eqn:Hb;
       cbv beta iota delta [world_of events]; cbn [mgr all_bots with_dicts dicts].
  all: match goal with
       | |- context [stream_response ?E ?gr ?m ?st] =>
           destruct (stream_response E gr m st) as [o st'] eqn:Hrun
       end.
  all: apply text_turn_summary in Hrun as ([-> | [m ->]] & _);
       [reflexivity | reflexivity | intros; apply delivered_safe ..].
Qed.

Lemma set_thread_id_blocked g hint w :
  lock_held g w = true -> set_thread_id create g hint w = None.
Proof.
  intros H. unfold set_thread_id. cbn [run pos]. unfold step. cbn [pos group_id].
  rewrite lock_held_get_thread_lock, H. reflexivity.
Qed.

Lemma save_user_info_frame g n w :
  lock_held g (save_user_info g n w) = lock_held g w /\
  get_thread_id g (save_user_info g n w) = get_thread_id g w /\
  get_user_name g (save_user_info g n w) = n.
Proof.
  unfold save_user_info, lock_held, get_thread_id, get_user_name.
  cbn [mgr thread_locks dicts threads user_data].
  rewrite lookup_insert_eq. cbn. rewrite lookup_insert_eq. auto.
Qed.

(** What the message is taken for: the world with the name of the tag
    saved, and the message without the tag. *)
Lemma handle_turn_run g message w evs :
  lock_held g w = false ->
  exists o w' evs' more,
    handle_turn lower telegram P create g message {| world_of := w; events := evs |}
      = (o, {| world_of := w'; events := evs ++ evs' |}) /\
    (o = Val tt \/ exists m, o = Raise (BaseException m)) /\
    lock_held g w' = false /\
    get_user_name g w' = match user_name_match message with
                         | Some n => n
                         | None => get_user_name g w
                         end /\
    map fst (all_bots (mgr w')) = map fst (all_bots (mgr w)) /\
    tail (all_bots (mgr w')) = tail (all_bots (mgr w)) /\
    first_history w' = first_history w ++ more /\
    ((forall tr done a m, telegram tr done a <> Err (BaseException m)) ->
     said more = deliveries evs' \/ deliveries evs' = [busy_notice] /\ more = []) /\
    match get_thread_id g w', all_bots (mgr w') with
    | Some (c :: tid), (_ :: _, _) :: _ => first_handle g w' = Some (c :: tid)
    | _, _ => evs' = []
    end.
Proof.
  intros Hfree. rewrite handle_turn_unfold. cbv zeta.
  set (w0 := match user_name_match message with
             | Some n => save_user_info g n w
             | None => w
             end).
  assert (H0 : lock_held g w0 = false /\
               all_bots (mgr w0) = all_bots (mgr w) /\
               get_user_name g w0 = match user_name_match message with
                                    | Some n => n
                                    | None => get_user_name g w
                                    end).
  { unfold w0. destruct (user_name_match message) as [n |]; [| auto].
    destruct (save_user_info_frame g n w) as (-> & _ & ->). auto. }
  destruct H0 as (Hfree0 & Hbots0 & Hname0).
  destruct (set_thread_id_outcome create g (get_thread_id g w0) w0 Hfree0)
    as (r & w1 & -> & Hfree1 & Hbots1 & Hthreads1 & Hdata1 & _ & Hr).
  assert (Hname1 : get_user_name g w1 = get_user_name g w0).
  { unfold get_user_name. rewrite Hdata1. reflexivity. }
  assert (Hquiet :
    match get_thread_id g w1, all_bots (mgr w1) with
    | Some (c :: tid), (_ :: _, _) :: _ => False
    | _, _ => True
    end ->
    exists o w' evs' more,
      (Val tt, {| world_of := w1; events := evs |})
        = (o, {| world_of := w'; events := evs ++ evs' |}) /\
      (o = Val tt \/ exists m, o = Raise (BaseException m)) /\
      lock_held g w' = false /\
      get_user_name g w' = match user_name_match message with
                           | Some n => n
                           | None => get_user_name g w
                           end /\
      map fst (all_bots (mgr w')) = map fst (all_bots (mgr w)) /\
      tail (all_bots (mgr w')) = tail (all_bots (mgr w)) /\
      first_history w' = first_history w ++ more /\
      ((forall tr done a m, telegram tr done a <> Err (BaseException m)) ->
       said more = deliveries evs' \/ deliveries evs' = [busy_notice] /\ more = []) /\
      match get_thread_id g w', all_bots (mgr w') with
      | Some (c :: tid), (_ :: _, _) :: _ => first_handle g w' = Some (c :: tid)
      | _, _ => evs' = []
      end).
  { intros Hmatch. exists (Val tt), w1, [], []. rewrite !app_nil_r.
    split; [reflexivity |]. split; [auto |]. split; [exact Hfree1 |].
    split; [congruence |]. split; [congruence |]. split; [congruence |].
    split; [unfold first_history; rewrite Hbots1, Hbots0; reflexivity |].
    split; [auto |].
    destruct (get_thread_id g w1) as [[| c tid] |]; try reflexivity.
    destruct (all_bots (mgr w1)) as [| [[| x nm] h] rest];
      try reflexivity; contradiction. }
  destruct r as [[| c tid] |].
  - destruct Hr as [Hr _]. congruence.
  - destruct Hr as [_ Hget].
    destruct (all_bots (mgr w1)) as [| [[| x nm] h] rest] eqn:Hb1.
    + apply Hquiet. rewrite Hget. exact I.
    + apply Hquiet. rewrite Hget. exact I.
    + clear Hquiet.
      set (w2 := if bool_decide (deref (dicts w1) (Handler.threads h) !! g
                                 = Some (c :: tid))
                 then w1
                 else with_dicts (dict_set (Handler.threads h) g (c :: tid) (dicts w1))
                        w1).
      assert (H2 : mgr w2 = mgr w1 /\
                   deref (dicts w2) (Handler.threads h) !! g = Some (c :: tid) /\
                   get_thread_id g w2 = Some (c :: tid)).
      { unfold w2. case_bool_decide as Hk; [auto |].
        split; [reflexivity |]. unfold get_thread_id. cbn [with_dicts dicts mgr].
        rewrite !deref_dict_set. split.
        - rewrite decide_True; auto.
        - case_decide; [reflexivity | exact Hget]. }
      destruct H2 as (Hmgr2 & Hh2 & Hget2).
      destruct (stream_response _ g _ _) as [o st'] eqn:Hrun.
      apply text_turn_summary in Hrun
        as (Ho & Hd & _ & Ht & evs' & more & Htr & Hhist & Hsaid);
        [| intros; apply delivered_safe].
      cbn [fst snd Handler.dicts self trace] in *.
      exists o, (set_first_handler (self st') (with_dicts (Handler.dicts st') w2)),
             evs', more.
      rewrite Htr. split; [reflexivity |]. split; [exact Ho |].
      set (w' := set_first_handler (self st') (with_dicts (Handler.dicts st') w2)).
      assert (Hbots' : all_bots (mgr w') = (x :: nm, self st') :: rest).
      { unfold w', set_first_handler. cbn [mgr with_dicts all_bots].
        rewrite Hmgr2, Hb1. reflexivity. }
      assert (Hmgr' : thread_locks (mgr w') = thread_locks (mgr w1) /\
                      user_data (mgr w') = user_data (mgr w1) /\
                      threads (mgr w') = threads (mgr w1) /\
                      dicts w' = dicts w2).
      { unfold w', set_first_handler. cbn [mgr with_dicts thread_locks user_data threads dicts].
        rewrite Hmgr2, Hd. auto. }
      destruct Hmgr' as (Hlocks' & Hdata' & Hthreads' & Hdicts').
      split; [unfold lock_held in *; rewrite Hlocks'; exact Hfree1 |].
      split; [rewrite <- Hname0, <- Hname1; unfold get_user_name; rewrite Hdata';
              reflexivity |].
      split; [rewrite Hbots', <- Hbots0, <- Hbots1; reflexivity |].
      split; [rewrite Hbots', <- Hbots0, <- Hbots1; reflexivity |].
      split; [unfold first_history; rewrite Hbots', <- Hbots0, <- Hbots1;
              exact Hhist |].
      split.
      * intros Hnever. apply Hsaid. intros tr chunk.
        destruct (delivered_cases (get_user_name g w1) g tr chunk) as [Hok | [m Hm]];
          [exact Hok |].
        exfalso. unfold delivered in Hm.
        destruct (send_to_telegram_cases lower telegram (get_user_name g w1) g tr chunk)
          as (o' & sent & Hrun' & _ & _ & _ & _ & Hbase).
        rewrite Hrun' in Hm. cbn [fst] in Hm.
        destruct o' as [[] | | [m' | m'] |]; try discriminate.
        injection Hm as ->. destruct (Hbase m eq_refl) as (done & a & Ha).
        exact (Hnever _ _ _ _ Ha).
      * assert (Hget' : get_thread_id g w' = Some (c :: tid)).
        { unfold get_thread_id in *. rewrite Hthreads', Hdicts', <- Hmgr2. exact Hget2. }
        rewrite Hget', Hbots'. unfold first_handle. rewrite Hbots'. cbn [snd].
        rewrite Hdicts', Ht. exact Hh2.
  - destruct Hr as [Hd Hno]. apply Hquiet.
    assert (Hget : get_thread_id g w1 = get_thread_id g w0).
    { unfold get_thread_id. rewrite Hd, Hthreads1. reflexivity. }
    rewrite Hget. destruct Hno as [-> | ->]; exact I.
Qed.

(** X18. With the lock of the chat free, [handle_turn] returns: no ordinary
    exception gets out of it, the lock is free again afterwards, and the
    name in the tag of the message, if there is one, is the name of the
    user from then on, whether or not an answer was produced. *)
Theorem handle_turn_returns (g : Z) (message : list N) (s : session) :
  lock_held g (world_of s) = false ->
  exists o s',
    handle_turn lower telegram P create g message s = (o, s') /\
    (o = Val tt \/ exists m, o = Raise (BaseException m)) /\
    lock_held g (world_of s') = false /\
    get_user_name g (world_of s') =
      match user_name_match message with
      | Some n => n
      | None => get_user_name g (world_of s)
      end.
Proof.
  destruct s as [w evs]. cbn [world_of]. intros Hfree.
  destruct (handle_turn_run g message w evs Hfree)
    as (o & w' & evs' & more & Hrun & Ho & Hlock & Hname & _).
  exists o, {| world_of := w'; events := evs ++ evs' |}. cbn [world_of].
  split; [exact Hrun |]. split; [exact Ho |]. split; [exact Hlock | exact Hname].
Qed.

(** The provider is asked for a thread at most once in a turn. *)
Lemma handle_turn_creations g message w evs :
  lock_held g w = false ->
  (creations (world_of (snd (handle_turn lower telegram P create g message
                               {| world_of := w; events := evs |})))
   <= S (creations w))%nat.
Proof.
  intros Hfree. rewrite handle_turn_unfold. cbv zeta.
  set (w0 := match user_name_match message with
             | Some n => save_user_info g n w
             | None => w
             end).
  assert (H0 : lock_held g w0 = false /\ creations w0 = creations w).
  { unfold w0. destruct (user_name_match message) as [n |]; [| auto].
    destruct (save_user_info_frame g n w) as (-> & _). auto. }
  destruct H0 as [Hfree0 Hcre0].
  destruct (set_thread_id_outcome create g (get_thread_id g w0) w0 Hfree0)
    as (r & w1 & -> & _ & _ & _ & _ & Hcre1 & _).
  rewrite Hcre0 in Hcre1.
  destruct r as [[| c tid] |]; cbn [snd world_of]; try exact Hcre1.
  destruct (all_bots (mgr w1)) as [| [[| x nm] h] rest]; cbn [snd world_of];
    try exact Hcre1.
  unfold set_first_handler. cbn [creations with_dicts].
  destruct (bool_decide _); exact Hcre1.
Qed.

(** X19. After [handle_turn], when the manager has a usable handle for the
    chat and the first bot has a name, the handler of that bot has the
    same handle for the chat; otherwise the turn has left no event: no
    message was posted, no run was streamed and nothing was delivered.
    Either way the provider was asked for a new thread at most once;
    such a request is counted by the manager and is not an event. *)
Theorem handle_turn_agrees (g : Z) (message : list N) (s : session) :
  lock_held g (world_of s) = false ->
  let s' := snd (handle_turn lower telegram P create g message s) in
  (creations (world_of s') <= S (creations (world_of s)))%nat /\
  match get_thread_id g (world_of s'), all_bots (mgr (world_of s')) with
  | Some (c :: tid), (_ :: _, _) :: _ => first_handle g (world_of s') = Some (c :: tid)
  | _, _ => events s' = events s
  end.
Proof.
  destruct s as [w evs]. cbn [world_of events]. intros Hfree.
  split; [apply handle_turn_creations, Hfree |].
  destruct (handle_turn_run g message w evs Hfree)
    as (o & w' & evs' & more & Hrun & _ & _ & _ & _ & _ & _ & _ & Hmatch).
  rewrite Hrun. cbn [snd world_of events].
  destruct (get_thread_id g w') as [[| c tid] |];
    try (rewrite Hmatch, app_nil_r; reflexivity).
  destruct (all_bots (mgr w')) as [| [[| x nm] h] rest];
    try (rewrite Hmatch, app_nil_r; reflexivity).
  exact Hmatch.
Qed.

(** X20. [handle_turn] works with the first bot only: the names of the
    bots and the handler objects of all bots but the first (their
    history, their in-progress flags, their assistant id and which dict
    of handles they hold) are as they were, whatever the message and
    whatever happens in the turn. What the dicts of handles contain is
    not part of a handler object: [set_thread_id] writes a new handle
    into the dict of every bot. *)
Theorem handle_turn_first_bot_only (g : Z) (message : list N) (s : session) :
  let s' := snd (handle_turn lower telegram P create g message s) in
  map fst (all_bots (mgr (world_of s'))) = map fst (all_bots (mgr (world_of s))) /\
  tail (all_bots (mgr (world_of s'))) = tail (all_bots (mgr (world_of s))).
Proof.
  destruct s as [w evs]. cbn [world_of events].
  destruct (lock_held g w) eqn:Hlock.
  - rewrite handle_turn_unfold. cbv zeta.
    assert (Hheld : lock_held g match user_name_match message with
                                | Some n => save_user_info g n w
                                | None => w
                                end = true).
    { destruct (user_name_match message) as [n |]; [| exact Hlock].
      destruct (save_user_info_frame g n w) as (-> & _). exact Hlock. }
    rewrite (set_thread_id_blocked _ _ _ Hheld). cbn [snd world_of].
    destruct (user_name_match message); split; reflexivity.
  - destruct (handle_turn_run g message w evs Hlock)
      as (o & w' & evs' & more & Hrun & _ & _ & _ & Hnames & Htail & _).
    rewrite Hrun. cbn [snd world_of]. split; [exact Hnames | exact Htail].
Qed.

(** X21. When the chat fails with ordinary exceptions only, however often,
    the history of the first bot records as said by the assistant every
    chunk that was handed to the callback in the turn, the busy notice
    apart: a chunk that the chat refused three times is recorded like one
    that arrived. *)
Theorem handle_turn_records_undelivered (g : Z) (message : list N) (s : session) :
  lock_held g (world_of s) = false ->
  (forall tr done a m, telegram tr done a <> Err (BaseException m)) ->
  let s' := snd (handle_turn lower telegram P create g message s) in
  exists evs more,
    events s' = events s ++ evs /\
    first_history (world_of s') = first_history (world_of s) ++ more /\
    (said more = deliveries evs \/ deliveries evs = [busy_notice] /\ more = []).
Proof.
  destruct s as [w evs]. cbn [world_of events]. intros Hfree Hnever.
  destruct (handle_turn_run g message w evs Hfree)
    as (o & w' & evs' & more & Hrun & _ & _ & _ & _ & _ & Hhist & Hsaid & _).
  rewrite Hrun. cbn [snd world_of events]. exists evs', more.
  split; [reflexivity |]. split; [exact Hhist |]. apply Hsaid, Hnever.
Qed.

(** X22. A message that carries the tag of [process_message] is handled as
    the text of the user without its leading whitespace, by a manager
    that knows the name of the user. *)
Theorem handle_turn_reads_tag (g : Z) (name text : list N) (s : session) :
  name <> [] -> ~ In c_rbracket name ->
  contains user_info_open text = false ->
  handle_turn lower telegram P create g (enhanced_message name text) s =
  handle_turn lower telegram P create g (lstrip text)
    {| world_of := save_user_info g name (world_of s); events := events s |}.
Proof.
  intros Hne Hname Htext. destruct s as [w evs]. cbn [world_of events].
  assert (Hread : user_name_match (enhanced_message name text) = Some name /\
                  without_user_info (enhanced_message name text) = lstrip text).
  { unfold enhanced_message. rewrite <- !app_assoc. cbn [app].
    change (lstrip text) with (lstrip (c_nl :: c_nl :: text)).
    apply enhanced_message_read; [exact Hne | exact Hname |].
    change (lstrip (c_nl :: c_nl :: text)) with (lstrip text).
    apply contains_lstrip, Htext. }
  destruct Hread as [Hn Hm].
  assert (Hbare : user_name_match (lstrip text) = None).
  { unfold user_name_match.
    destruct (untagged user_info_open re_user_info re_user_info_line
                re_user_info_is re_user_info_line_is (lstrip text)
                (contains_lstrip _ _ Htext)) as [-> _].
    reflexivity. }
  rewrite !handle_turn_unfold. cbv zeta. rewrite Hn, Hm, Hbare. reflexivity.
Qed.

End HandleTurn.

Lemma handle_turn_returns_witness :
  lock_held 7 (world_of (fresh office)) = false /\
  exists o s',
    handle_turn ascii_lower plain_only calm (gives (py "thread_N")) 7
      (enhanced_message (py "Eva") (py "hola")) (fresh office) = (o, s') /\
    (o = Val tt \/ exists m, o = Raise (BaseException m)) /\
    lock_held 7 (world_of s') = false /\
    get_user_name 7 (world_of s') =
      match user_name_match (enhanced_message (py "Eva") (py "hola")) with
      | Some n => n
      | None => get_user_name 7 (world_of (fresh office))
      end.
Proof.
  split; [vm_compute; reflexivity |].
  apply (handle_turn_returns ascii_lower plain_only calm (gives (py "thread_N")) 7
           (enhanced_message (py "Eva") (py "hola")) (fresh office)).
  vm_compute. reflexivity.
Defined.

Lemma handle_turn_agrees_witness :
  lock_held 7 (world_of (fresh office)) = false /\
  let s' := snd (handle_turn ascii_lower plain_only calm (gives (py "thread_N")) 7
                   (py "hola") (fresh office)) in
  (creations (world_of s') <= S (creations (world_of (fresh office))))%nat /\
  match get_thread_id 7 (world_of s'), all_bots (mgr (world_of s')) with
  | Some (c :: tid), (_ :: _, _) :: _ => first_handle 7 (world_of s') = Some (c :: tid)
  | _, _ => events s' = events (fresh office)
  end.
Proof.
  split; [vm_compute; reflexivity |].
  apply (handle_turn_agrees ascii_lower plain_only calm (gives (py "thread_N")) 7
           (py "hola") (fresh office)).
  vm_compute. reflexivity.
Defined.

Lemma handle_turn_records_undelivered_witness :
  lock_held 7 (world_of (fresh office)) = false /\
  (forall tr done a m, refusing tr done a <> Err (BaseException m)) /\
  exists evs more,
    events (snd (handle_turn ascii_lower refusing calm (gives (py "thread_N")) 7
                   (py "hola") (fresh office))) = events (fresh office) ++ evs /\
    first_history (world_of (snd (handle_turn ascii_lower refusing calm
                                    (gives (py "thread_N")) 7 (py "hola")
                                    (fresh office))))
      = first_history (world_of (fresh office)) ++ more /\
    (said more = deliveries evs \/ deliveries evs = [busy_notice] /\ more = []).
Proof.
  split; [vm_compute; reflexivity |].
  split; [intros tr done a m; discriminate |].
  apply (handle_turn_records_undelivered ascii_lower refusing calm
           (gives (py "thread_N")) 7 (py "hola") (fresh office)).
  - vm_compute. reflexivity.
  - intros tr done a m. discriminate.
Defined.

Lemma handle_turn_reads_tag_witness :
  handle_turn ascii_lower plain_only calm (gives (py "thread_N")) 7
    (enhanced_message (py "Eva") (py "  hola")) (fresh office) =
  handle_turn ascii_lower plain_only calm (gives (py "thread_N")) 7 (py "hola")
    {| world_of := save_user_info 7 (py "Eva") office; events := [] |}.
Proof.
  apply (handle_turn_reads_tag ascii_lower plain_only calm (gives (py "thread_N")) 7
           (py "Eva") (py "  hola") (fresh office)).
  - vm_compute. discriminate.
  - vm_compute. intuition discriminate.
  - vm_compute. reflexivity.
Defined.

End ChatFacts.

Module InboxFacts.

Import Handler Manager ReObs ManagerObs HandlerObs TurnObs Chat ChatObs Inbox InboxObs.
Import ReformatFacts ManagerFacts HandlerFacts TurnFacts TagFacts ChatFacts.

Section ProcessMessage.

Variable lower : list N -> list N.
Variable telegram : list event -> list sending -> sending -> result unit.
Variable P : env.
Variable create : nat -> creation.
Variable username : list N.

(** The loop over the entities of a message that names the bot, in a
    chat without a conversation. *)
Lemma mention_raises g text enhanced (l : list entity) d :
  is_active g (world_of (session_of d)) = false ->
  existsb (names_bot username text) l = true ->
  for_each l (fun entity =>
    if names_bot username text entity then
      active ← in_manager (ask (is_active g));
      (if negb active then raise not_callable else mret tt);;
      in_manager (handle_turn lower telegram P create g enhanced)
    else mret tt) d
  = (Raise not_callable, d).
Proof.
  intros Hidle. induction l as [| e l IH]; cbn [existsb]; [discriminate |].
  intros H. cbn [for_each].
  cbv beta iota delta [mbind M_bind mret M_ret in_manager ask raise].
  destruct (names_bot username text e) eqn:He.
  - rewrite Hidle. cbn [negb]. destruct d; reflexivity.
  - cbn [orb] in H. apply IH, H.
Qed.

(** X23. In a chat that is not private and has no conversation yet, a
    message that mentions the bot is not handled: [process_message]
    raises the [TypeError] of calling the dict [active_conversation],
    after storing the name of the sender in [chat_data]; the manager is
    as it was and nothing was sent. *)
Theorem group_mention_cannot_start (u : update) (m : message) (d : desk) :
  update_message u = Some m -> from_is_bot m = false ->
  chat_type u <> py "private" ->
  is_active (effective_chat_id u) (world_of (session_of d)) = false ->
  existsb (names_bot username (message_text m)) (entities m) = true ->
  exists d',
    process_message lower telegram P create username u d = (Raise not_callable, d') /\
    session_of d' = session_of d /\ outbox d' = outbox d /\
    active_conversation d' = active_conversation d /\
    (chat_data d' !! py "user_info") ≫= (fun info => info !! py "name")
      = Some (first_name m).
Proof.
  intros Hm Hbot Htype Hidle Hnames.
  exists (snd (remember_name (first_name m) d)).
  unfold process_message. rewrite Hm, Hbot.
  unfold function_body, mbind at 1, M_bind at 1, remember_name.
  cbv beta iota zeta.
  unfold eq_str. rewrite bool_decide_eq_false_2 by exact Htype.
  rewrite mention_raises; [| exact Hidle | exact Hnames].
  split; [reflexivity |]. do 3 (split; [reflexivity |]).
  cbn [chat_data snd]. rewrite lookup_insert_eq. cbn. apply lookup_insert_eq.
Qed.

(** X24. In a private chat [process_message] sends nothing itself, the
    dict [active_conversation] being empty as it always is: it stores
    the name of the sender in [chat_data] and hands the message with its
    tag to [handle_turn], after which the manager knows the name too; no
    ordinary exception gets out. *)
Theorem private_message_is_handled (u : update) (m : message) (d : desk) :
  update_message u = Some m -> from_is_bot m = false ->
  chat_type u = py "private" ->
  active_conversation d !! effective_chat_id u = None ->
  lock_held (effective_chat_id u) (world_of (session_of d)) = false ->
  first_name m <> [] -> ~ In c_rbracket (first_name m) ->
  contains user_info_open (message_text m) = false ->
  exists o d',
    process_message lower telegram P create username u d = (o, d') /\
    (o = Val tt \/ exists e, o = Raise (BaseException e)) /\
    session_of d'
      = snd (handle_turn lower telegram P create (effective_chat_id u)
               (enhanced_message (first_name m) (message_text m)) (session_of d)) /\
    outbox d' = outbox d /\
    get_user_name (effective_chat_id u) (world_of (session_of d')) = first_name m /\
    (chat_data d' !! py "user_info") ≫= (fun info => info !! py "name")
      = Some (first_name m).
Proof.
  intros Hm Hbot Htype Hnone Hfree Hne Hname Htext.
  destruct d as [[w evs] data known out]. cbn [session_of world_of active_conversation] in *.
  destruct (handle_turn_run lower telegram P create (effective_chat_id u)
              (enhanced_message (first_name m) (message_text m)) w evs Hfree)
    as (o & w' & evs' & more & Hrun & Ho & _ & Hknown & _).
  assert (Hread : user_name_match (enhanced_message (first_name m) (message_text m))
                  = Some (first_name m)).
  { unfold enhanced_message. rewrite <- !app_assoc. cbn [app].
    apply enhanced_message_read; [exact Hne | exact Hname |].
    change (lstrip (c_nl :: c_nl :: message_text m)) with (lstrip (message_text m)).
    apply contains_lstrip, Htext. }
  rewrite Hread in Hknown.
  exists o,
    (with_session {| world_of := w'; events := evs ++ evs' |}
       (snd (remember_name (first_name m)
               {| session_of := {| world_of := w; events := evs |};
                  chat_data := data; active_conversation := known;
                  outbox := out |}))).
  unfold process_message. rewrite Hm, Hbot, Htype.
  replace (eq_str (py "private") (py "private")) with true by (vm_compute; reflexivity).
  cbv beta iota zeta delta [function_body mbind M_bind mret M_ret in_manager ask
                            remember_name session_of world_of active_conversation
                            with_session chat_data outbox fst snd].
  assert (Hdead : bool_decide (is_Some (known !! effective_chat_id u)) = false).
  { rewrite Hnone. apply bool_decide_eq_false. intros [? [=]]. }
  rewrite Hrun.
  destruct (is_active (effective_chat_id u) w); cbn [negb];
    cbv beta iota delta [session_of world_of active_conversation
                         with_session chat_data outbox fst snd];
    rewrite ?Hdead, ?Hrun;
    cbv beta iota delta [session_of world_of active_conversation
                         with_session chat_data outbox fst snd].
  all: (split; [destruct Ho as [-> | [e ->]]; reflexivity |]).
  all: (split; [exact Ho |]).
  all: do 2 (split; [reflexivity |]).
  all: (split; [exact Hknown |]).
  all: rewrite lookup_insert_eq; cbn; apply lookup_insert_eq.
Qed.

End ProcessMessage.

Lemma group_mention_cannot_start_witness :
  exists d',
    process_message ascii_lower plain_only calm (gives (py "thread_N")) (py "regen_bot")
      group_hello front_desk = (Raise not_callable, d') /\
    session_of d' = session_of front_desk /\ outbox d' = outbox front_desk /\
    active_conversation d' = active_conversation front_desk /\
    (chat_data d' !! py "user_info") ≫= (fun info => info !! py "name")
      = Some (py "Eva").
Proof.
  apply (group_mention_cannot_start ascii_lower plain_only calm (gives (py "thread_N"))
           (py "regen_bot") group_hello
           {| from_is_bot := false; first_name := py "Eva";
              message_text := py "@regen_bot hola";
              entities := [ {| entity_type := py "mention"; entity_offset := 0;
                               entity_length := 10 |} ] |}
           front_desk).
  - reflexivity.
  - reflexivity.
  - vm_compute. discriminate.
  - vm_compute. reflexivity.
  - vm_compute. reflexivity.
Defined.

Lemma private_message_is_handled_witness :
  exists o d',
    process_message ascii_lower plain_only calm (gives (py "thread_N")) (py "regen_bot")
      private_hello front_desk = (o, d') /\
    (o = Val tt \/ exists e, o = Raise (BaseException e)) /\
    session_of d'
      = snd (handle_turn ascii_lower plain_only calm (gives (py "thread_N")) 7
               (enhanced_message (py "Eva") (py "hola")) (session_of front_desk)) /\
    outbox d' = outbox front_desk /\
    get_user_name 7 (world_of (session_of d')) = py "Eva" /\
    (chat_data d' !! py "user_info") ≫= (fun info => info !! py "name")
      = Some (py "Eva").
Proof.
  apply (private_message_is_handled ascii_lower plain_only calm (gives (py "thread_N"))
           (py "regen_bot") private_hello
           {| from_is_bot := false; first_name := py "Eva";
              message_text := py "hola"; entities := [] |}
           front_desk).
  - reflexivity.
  - reflexivity.
  - reflexivity.
  - reflexivity.
  - vm_compute. reflexivity.
  - vm_compute. discriminate.
  - vm_compute. intuition discriminate.
  - vm_compute. reflexivity.
Defined.

End InboxFacts.

Module ImagesFacts.

Import Handler Manager ReObs ManagerObs HandlerObs TurnObs Chat ChatObs Images ImagesObs.
Import ReformatFacts ManagerFacts HandlerFacts TurnFacts TagFacts ChatFacts.

Lemma contained_ret {S A} (a : A) : contained (mret a : M S A).
Proof. intros s msg. discriminate. Qed.

Lemma contained_early {S A} : contained (early_return : M S A).
Proof. intros s msg. discriminate. Qed.

Lemma contained_bind {S A B} (m : M S A) (k : A -> M S B) :
  contained m -> (forall a, contained (k a)) -> contained (m ≫= k).
Proof.
  intros Hm Hk s msg. unfold mbind, M_bind. specialize (Hm s).
  destruct (m s) as [[a | | e |] s']; cbn [fst] in *;
    [apply Hk | discriminate | | discriminate].
  intros [= ->]. exact (Hm msg eq_refl).
Qed.

(** A [try] block whose handler is contained is contained, whatever
    its body does. *)
Lemma contained_try_except {S A} (m : M S A) (h : exn -> M S A) :
  (forall e, contained (h e)) -> contained (try_except m h).
Proof.
  intros Hh s msg. unfold try_except.
  destruct (m s) as [[a | | [e | e] |] s']; cbn [fst]; try discriminate.
  apply Hh.
Qed.

Lemma contained_try_finally {S A} (m : M S A) (fin : M S unit) :
  contained m -> contained fin -> contained (try_finally m fin).
Proof.
  intros Hm Hf s msg. unfold try_finally. specialize (Hm s).
  destruct (m s) as [[a | | e |] s']; cbn [fst] in *; try discriminate.
  all: specialize (Hf s'); destruct (fin s') as [[[] | | e' |] s'']; cbn [fst] in *;
       try discriminate.
  all: intros [= ->]; first [exact (Hm msg eq_refl) | exact (Hf msg eq_refl)].
Qed.

Lemma contained_function_body {S} (m : M S unit) :
  contained m -> contained (function_body m).
Proof.
  intros Hm s msg. unfold function_body. specialize (Hm s).
  destruct (m s) as [[[] | | e |] s']; cbn [fst] in *; try discriminate. apply Hm.
Qed.

Section Contained.

Variable E : env.

Hypothesis callback_contained :
  forall tr c msg, Handler.send_to_telegram E tr c <> Err (Exception msg).

Lemma contained_deliver c : contained (deliver E c).
Proof.
  intros s msg. unfold deliver, lift.
  destruct (Handler.send_to_telegram E (trace s) c) as [[] | e] eqn:H; cbn [fst];
    [discriminate |].
  intros [= ->]. exact (callback_contained _ _ _ H).
Qed.

Lemma contained_flag tid b : contained (in_progress_set tid b).
Proof. intros s msg. discriminate. Qed.

Lemma contained_say r c : contained (history_append r c).
Proof. intros s msg. discriminate. Qed.

Lemma image_turn_contained fuel g msg path :
  contained (stream_image_response E fuel g msg path).
Proof.
  unfold stream_image_response.
  apply contained_function_body, contained_bind; [intros s m; discriminate |].
  intros [[| c tid] |]; try apply contained_early.
  apply contained_bind; [intros s m; discriminate |].
  intros [|].
  { apply contained_bind; [apply contained_deliver | intros _; apply contained_early]. }
  apply contained_try_finally; [| apply contained_flag].
  apply contained_bind; [apply contained_flag | intros _].
  apply contained_bind; [apply contained_deliver | intros _].
  apply contained_bind; [intros s m; discriminate | intros assistant].
  apply contained_bind.
  { apply contained_try_except. intros e. apply contained_ret. }
  intros model_name. apply contained_bind.
  { apply contained_try_except. intros e.
    apply contained_bind; [apply contained_deliver | intros _].
    apply contained_bind; [apply contained_flag | intros _; apply contained_early]. }
  intros file_id.
  apply contained_bind; [apply contained_say | intros _].
  apply contained_try_except. intros e. apply contained_deliver.
Qed.

Lemma text_turn_contained g msg : contained (stream_response E g msg).
Proof.
  intros s m H.
  destruct (stream_response E g msg s) as [o s'] eqn:Hrun. cbn [fst] in H. subst o.
  apply text_turn_summary in Hrun as ([? | [? ?]] & _);
    [discriminate | discriminate | exact callback_contained].
Qed.

End Contained.

(** X25. A turn raises an ordinary exception only if the delivery callback
    does: with a callback that raises none, neither [stream_response] nor
    [stream_image_response] ends with one, whatever the provider, the
    clock and the files do. *)
Theorem turns_contain_failures (E : env) (fuel : nat) (g : Z)
    (msg path : list N) (s : state) :
  (forall tr c m, Handler.send_to_telegram E tr c <> Err (Exception m)) ->
  (forall m, fst (stream_response E g msg s) <> Raise (Exception m)) /\
  (forall m, fst (stream_image_response E fuel g msg path s) <> Raise (Exception m)).
Proof.
  intros Hsafe. split; intros m.
  - apply (text_turn_contained E Hsafe g msg s m).
  - apply (image_turn_contained E Hsafe fuel g msg path s m).
Qed.

Lemma silent_ret {A} (a : A) : silent (mret a).
Proof. intros st. split; [reflexivity | discriminate]. Qed.

Lemma silent_early {A} : silent (early_return : M studio A).
Proof. intros st. split; [reflexivity | discriminate]. Qed.

Lemma silent_bind {A B} (m : M studio A) (k : A -> M studio B) :
  silent m -> (forall a, silent (k a)) -> silent (m ≫= k).
Proof.
  intros Hm Hk st. unfold mbind, M_bind. destruct (Hm st) as [Hn Ho].
  destruct (m st) as [[a | | e |] st']; cbn [fst snd] in *.
  - destruct (Hk a st') as [Hn' Ho']. split; [congruence | exact Ho'].
  - split; [exact Hn | discriminate].
  - split; [exact Hn |]. intros msg [= ->]. exact (Ho msg eq_refl).
  - split; [exact Hn | discriminate].
Qed.

(** The handler of a [try] block whose body is silent does not run. *)
Lemma silent_try_except {A} (m : M studio A) (h : exn -> M studio A) :
  silent m -> silent (try_except m h).
Proof.
  intros Hm st. unfold try_except. destruct (Hm st) as [Hn Ho].
  destruct (m st) as [[a | | [e | e] |] st']; cbn [fst snd] in *;
    try (split; [exact Hn | discriminate]).
  exfalso. exact (Ho e eq_refl).
Qed.

Lemma silent_function_body (m : M studio unit) :
  silent m -> silent (function_body m).
Proof.
  intros Hm st. unfold function_body. destruct (Hm st) as [Hn Ho].
  destruct (m st) as [[[] | | e |] st']; cbn [fst snd] in *;
    (split; [exact Hn | first [exact Ho | discriminate]]).
Qed.

Lemma silent_in_session {A} (m : M session A) :
  contained m -> silent (in_session m).
Proof.
  intros Hm st. unfold in_session. specialize (Hm (session_in st)).
  destruct (m (session_in st)) as [o s]. cbn [fst snd notices] in *. auto.
Qed.

Lemma contained_in_handler next_bot (m : M state unit) :
  contained m -> contained (in_handler next_bot m).
Proof.
  intros Hm s msg. unfold in_handler.
  match goal with |- context [m ?st] => specialize (Hm st); destruct (m st) as [o s'] end.
  cbn [fst] in *. apply Hm.
Qed.

Section HandleImage.

Variable lower : list N -> list N.
Variable telegram : list event -> list sending -> sending -> result unit.
Variable P : env.
Variable create : nat -> creation.
Variable fuel : nat.

(** X26. [handle_image] never sends its own notice of a problem with the
    image, and no ordinary exception gets out of it: the image turn
    reports its failures through the callback, which raises no ordinary
    exception, so the handler of the last [try] block does not run. *)
Theorem handle_image_never_apologises (g : Z) (message path : list N)
    (st : studio) :
  notices (snd (handle_image lower telegram P create fuel g message path st))
    = notices st /\
  forall msg,
    fst (handle_image lower telegram P create fuel g message path st)
      <> Raise (Exception msg).
Proof.
  revert st. change (silent (handle_image lower telegram P create fuel g message path)).
  unfold handle_image. apply silent_function_body, silent_bind.
  { destruct (user_name_match message) as [n |]; [| apply silent_ret].
    apply silent_bind; [| intros _; apply silent_ret].
    apply silent_in_session. intros s msg. discriminate. }
  intros message'. apply silent_bind.
  { apply silent_in_session. intros s msg. discriminate. }
  intros hint. apply silent_bind.
  { apply silent_in_session. intros s msg. unfold resolve.
    destruct (set_thread_id create g hint (world_of s)) as [[r w] |]; discriminate. }
  intros [[| c tid] |]; try apply silent_early.
  apply silent_bind; [apply silent_in_session; intros s msg; discriminate |].
  intros [[| x nm] |]; try apply silent_early.
  apply silent_bind; [apply silent_in_session; intros s msg; discriminate |].
  intros [| next_bot bots]; [apply silent_early |].
  apply silent_bind; [apply silent_in_session; intros s msg; discriminate |].
  intros user_name.
  apply silent_bind; [apply silent_in_session; intros s msg; discriminate |].
  intros known. apply silent_bind.
  { case_bool_decide; [apply silent_ret |].
    apply silent_in_session. intros s msg. discriminate. }
  intros _. apply silent_try_except, silent_in_session, contained_in_handler.
  apply image_turn_contained. intros tr chunk msg. apply delivered_safe.
Qed.

End HandleImage.

Lemma turns_contain_failures_witness :
  (forall m, fst (stream_response calm 7 (py "hola") home) <> Raise (Exception m)) /\
  (forall m, fst (stream_image_response calm 3 7 (py "hola") (py "foto.jpg") home)
             <> Raise (Exception m)).
Proof.
  apply (turns_contain_failures calm 3 7 (py "hola") (py "foto.jpg") home).
  intros tr c m. discriminate.
Defined.

End ImagesFacts.
